(** * plex_ai_titler: a shallow embedding of [plex_ai_titler.py]

    The Python program is modelled function by function.  Strings are
    sequences of Unicode code points, exceptions are values of an error
    monad that keeps the state reached when the exception was raised, and
    the collaborators the program talks to (the credential file, the
    terminal, plex.tv, the Plex server and the language-model endpoint) are
    explicit state and oracles. *)

From Stdlib Require Import String Ascii DecimalString.
From Stdlib Require Import List ZArith NArith Lia Bool.
Import ListNotations.

Local Open Scope Z_scope.
Local Open Scope list_scope.

(* ===================================================================== *)
(** * Python strings *)
(* ===================================================================== *)

Module PyStr.

(** A Python [str] is a sequence of code points. *)
Definition str := list N.

(** A source literal (ASCII text in the program). *)
Definition lit (s : string) : str := map N_of_ascii (list_ascii_of_string s).

Definition str_eqb (a b : str) : bool :=
  if list_eq_dec N.eq_dec a b then true else false.

(** [bool(s)]: a string is truthy when it is not empty. *)
Definition truthy (s : str) : bool :=
  match s with [] => false | _ :: _ => true end.

(** [s.startswith(p)]. *)
Fixpoint startswith (s p : str) {struct p} : bool :=
  match p with
  | [] => true
  | c :: p' =>
      match s with
      | [] => false
      | d :: s' => N.eqb d c && startswith s' p'
      end
  end.

(** [needle in s]. *)
Fixpoint contains (s needle : str) : bool :=
  startswith s needle ||
  match s with
  | [] => false
  | _ :: s' => contains s' needle
  end.

(** [str.isspace] on one code point: the characters CPython's
    [_PyUnicode_IsWhitespace] accepts. *)
Definition isspace (c : N) : bool :=
  ((9 <=? c) && (c <=? 13) || (28 <=? c) && (c <=? 32)
   || (c =? 133) || (c =? 160) || (c =? 5760)
   || (8192 <=? c) && (c <=? 8202)
   || (c =? 8232) || (c =? 8233) || (c =? 8239) || (c =? 8287)
   || (c =? 12288))%N.

Fixpoint dropwhile (p : N -> bool) (s : str) : str :=
  match s with
  | [] => []
  | c :: s' => if p c then dropwhile p s' else s
  end.

(** [s.lstrip()], [s.rstrip()] and [s.strip()] with a predicate for the
    stripped characters. *)
Definition lstrip_with (p : N -> bool) (s : str) : str := dropwhile p s.
Definition rstrip_with (p : N -> bool) (s : str) : str :=
  rev (dropwhile p (rev s)).
Definition strip_with (p : N -> bool) (s : str) : str :=
  rstrip_with p (lstrip_with p s).

(** [s.strip()]: whitespace removed on both sides. *)
Definition strip (s : str) : str := strip_with isspace s.

(** [s.rstrip(chars)]: trailing characters that occur in [chars] removed. *)
Definition rstrip (s chars : str) : str :=
  rstrip_with (fun c => existsb (N.eqb c) chars) s.

(** [s.lower()] on the letters A-Z; the case tables of the other scripts are
    not modelled, their code points are left as they are. *)
Definition lower_char (c : N) : N :=
  (if (65 <=? c) && (c <=? 90) then c + 32 else c)%N.
Definition lower (s : str) : str := map lower_char s.

(** [s.rfind(c)] for a one-character [c]: the last index of [c], or [-1]. *)
Fixpoint rfind_from (i : Z) (s : str) (c : N) (found : Z) : Z :=
  match s with
  | [] => found
  | d :: s' => rfind_from (i + 1) s' c (if N.eqb d c then i else found)
  end.
Definition rfind (s : str) (c : N) : Z := rfind_from 0 s c (-1).

(** [s[i:]] for [0 <= i]. *)
Definition slice_from (s : str) (i : Z) : str := skipn (Z.to_nat i) s.

(** [str(n)] for an integer. *)
Definition of_Z (n : Z) : str :=
  lit (NilZero.string_of_int (Z.to_int n)).

(** ["c" * n]. *)
Definition times (c : str) (n : nat) : str := concat (repeat c n).

End PyStr.
Import PyStr.

(* ===================================================================== *)
(** * Paths: [os.sep], [os.path.basename], [get_relative_path] *)
(* ===================================================================== *)

(** [os.sep] of [posixpath]. *)
Definition sep : N := 47%N.

(** [posixpath.basename]:
    [i = p.rfind(sep) + 1; return p[i:]]. *)
Definition basename (p : str) : str :=
  let i := rfind p sep + 1 in
  slice_from p i.

(** [location.rstrip(os.sep) + os.sep] *)
Definition location_prefix (location : str) : str :=
  rstrip location [sep] ++ [sep].

(** [get_relative_path(filepath, library_locations)]: the [for] loop over the
    locations is the recursion on the list, the fall-through after the loop
    is the empty case. *)
Fixpoint get_relative_path (filepath : str) (library_locations : list str)
  : str :=
  match library_locations with
  | [] => basename filepath
  | location :: rest =>
      if startswith filepath (location_prefix location)
      then slice_from filepath (Z.of_nat (length (location_prefix location)))
      else get_relative_path filepath rest
  end.

(* ===================================================================== *)
(** * Exceptions, the world and the monad of the program *)
(* ===================================================================== *)

(** The exception classes the program meets.  [KeyboardInterrupt] and
    [SystemExit] derive from [BaseException] only; every other class derives
    from [Exception].  [OtherException] stands for the remaining classes
    below [Exception] (transport errors, API errors, ...). *)
Inductive exc_class :=
| Unauthorized
| OSError
| JSONDecodeError
| UnicodeDecodeError
| AttributeError
| IndexError
| EOFError
| OtherException
| KeyboardInterrupt
| SystemExit (status : Z).

(** An exception object; [exc_msg] is [str(e)]. *)
Record exc := Exc { exc_cls : exc_class; exc_msg : str }.

(** [isinstance(e, Exception)] *)
Definition is_Exception (e : exc) : bool :=
  match exc_cls e with
  | KeyboardInterrupt | SystemExit _ => false
  | _ => true
  end.

Definition is_Unauthorized (e : exc) : bool :=
  match exc_cls e with Unauthorized => true | _ => false end.

(** [isinstance(e, (json.JSONDecodeError, OSError))] *)
Definition is_JSONDecodeError_or_OSError (e : exc) : bool :=
  match exc_cls e with JSONDecodeError | OSError => true | _ => false end.

Definition is_OSError (e : exc) : bool :=
  match exc_cls e with OSError => true | _ => false end.

(** A value produced by [json.load]; [JNull] is Python's [None]. *)
#[local] Set Warnings "-register-all".
Inductive json :=
| JNull
| JBool (b : bool)
| JInt (n : Z)
| JStr (s : str)
| JArr (l : list json)
| JObj (d : list (str * json)).

(** [bool(v)] *)
Definition json_truthy (v : json) : bool :=
  match v with
  | JNull => false
  | JBool b => b
  | JInt n => negb (n =? 0)
  | JStr s => truthy s
  | JArr l => match l with [] => false | _ => true end
  | JObj d => match d with [] => false | _ => true end
  end.

(** [d.get(key)] on a [dict]: the value, or [None]. *)
Fixpoint dict_get (d : list (str * json)) (key : str) : json :=
  match d with
  | [] => JNull
  | (k, v) :: d' => if str_eqb k key then v else dict_get d' key
  end.

(** What [json.load] makes of the text of a file. *)
Inductive json_load_result :=
| NotText (msg : str)      (** undecodable bytes: [UnicodeDecodeError] *)
| NotJSON (msg : str)      (** [json.JSONDecodeError] *)
| Doc (v : json).

(** The credential file [CREDS_FILE]. *)
Inductive creds_state :=
| Missing                          (** [CREDS_FILE.exists()] is false *)
| Unreadable (msg : str)           (** opening or reading raises [OSError] *)
| Holds (content : json_load_result).

(** What the terminal delivers to one [input()] or [getpass()] call. *)
Inductive tty_input :=
| Line (s : str)
| EndOfInput                       (** [EOFError] *)
| Interrupt                        (** [KeyboardInterrupt] *)
| Undecodable (msg : str).         (** bytes that are no text:
                                       [UnicodeDecodeError] *)

(** Catalog items as the program probes them: [item_fields = None] and
    [item_parts = None] stand for an item without the attribute [fields],
    respectively without the method [iterParts]. *)
Record field := Field { field_name : str; field_locked : bool }.
Record media_part := MediaPart { part_file : option str }.
Record item := Item {
  item_title : str;
  item_fields : option (list field);
  item_parts : option (list (option media_part))
}.

(** [float] values are only passed through; they are identified by their
    binary64 bit pattern. *)
Definition float := Z.

Record AIConfig := {
  endpoint : str;
  model : str;
  system_prompt : str;
  temperature : float;
  api_key : str
}.

(** A chat-completion request and its response. *)
Record chat_request := ChatRequest {
  req_model : str;
  req_temperature : float;
  req_messages : list (str * str)     (** role, content *)
}.
Record choice := Choice { message_content : option str }.
Record chat_response := ChatResponse { choices : list choice }.

Record MyPlexAccount := Account { authToken : str }.

(** The calls and outputs a run leaves behind, oldest first. *)
Inductive event :=
| EvPrint (line : str)
| EvInput (prompt : str)
| EvGetpass (prompt : str)
| EvLoadCachedToken
| EvSaveCachedToken (token : str)
| EvClearCachedToken
| EvChmod (mode : Z)
| EvChatCreate (req : chat_request)
| EvEditTitle (index : nat) (title : str).

Record world := World {
  creds_file : creds_state;
  tty : list tty_input;          (** what the user will type *)
  catalog : list item;           (** the items of the library on the server *)
  llm_calls : nat;               (** requests sent to the language model *)
  trace : list event
}.

Inductive outcome (A : Type) :=
| Return (a : A)
| Raise (e : exc).
Arguments Return {A} a.
Arguments Raise {A} e.

(** A computation: it returns or raises, and in both cases leaves a world. *)
Definition M (A : Type) : Type := world -> outcome A * world.

Definition ret {A} (a : A) : M A := fun w => (Return a, w).
Definition raise {A} (e : exc) : M A := fun w => (Raise e, w).
Definition bind {A B} (m : M A) (k : A -> M B) : M B :=
  fun w =>
    match m w with
    | (Return a, w') => k a w'
    | (Raise e, w') => (Raise e, w')
    end.

Declare Scope py_scope.
Delimit Scope py_scope with py.
Notation "x <- m ;; k" := (bind m (fun x => k))
  (at level 61, m at next level, right associativity) : py_scope.
Notation "m ;; k" := (bind m (fun _ => k))
  (at level 61, right associativity) : py_scope.
Local Open Scope py_scope.

(** [try: body  except <catches> as e: handler e] *)
Definition try_except {A} (body : M A) (catches : exc -> bool)
  (handler : exc -> M A) : M A :=
  fun w =>
    match body w with
    | (Return a, w') => (Return a, w')
    | (Raise e, w') => if catches e then handler e w' else (Raise e, w')
    end.

Definition log (ev : event) : M unit :=
  fun w => (Return tt,
            World (creds_file w) (tty w) (catalog w) (llm_calls w)
                  (trace w ++ [ev])).

Definition print (line : str) : M unit := log (EvPrint line).

Definition set_creds_file (c : creds_state) : M unit :=
  fun w => (Return tt,
            World c (tty w) (catalog w) (llm_calls w) (trace w)).

Definition set_catalog (c : list item) : M unit :=
  fun w => (Return tt,
            World (creds_file w) (tty w) c (llm_calls w) (trace w)).

Definition get_world : M world := fun w => (Return w, w).

(** Reading one line from the terminal; an exhausted terminal is at its end
    of input. *)
Definition read_tty : M str :=
  fun w =>
    match tty w with
    | [] => (Raise (Exc EOFError (lit "EOF when reading a line")), w)
    | i :: rest =>
        let w' := World (creds_file w) rest (catalog w) (llm_calls w)
                        (trace w) in
        match i with
        | Line s => (Return s, w')
        | EndOfInput =>
            (Raise (Exc EOFError (lit "EOF when reading a line")), w')
        | Interrupt => (Raise (Exc KeyboardInterrupt []), w')
        | Undecodable msg => (Raise (Exc UnicodeDecodeError msg), w')
        end
    end.

(** [input(prompt)] and [getpass(prompt)] *)
Definition input (prompt : str) : M str := log (EvInput prompt) ;; read_tty.
Definition getpass (prompt : str) : M str :=
  log (EvGetpass prompt) ;; read_tty.

(** [sys.exit(status)] *)
Definition sys_exit {A} (status : Z) : M A := raise (Exc (SystemExit status) []).

(** How the interpreter ends once the program's top level has run. *)
Inductive process_end :=
| ExitStatus (status : Z)
| UncaughtTraceback (e : exc).   (** the traceback of [e] is printed *)

Definition run_process (program : M unit) (w : world) : process_end * world :=
  match program w with
  | (Return _, w') => (ExitStatus 0, w')
  | (Raise e, w') =>
      match exc_cls e with
      | SystemExit status => (ExitStatus status, w')
      | _ => (UncaughtTraceback e, w')
      end
  end.

(** How writing the credential file fails.  [open(CREDS_FILE, "w")] raises
    and the file is untouched; or the file was opened, which created or
    truncated it, and [json.dump] or closing the file raises, which leaves
    in the file what had reached it by then. *)
Inductive write_failure :=
| OpenFails (msg : str)
| WriteFails (msg : str) (remains : json_load_result).

(** [str(e)] of the [OSError] *)
Definition write_failure_msg (f : write_failure) : str :=
  match f with OpenFails msg | WriteFails msg _ => msg end.

(** The collaborators whose answers the program does not determine. *)
Record services := {
  (** [CONFIG.get(key)] of plexapi *)
  CONFIG_get : str -> option str;
  (** [MyPlexAccount(token=t)] *)
  signin_token : json -> outcome MyPlexAccount;
  (** [MyPlexAccount(username, password)] and
      [MyPlexAccount(username, password, code=code)] *)
  signin : str -> str -> option str -> outcome MyPlexAccount;
  (** writing the credential file: [open(CREDS_FILE, "w")] with [json.dump],
      then [chmod]; each may raise [OSError] *)
  creds_write_error : str -> option write_failure;
  creds_chmod_error : str -> option str;
  (** [CREDS_FILE.unlink(missing_ok=True)] may raise [OSError] *)
  creds_unlink_error : option str;
  (** [client.chat.completions.create]: the answer to the n-th request *)
  chat_create : nat -> chat_request -> outcome chat_response;
  (** [item.editTitle(title)] on the item at an index of the library:
      [None] when the server accepted the edit *)
  edit_title_error : nat -> str -> option exc
}.

(* ===================================================================== *)
(** * CredentialStore: [load_cached_token], [save_cached_token],
      [clear_cached_token] *)
(* ===================================================================== *)

Definition auth_token_key : str := lit "auth_token".

(** [open(CREDS_FILE)] followed by [json.load(f)]. *)
Definition open_and_json_load : M json :=
  w <- get_world ;;
  match creds_file w with
  | Missing => raise (Exc OSError (lit "No such file or directory"))
  | Unreadable msg => raise (Exc OSError msg)
  | Holds (NotText msg) => raise (Exc UnicodeDecodeError msg)
  | Holds (NotJSON msg) => raise (Exc JSONDecodeError msg)
  | Holds (Doc v) => ret v
  end.

(** [data.get("auth_token")]: only a [dict] has the method [get]. *)
Definition data_get_auth_token (data : json) : M json :=
  match data with
  | JObj d => ret (dict_get d auth_token_key)
  | _ => raise (Exc AttributeError (lit "object has no attribute 'get'"))
  end.

(** [load_cached_token()]; the result is whatever the file holds under
    ["auth_token"], [JNull] being [None]. *)
Definition load_cached_token : M json :=
  log EvLoadCachedToken ;;
  w <- get_world ;;
  match creds_file w with
  | Missing => ret JNull
  | _ =>
      try_except
        (data <- open_and_json_load ;;
         data_get_auth_token data)
        is_JSONDecodeError_or_OSError
        (fun _ => ret JNull)
  end.

(** [save_cached_token(token)] *)
Definition save_cached_token (sv : services) (token : str) : M unit :=
  log (EvSaveCachedToken token) ;;
  try_except
    (match creds_write_error sv token with
     | Some (OpenFails msg) => raise (Exc OSError msg)
     | Some (WriteFails msg remains) =>
         set_creds_file (Holds remains) ;; raise (Exc OSError msg)
     | None =>
         set_creds_file (Holds (Doc (JObj [(auth_token_key, JStr token)])))
     end ;;
     match creds_chmod_error sv token with
     | Some msg => raise (Exc OSError msg)
     | None => log (EvChmod 384)
     end)
    is_OSError
    (fun e => print (lit "Warning: Could not save credentials: " ++ exc_msg e)).

(** [clear_cached_token()] *)
Definition clear_cached_token (sv : services) : M unit :=
  log EvClearCachedToken ;;
  try_except
    (match creds_unlink_error sv with
     | Some msg => raise (Exc OSError msg)
     | None => set_creds_file Missing
     end)
    is_OSError
    (fun _ => ret tt).

(* ===================================================================== *)
(** * AuthenticationFlow: [authenticate_myplex] *)
(* ===================================================================== *)

(** [bool(x)] for [x : str | None] *)
Definition opt_truthy (x : option str) : bool :=
  match x with
  | None => false
  | Some s => truthy s
  end.

Definition MyPlexAccount_token (sv : services) (token : json)
  : M MyPlexAccount :=
  fun w => (signin_token sv token, w).

Definition MyPlexAccount_password (sv : services) (username password : str)
  (code : option str) : M MyPlexAccount :=
  fun w => (signin sv username password code, w).

(** Lines 113-122: the cached token.  [Some account] is the [return account]
    inside the [try]; [None] is falling out of the [if]. *)
Definition try_cached_token (sv : services) : M (option MyPlexAccount) :=
  cached_token <- load_cached_token ;;
  if json_truthy cached_token then
    try_except
      (print (lit "Using cached credentials...") ;;
       account <- MyPlexAccount_token sv cached_token ;;
       ret (Some account))
      is_Unauthorized
      (fun _ =>
         print (lit "Cached credentials expired, re-authenticating...") ;;
         clear_cached_token sv ;;
         ret None)
  else ret None.

(** ["verification code" in str(e).lower() or "1029" in str(e)] *)
Definition asks_for_code (e : exc) : bool :=
  contains (lower (exc_msg e)) (lit "verification code")
  || contains (exc_msg e) (lit "1029").

(** Lines 124-144: the username and the password, from the arguments, the
    configuration or the terminal, and the sign-in with them. *)
Definition password_sign_in (sv : services) (username password : option str)
  : M MyPlexAccount :=
  let username :=
    if negb (opt_truthy username)
    then CONFIG_get sv (lit "auth.myplex_username") else username in
  let password :=
    if negb (opt_truthy password)
    then CONFIG_get sv (lit "auth.myplex_password") else password in
  username <-
    match username with
    | Some u =>
        if negb (truthy u)
        then (s <- input (lit "Plex.tv username: ") ;; ret (strip s))
        else ret u
    | None => s <- input (lit "Plex.tv username: ") ;; ret (strip s)
    end ;;
  password <-
    match password with
    | Some p =>
        if negb (truthy p) then getpass (lit "Plex.tv password: ") else ret p
    | None => getpass (lit "Plex.tv password: ")
    end ;;
  print (lit "Authenticating with Plex.tv as " ++ username ++ lit "...") ;;
  try_except
    (MyPlexAccount_password sv username password None)
    is_Unauthorized
    (fun e =>
       if asks_for_code e then
         code <- input (lit "2FA verification code: ") ;;
         MyPlexAccount_password sv username password (Some (strip code))
       else raise e).

(** [authenticate_myplex(username, password)] *)
Definition authenticate_myplex (sv : services)
  (username password : option str) : M MyPlexAccount :=
  cached <- try_cached_token sv ;;
  match cached with
  | Some account => ret account
  | None =>
      account <- password_sign_in sv username password ;;
      save_cached_token sv (authToken account) ;;
      print (lit "Credentials cached for future use.") ;;
      ret account
  end.

(** The [try: ... except Exception as e: print(f"Error: {e}"); sys.exit(1)]
    of [main] (lines 400, 436-438) around the statements [body]. *)
Definition main_try (body : M unit) : M unit :=
  try_except body is_Exception
    (fun e => print (lit "Error: " ++ exc_msg e) ;; sys_exit 1).

(* ===================================================================== *)
(** * EligibilityFilter: [get_item_filepaths], [is_title_locked] *)
(* ===================================================================== *)

(** [part and part.file] *)
Definition part_has_file (part : option media_part) : option str :=
  match part with
  | Some p =>
      match part_file p with
      | Some f => if truthy f then Some f else None
      | None => None
      end
  | None => None
  end.

(** [get_item_filepaths(item)] *)
Definition get_item_filepaths (it : item) : list str :=
  match item_parts it with
  | None => []
  | Some parts =>
      flat_map (fun part =>
                  match part_has_file part with
                  | Some f => [f]
                  | None => []
                  end) parts
  end.

(** [is_title_locked(item)] *)
Definition is_title_locked (it : item) : bool :=
  match item_fields it with
  | None => false
  | Some [] => false
  | Some fields =>
      existsb (fun f => str_eqb (field_name f) (lit "title") && field_locked f)
              fields
  end.

(* ===================================================================== *)
(** * TitleGenerator: [generate_title] *)
(* ===================================================================== *)

(** [client.chat.completions.create(...)] *)
Definition chat_completions_create (sv : services) (req : chat_request)
  : M chat_response :=
  fun w =>
    (chat_create sv (llm_calls w) req,
     World (creds_file w) (tty w) (catalog w) (S (llm_calls w))
           (trace w ++ [EvChatCreate req])).

(** [generate_title(client, config, filename)]: [choices[0]] raises
    [IndexError] on an empty list, [.strip()] raises [AttributeError] on a
    [content] that is [None]. *)
Definition generate_title (sv : services) (config : AIConfig) (filename : str)
  : M str :=
  response <-
    chat_completions_create sv
      (ChatRequest (model config) (temperature config)
         [(lit "system", system_prompt config); (lit "user", filename)]) ;;
  match choices response with
  | [] => raise (Exc IndexError (lit "list index out of range"))
  | c :: _ =>
      match message_content c with
      | None =>
          raise (Exc AttributeError
                   (lit "'NoneType' object has no attribute 'strip'"))
      | Some content => ret (strip content)
      end
  end.

(* ===================================================================== *)
(** * BatchProcessor: [process_library_items] *)
(* ===================================================================== *)

Record counters := Counters {
  processed : Z;
  skipped_locked : Z;
  skipped_no_file : Z;
  errors : Z
}.

(** Lines 275-278. *)
Definition counters_zero : counters := Counters 0 0 0 0.

Definition incr_processed (c : counters) : counters :=
  Counters (processed c + 1) (skipped_locked c) (skipped_no_file c) (errors c).
Definition incr_skipped_locked (c : counters) : counters :=
  Counters (processed c) (skipped_locked c + 1) (skipped_no_file c) (errors c).
Definition incr_skipped_no_file (c : counters) : counters :=
  Counters (processed c) (skipped_locked c) (skipped_no_file c + 1) (errors c).
Definition incr_errors (c : counters) : counters :=
  Counters (processed c) (skipped_locked c) (skipped_no_file c) (errors c + 1).


(** What an accepted edit does to the fields of the item.  The program
    calls [item.editTitle(new_title)], which is plexapi's
    [editField("title", new_title, locked=True)]: the server locks the field
    [title], and lists it among the fields of the item if it was not. *)
Fixpoint lock_title (fields : list field) : list field :=
  match fields with
  | [] => [Field (lit "title") true]
  | f :: rest =>
      if str_eqb (field_name f) (lit "title")
      then Field (field_name f) true :: rest
      else f :: lock_title rest
  end.

(** The item on the server after an accepted [editTitle(title)]. *)
Definition edited (title : str) (it : item) : item :=
  Item title
       (Some (lock_title (match item_fields it with
                          | Some fields => fields
                          | None => []
                          end)))
       (item_parts it).

Fixpoint set_title_at (index : nat) (title : str) (items : list item)
  : list item :=
  match items with
  | [] => []
  | it :: rest =>
      match index with
      | O => edited title it :: rest
      | S n => it :: set_title_at n title rest
      end
  end.

(** An item before and after a run: it is as it was, or it was given a
    title, which locked the title. *)
Definition retitled (before after : item) : Prop :=
  after = before \/
  (exists title, after = edited title before) /\
  is_title_locked after = true.

(** [item.editTitle(new_title)] for the item at [index] of the library: the
    server either takes the new title, locking it, or the call raises. *)
Definition editTitle (sv : services) (index : nat) (new_title : str) : M unit :=
  log (EvEditTitle index new_title) ;;
  match edit_title_error sv index new_title with
  | Some e => raise e
  | None =>
      w <- get_world ;;
      set_catalog (set_title_at index new_title (catalog w))
  end.

Definition quoted_pair (current_title new_title : str) : str :=
  lit "'" ++ current_title ++ lit "' -> '" ++ new_title ++ lit "'".

(** Lines 298-308: the statements inside the [try]. *)
Definition generate_and_apply (sv : services) (config : AIConfig)
  (dry_run : bool) (index : nat) (relative_path current_title : str)
  (c : counters) : M counters :=
  new_title <- generate_title sv config relative_path ;;
  (if dry_run then
     print (lit "DRY RUN: " ++ quoted_pair current_title new_title) ;;
     print (lit "  Path: " ++ relative_path)
   else
     print (lit "UPDATE: " ++ quoted_pair current_title new_title) ;;
     print (lit "  Path: " ++ relative_path) ;;
     editTitle sv index new_title) ;;
  ret (incr_processed c).

(** Lines 281-312: the body of the [for] loop for one item; the counters are
    the four local variables. *)
Definition process_item (sv : services) (config : AIConfig) (dry_run : bool)
  (library_locations : list str) (index : nat) (it : item) (c : counters)
  : M counters :=
  let filepaths := get_item_filepaths it in
  match filepaths with
  | [] => ret (incr_skipped_no_file c)
  | filepath :: _ =>
      if is_title_locked it then
        print (lit "SKIP (locked): " ++ item_title it) ;;
        ret (incr_skipped_locked c)
      else
        let relative_path := get_relative_path filepath library_locations in
        let current_title := item_title it in
        try_except
          (generate_and_apply sv config dry_run index relative_path
             current_title c)
          is_Exception
          (fun e =>
             print (lit "ERROR: " ++ item_title it ++ lit ": " ++ exc_msg e) ;;
             ret (incr_errors c))
  end.

(** Line 280: [for item in items]; [index] is the position of the head of
    [items] in the library. *)
Fixpoint process_items (sv : services) (config : AIConfig) (dry_run : bool)
  (library_locations : list str) (index : nat) (items : list item)
  (c : counters) : M counters :=
  match items with
  | [] => ret c
  | it :: rest =>
      c' <- process_item sv config dry_run library_locations index it c ;;
      process_items sv config dry_run library_locations (S index) rest c'
  end.

Record LibrarySection := {
  library_title : str;
  library_locations : list str
}.

Definition nl : str := [10%N].
Definition rule : str := times (lit "=") 80.

(** Lines 268-273. *)
Definition print_header (library : LibrarySection) (items : list item)
  : M unit :=
  print (nl ++ lit "Scanning library: " ++ library_title library ++ lit "...") ;;
  print (lit "Found " ++ of_Z (Z.of_nat (length items)) ++ lit " items in '"
         ++ library_title library ++ lit "'") ;;
  print rule.

(** Lines 314-322. *)
Definition print_summary (dry_run : bool) (c : counters) : M unit :=
  print rule ;;
  print (nl ++ lit "Summary:") ;;
  print (lit "  Processed: " ++ of_Z (processed c)) ;;
  print (lit "  Skipped (locked): " ++ of_Z (skipped_locked c)) ;;
  print (lit "  Skipped (no file): " ++ of_Z (skipped_no_file c)) ;;
  print (lit "  Errors: " ++ of_Z (errors c)) ;;
  if dry_run then print (nl ++ lit "This was a DRY RUN. No changes were made.")
  else ret tt.

(** Lines 268-312 of [process_library_items]: the header and the loop,
    up to the final value of the four counters.  [library.all()] is the
    catalog on the server when the run starts. *)
Definition scan_library (sv : services) (library : LibrarySection)
  (config : AIConfig) (dry_run : bool) : M counters :=
  w <- get_world ;;
  let items := catalog w in
  let locations := library_locations library in
  print_header library items ;;
  process_items sv config dry_run locations 0 items counters_zero.

(** [process_library_items(library, client, config, dry_run)] *)
Definition process_library_items (sv : services) (library : LibrarySection)
  (config : AIConfig) (dry_run : bool) : M unit :=
  c <- scan_library sv library config dry_run ;;
  print_summary dry_run c.

(* ===================================================================== *)
(** * Predicates used in the statements *)
(* ===================================================================== *)

(** The string begins with a path separator. *)
Definition leading_sep (s : str) : bool :=
  match s with
  | c :: _ => N.eqb c sep
  | [] => false
  end.

(** The string ends with a path separator. *)
Definition trailing_sep (s : str) : bool := leading_sep (rev s).

(** A path separator occurs in the string. *)
Definition has_sep (s : str) : bool := existsb (N.eqb sep) s.

(** The prefix test of [get_relative_path] fails for the location. *)
Definition not_under (filepath location : str) : Prop :=
  startswith filepath (location_prefix location) = false.

(** The world after further events. *)
Definition after (w : world) (evs : list event) : world :=
  World (creds_file w) (tty w) (catalog w) (llm_calls w) (trace w ++ evs).

(** A computation only ever adds to the trace. *)
Definition extends_trace {A} (m : M A) : Prop :=
  forall w r w', m w = (r, w') -> exists evs, trace w' = trace w ++ evs.

Definition is_save_event (ev : event) : bool :=
  match ev with EvSaveCachedToken _ => true | _ => false end.

Definition is_chat_event (ev : event) : bool :=
  match ev with EvChatCreate _ => true | _ => false end.

Definition is_edit_event (ev : event) : bool :=
  match ev with EvEditTitle _ _ => true | _ => false end.

(** The record [save_cached_token] writes. *)
Definition token_record (token : str) : creds_state :=
  Holds (Doc (JObj [(auth_token_key, JStr token)])).

(** Collaborators that always answer, for the examples. *)
Definition helpful_services : services := {|
  CONFIG_get := fun _ => None;
  signin_token := fun _ => Return (Account (lit "cached-token"));
  signin := fun _ _ _ => Return (Account (lit "fresh-token"));
  creds_write_error := fun _ => None;
  creds_chmod_error := fun _ => None;
  creds_unlink_error := None;
  chat_create := fun _ _ =>
    Return (ChatResponse [Choice (Some (lit " Inception (2010) "))]);
  edit_title_error := fun _ _ => None
|}.

(** A world in which nothing has happened yet. *)
Definition fresh_world (creds : creds_state) (typed : list tty_input)
  (items : list item) : world :=
  World creds typed items 0 [].

(** What a run of [authenticate_myplex] leaves when the cached token was
    accepted. *)
Definition using_cached : list event :=
  [EvLoadCachedToken; EvPrint (lit "Using cached credentials...")].

(** The session [account] came from the cached token: only the load and the
    notice happened, no save among them. *)
Definition via_cached_token (sv : services) (w w' : world)
  (account : MyPlexAccount) : Prop :=
  fst (try_cached_token sv w) = Return (Some account) /\
  w' = after w using_cached /\
  existsb is_save_event using_cached = false.

(** The session [account] came from the username and the password: the
    cached token gave none, [save_cached_token] was called with the token of
    the session, the notice about the cached credentials is the last event,
    and the file holds the token unless writing it failed. *)
Definition via_password (sv : services) (w w' : world)
  (account : MyPlexAccount) : Prop :=
  fst (try_cached_token sv w) = Return None /\
  (exists pre fx,
      trace w' = trace w ++ pre ++
                 EvSaveCachedToken (authToken account) :: fx ++
                 [EvPrint (lit "Credentials cached for future use.")]) /\
  match creds_write_error sv (authToken account) with
  | None => creds_file w' = token_record (authToken account)
  | Some _ => True
  end.

(** A first run: no credential file, the user types a name and a password. *)
Definition first_run_world : world :=
  fresh_world Missing [Line (lit "alice"); Line (lit "secret")] [].

(** [main] from the authentication on; [rest_of_main] are the statements
    that follow it inside the [try]. *)
Definition main_from_authentication (rest_of_main : MyPlexAccount -> M unit)
  (sv : services) (username password : option str) : M unit :=
  main_try (account <- authenticate_myplex sv username password ;;
            rest_of_main account).

(** An account with two-factor protection: the sign-in without a code is
    rejected with a request for the verification code. *)
Definition two_factor_services : services := {|
  CONFIG_get := fun _ => None;
  signin_token := fun _ => Return (Account (lit "cached-token"));
  signin := fun _ _ code =>
    match code with
    | None =>
        Raise (Exc Unauthorized
                 (lit "(401) unauthorized; Please enter the verification code"))
    | Some _ => Return (Account (lit "fresh-token"))
    end;
  creds_write_error := fun _ => None;
  creds_chmod_error := fun _ => None;
  creds_unlink_error := None;
  chat_create := fun _ _ =>
    Return (ChatResponse [Choice (Some (lit " Inception (2010) "))]);
  edit_title_error := fun _ _ => None
|}.

(** The string begins, respectively ends, with whitespace. *)
Definition leading_space (s : str) : bool :=
  match s with
  | c :: _ => isspace c
  | [] => false
  end.
Definition trailing_space (s : str) : bool := leading_space (rev s).

(** The request [generate_title] sends for a file name. *)
Definition title_request (config : AIConfig) (filename : str) : chat_request :=
  ChatRequest (model config) (temperature config)
    [(lit "system", system_prompt config); (lit "user", filename)].

(** The world after [k] further requests to the language model and further
    events. *)
Definition bump (w : world) (k : nat) (evs : list event) : world :=
  World (creds_file w) (tty w) (catalog w) (llm_calls w + k)
        (trace w ++ evs).

(** The events of a run that started in [w] and ended in [w']. *)
Definition events_since (w w' : world) : list event :=
  skipn (length (trace w)) (trace w').

(** The events [print_summary] adds. *)
Definition summary_events (dry_run : bool) (c : counters) : list event :=
  [EvPrint rule;
   EvPrint (nl ++ lit "Summary:");
   EvPrint (lit "  Processed: " ++ of_Z (processed c));
   EvPrint (lit "  Skipped (locked): " ++ of_Z (skipped_locked c));
   EvPrint (lit "  Skipped (no file): " ++ of_Z (skipped_no_file c));
   EvPrint (lit "  Errors: " ++ of_Z (errors c))]
  ++ (if dry_run
      then [EvPrint (nl ++ lit "This was a DRY RUN. No changes were made.")]
      else []).


(** The world in which the loop starts: the header is printed. *)
Definition header_world (library : LibrarySection) (w : world) : world :=
  snd (print_header library (catalog w) w).





(** The language model answers the requests of a run of [sv2] from [w2] as
    it answers those of a run of [sv] from [w]. *)
Definition same_answers (sv2 : services) (w2 : world) (sv : services)
  (w : world) : Prop :=
  forall k req,
    chat_create sv2 (llm_calls w2 + k) req
    = chat_create sv (llm_calls w + k) req.

(** Items and a library for the examples. *)
Definition title_field (locked : bool) : field := Field (lit "title") locked.

Definition movie (title : str) (locked : bool) (file : str) : item :=
  Item title (Some [title_field locked]) (Some [Some (MediaPart (Some file))]).

Definition locked_without_file : item :=
  Item (lit "Trailer") (Some [title_field true]) (Some []).

Definition movies : LibrarySection := {|
  library_title := lit "Movies";
  library_locations := [lit "/media/Movies/"]
|}.

Definition sample_config : AIConfig := {|
  endpoint := lit "https://api.openai.com/v1";
  model := lit "gpt-4";
  system_prompt := lit "Return a clean title";
  temperature := 0;
  api_key := lit "key"
|}.


(** A language model whose completion is the empty string. *)
Definition silent_services : services := {|
  CONFIG_get := fun _ => None;
  signin_token := fun _ => Return (Account (lit "cached-token"));
  signin := fun _ _ _ => Return (Account (lit "fresh-token"));
  creds_write_error := fun _ => None;
  creds_chmod_error := fun _ => None;
  creds_unlink_error := None;
  chat_create := fun _ _ => Return (ChatResponse [Choice (Some [])]);
  edit_title_error := fun _ _ => None
|}.

(** A library of two movies, the second one locked. *)
Definition two_movies : list item :=
  [movie (lit "a") false (lit "/media/Movies/Inception (2010)/Inception.mkv");
   movie (lit "Heat") true (lit "/media/Movies/Heat.mkv")].

(** A server that refuses every edit. *)
Definition readonly_services : services := {|
  CONFIG_get := fun _ => None;
  signin_token := fun _ => Return (Account (lit "cached-token"));
  signin := fun _ _ _ => Return (Account (lit "fresh-token"));
  creds_write_error := fun _ => None;
  creds_chmod_error := fun _ => None;
  creds_unlink_error := None;
  chat_create := fun _ _ =>
    Return (ChatResponse [Choice (Some (lit " Inception (2010) "))]);
  edit_title_error := fun _ _ =>
    Some (Exc OtherException (lit "(403) forbidden"))
|}.

(* ===================================================================== *)
(** * Further definitions for the statements about the whole program *)
(* ===================================================================== *)

(** Lines 124-150 of [authenticate_myplex]: what follows the cached token. *)
Definition sign_in_and_save (sv : services) (username password : option str)
  : M MyPlexAccount :=
  account <- password_sign_in sv username password ;;
  save_cached_token sv (authToken account) ;;
  print (lit "Credentials cached for future use.") ;;
  ret account.

(** Every event a computation adds satisfies [P]. *)
Definition adds_only (P : event -> bool) {A} (m : M A) : Prop :=
  forall w r w',
    m w = (r, w') -> exists evs, trace w' = trace w ++ evs /\ forallb P evs = true.

Definition not_save_event (ev : event) : bool := negb (is_save_event ev).
Definition not_edit_event (ev : event) : bool := negb (is_edit_event ev).

(** Events that touch the credential file. *)
Definition is_credential_event (ev : event) : bool :=
  match ev with
  | EvLoadCachedToken | EvSaveCachedToken _ | EvClearCachedToken
  | EvChmod _ => true
  | _ => false
  end.
Definition not_credential_event (ev : event) : bool :=
  negb (is_credential_event ev).

(** Events that read the terminal. *)
Definition is_terminal_event (ev : event) : bool :=
  match ev with
  | EvInput _ | EvGetpass _ => true
  | _ => false
  end.

(** The world after a cached token was rejected. *)
Definition after_rejected_token (sv : services) (w : world) : world :=
  World (match creds_unlink_error sv with
         | None => Missing
         | Some _ => creds_file w
         end)
        (tty w) (catalog w) (llm_calls w)
        (trace w ++
         [EvLoadCachedToken;
          EvPrint (lit "Using cached credentials...");
          EvPrint (lit "Cached credentials expired, re-authenticating...");
          EvClearCachedToken]).

(** plex.tv rejects every cached token. *)
Definition expired_services : services := {|
  CONFIG_get := fun _ => None;
  signin_token := fun _ => Raise (Exc Unauthorized (lit "(401) unauthorized"));
  signin := fun _ _ _ => Return (Account (lit "fresh-token"));
  creds_write_error := fun _ => None;
  creds_chmod_error := fun _ => None;
  creds_unlink_error := None;
  chat_create := fun _ _ =>
    Return (ChatResponse [Choice (Some (lit " Inception (2010) "))]);
  edit_title_error := fun _ _ => None
|}.

(** plex.tv cannot be reached. *)
Definition unreachable_services : services := {|
  CONFIG_get := fun _ => None;
  signin_token := fun _ => Raise (Exc OtherException (lit "Connection error."));
  signin := fun _ _ _ => Raise (Exc OtherException (lit "Connection error."));
  creds_write_error := fun _ => None;
  creds_chmod_error := fun _ => None;
  creds_unlink_error := None;
  chat_create := fun _ _ =>
    Raise (Exc OtherException (lit "Connection error."));
  edit_title_error := fun _ _ => None
|}.

(** A read-only disk: the credential file cannot be written. *)
Definition readonly_disk_services : services := {|
  CONFIG_get := fun _ => None;
  signin_token := fun _ => Return (Account (lit "cached-token"));
  signin := fun _ _ _ => Return (Account (lit "fresh-token"));
  creds_write_error := fun _ =>
    Some (OpenFails (lit "Read-only file system"));
  creds_chmod_error := fun _ => None;
  creds_unlink_error := Some (lit "Read-only file system");
  chat_create := fun _ _ =>
    Return (ChatResponse [Choice (Some (lit " Inception (2010) "))]);
  edit_title_error := fun _ _ => None
|}.

(** A world with a cached token. *)
Definition returning_world : world :=
  fresh_world (token_record (lit "cached-token")) [] [].

(** plex.tv rejects the password. *)
Definition wrong_password_services : services := {|
  CONFIG_get := fun _ => None;
  signin_token := fun _ => Return (Account (lit "cached-token"));
  signin := fun _ _ _ =>
    Raise (Exc Unauthorized (lit "(401) unauthorized; Invalid password"));
  creds_write_error := fun _ => None;
  creds_chmod_error := fun _ => None;
  creds_unlink_error := None;
  chat_create := fun _ _ =>
    Return (ChatResponse [Choice (Some (lit " Inception (2010) "))]);
  edit_title_error := fun _ _ => None
|}.

(** A world with a cached token and a user at the terminal. *)
Definition returning_user_world : world :=
  fresh_world (token_record (lit "cached-token"))
    [Line (lit "alice"); Line (lit "secret")] [].

(* ===================================================================== *)
(** * The interactive front end: [load_config], [connect_direct],
      [select_server], [select_library], [prompt_run_mode], [main] *)
(* ===================================================================== *)

(** The [ai] mapping of the configuration document: each key is absent
    ([None]) or holds a value of the type [AIConfig] declares for it. *)
Record ai_mapping := {
  ai_endpoint : option str;
  ai_model : option str;
  ai_system_prompt : option str;
  ai_temperature : option float;
  ai_api_key : option str
}.

(** What [yaml.safe_load] makes of the configuration file. *)
Inductive config_document :=
| RootNotMapping (msg : str)   (** an empty document ([None]), a list, a
                                   scalar: [data.get] raises *)
| NoAiKey                      (** a mapping without the key [ai] *)
| AiNotMapping (msg : str)     (** [ai] holds no mapping: [ai_config.get]
                                   raises *)
| AiMapping (m : ai_mapping).

Inductive config_state :=
| ConfigMissing                    (** [config_path.exists()] is false *)
| ConfigUnreadable (msg : str)     (** [open] raises [OSError] *)
| ConfigNotYAML (msg : str)        (** [yaml.YAMLError] *)
| ConfigHolds (d : config_document).

(** A library section of a server, a server, and a resource of an
    account. *)
Record section := Section_ {
  section_library : LibrarySection;
  section_type : str
}.
Record PlexServer := {
  friendlyName : str;
  library_sections : outcome (list section)   (** [plex.library.sections()] *)
}.
Record resource := {
  resource_name : str;
  provides : str;
  connect : outcome PlexServer                (** [resource.connect()] *)
}.

(** The command line; [arg_config] is [str(args.config)]. *)
Record arguments := {
  arg_config : str;
  arg_url : option str;
  arg_token : option str;
  arg_username : option str;
  arg_password : option str
}.

(** What the front end meets besides the collaborators of [services]. *)
Record frontend := {
  (** the builtin [int] on a string; [None] is its [ValueError] *)
  py_int : str -> option Z;
  (** the file at a path *)
  config_file : str -> config_state;
  (** [os.environ.get("OPENAI_API_KEY")] *)
  OPENAI_API_KEY : option str;
  (** [OpenAI(base_url=..., api_key=...)] may raise *)
  OpenAI_error : str -> str -> option exc;
  (** [PlexServer(url, token)] *)
  PlexServer_new : str -> str -> outcome PlexServer;
  (** [account.resources()] *)
  account_resources : MyPlexAccount -> outcome (list resource)
}.

(** [x.get(key, default)] for a key that is absent or holds a value. *)
Definition get_or {A} (x : option A) (default : A) : A :=
  match x with
  | Some v => v
  | None => default
  end.

Definition no_get (msg : str) : exc := Exc AttributeError msg.

(** [load_config(config_path)] *)
Definition load_config (fe : frontend) (config_path : str) : M AIConfig :=
  match config_file fe config_path with
  | ConfigMissing =>
      print (lit "Error: Config file not found: " ++ config_path) ;;
      sys_exit 1
  | ConfigUnreadable msg => raise (Exc OSError msg)
  | ConfigNotYAML msg => raise (Exc OtherException msg)
  | ConfigHolds d =>
      ai_config <-
        match d with
        | RootNotMapping msg => raise (no_get msg)
        | NoAiKey => ret (Build_ai_mapping None None None None None)
        | AiNotMapping msg => raise (no_get msg)
        | AiMapping m => ret m
        end ;;
      let api_key :=
        if truthy (get_or (ai_api_key ai_config) [])
        then get_or (ai_api_key ai_config) []
        else get_or (OPENAI_API_KEY fe) [] in
      ret {| endpoint :=
               get_or (ai_endpoint ai_config) (lit "https://api.openai.com/v1");
             model := get_or (ai_model ai_config) (lit "gpt-4");
             system_prompt := get_or (ai_system_prompt ai_config) [];
             temperature := get_or (ai_temperature ai_config) 0;
             api_key := api_key |}
  end.

(** [connect_direct(url, token)] *)
Definition connect_direct (fe : frontend) (url token : str) : M PlexServer :=
  fun w => (PlexServer_new fe url token, w).

Definition is_KeyboardInterrupt_or_EOFError (e : exc) : bool :=
  match exc_cls e with KeyboardInterrupt | EOFError => true | _ => false end.

(** [isinstance(e, ValueError)]: of the classes of [exc_class] two derive
    from [ValueError]; the [ValueError] of [int] itself is the [None] of
    [py_int]. *)
Definition is_ValueError (e : exc) : bool :=
  match exc_cls e with
  | JSONDecodeError | UnicodeDecodeError => true
  | _ => false
  end.

(** [except (KeyboardInterrupt, EOFError): print("\nCancelled."); sys.exit(0)] *)
Definition cancelled {A} : M A :=
  print (nl ++ lit "Cancelled.") ;; sys_exit 0.

(** [while True: body]; the body answers [Some a] for [return a] and [None]
    for the next round. *)
Fixpoint while_true {A} (rounds : nat) (body : M (option A)) : M A :=
  match rounds with
  | O => raise (Exc OtherException (lit "unreachable"))
  | S n =>
      r <- body ;;
      match r with
      | Some a => ret a
      | None => while_true n body
      end
  end.

(** A [while True] whose every round reads the terminal: the terminal holds
    finitely many inputs and reading past them raises, so one round per
    input and one more are all there can be. *)
Definition loop_on_terminal {A} (body : M (option A)) : M A :=
  fun w => while_true (S (length (tty w))) body w.

(** [for line in lines: print(line)] *)
Fixpoint print_lines (lines : list str) : M unit :=
  match lines with
  | [] => ret tt
  | l :: rest => print l ;; print_lines rest
  end.

(** [enumerate(l, start)] *)
Fixpoint enumerate {A} (start : Z) (l : list A) : list (Z * A) :=
  match l with
  | [] => []
  | a :: rest => (start, a) :: enumerate (start + 1) rest
  end.

(** [l[idx]] for [0 <= idx]; out of range it raises [IndexError]. *)
Definition index_list {A} (l : list A) (idx : Z) : M A :=
  match nth_error l (Z.to_nat idx) with
  | Some a => ret a
  | None => raise (Exc IndexError (lit "list index out of range"))
  end.

(** [0 <= idx < len(l)] *)
Definition in_range {A} (idx : Z) (l : list A) : bool :=
  (0 <=? idx) && (idx <? Z.of_nat (length l)).

Definition between_1_and {A} (l : list A) : str :=
  lit "Please enter a number between 1 and " ++ of_Z (Z.of_nat (length l)).

(** One round of the loop of [select_library] (lines 199-209).  The
    [input] is inside the [try]: the [UnicodeDecodeError] of a line that is
    no text is a [ValueError] and meets the first handler. *)
Definition select_library_round (fe : frontend) (sections : list section)
  : M (option section) :=
  try_except
    (try_except
       (choice <- input (nl ++ lit "Select a library (number): ") ;;
        match py_int fe (strip choice) with
        | None => print (lit "Please enter a valid number") ;; ret None
        | Some n =>
            let idx := n - 1 in
            if in_range idx sections then
              s <- index_list sections idx ;; ret (Some s)
            else print (between_1_and sections) ;; ret None
        end)
       is_ValueError
       (fun _ => print (lit "Please enter a valid number") ;; ret None))
    is_KeyboardInterrupt_or_EOFError
    (fun _ => cancelled).

Definition library_line (entry : Z * section) : str :=
  lit "  " ++ of_Z (fst entry) ++ lit ". "
  ++ library_title (section_library (snd entry))
  ++ lit " (" ++ section_type (snd entry) ++ lit ")".

(** [select_library(plex, prompt)] *)
Definition select_library (fe : frontend) (plex : PlexServer) (prompt : str)
  : M section :=
  sections <- (fun w => (library_sections plex, w)) ;;
  match sections with
  | [] => print (lit "No library sections found on server.") ;; sys_exit 1
  | _ :: _ =>
      print (nl ++ prompt) ;;
      print (lit "Available libraries:") ;;
      print_lines (map library_line (enumerate 1 sections)) ;;
      loop_on_terminal (select_library_round fe sections)
  end.

Definition connecting_to (r : resource) : str :=
  lit "Connecting to server: " ++ resource_name r ++ lit "...".

(** [resources[idx].connect()] *)
Definition resource_connect (r : resource) : M PlexServer :=
  fun w => (connect r, w).

(** One round of the loop of [select_server] (lines 171-182).  The
    [connect] is inside the [try]: what it raises meets the same handlers
    as the input. *)
Definition select_server_round (fe : frontend) (resources : list resource)
  : M (option PlexServer) :=
  try_except
    (try_except
       (choice <- input (nl ++ lit "Select a server (number): ") ;;
        match py_int fe (strip choice) with
        | None => print (lit "Please enter a valid number") ;; ret None
        | Some n =>
            let idx := n - 1 in
            if in_range idx resources then
              r <- index_list resources idx ;;
              print (connecting_to r) ;;
              server <- resource_connect r ;;
              ret (Some server)
            else print (between_1_and resources) ;; ret None
        end)
       is_ValueError
       (fun _ => print (lit "Please enter a valid number") ;; ret None))
    is_KeyboardInterrupt_or_EOFError
    (fun _ => cancelled).

Definition server_line (entry : Z * resource) : str :=
  lit "  " ++ of_Z (fst entry) ++ lit ". " ++ resource_name (snd entry).

(** ["server" in r.provides] *)
Definition provides_server (r : resource) : bool :=
  contains (provides r) (lit "server").

(** [select_server(account, prompt)] *)
Definition select_server (fe : frontend) (account : MyPlexAccount)
  (prompt : str) : M PlexServer :=
  all <- (fun w => (account_resources fe account, w)) ;;
  let resources := filter provides_server all in
  match resources with
  | [] => print (lit "No Plex servers found on this account.") ;; sys_exit 1
  | [r] => print (connecting_to r) ;; resource_connect r
  | _ :: _ :: _ =>
      print (nl ++ prompt) ;;
      print (lit "Available servers:") ;;
      print_lines (map server_line (enumerate 1 resources)) ;;
      loop_on_terminal (select_server_round fe resources)
  end.

(** One round of the loop of [prompt_run_mode] (lines 337-354). *)
Definition prompt_run_mode_round : M (option bool) :=
  try_except
    (choice <- input (nl ++ lit "Select run mode (1 or 2): ") ;;
     let choice := strip choice in
     if str_eqb choice (lit "1") then ret (Some false)
     else if str_eqb choice (lit "2") then
       confirm <-
         input (lit "Are you sure you want to update titles? (yes/no): ") ;;
       let confirm := lower (strip confirm) in
       if str_eqb confirm (lit "yes") then ret (Some true)
       else print (lit "Operation cancelled.") ;; ret (Some false)
     else print (lit "Please enter 1 or 2") ;; ret None)
    is_KeyboardInterrupt_or_EOFError
    (fun _ => cancelled).

(** [prompt_run_mode()]: [true] for a real run, [false] for a dry run. *)
Definition prompt_run_mode : M bool :=
  print (nl ++ times (lit "-") 60) ;;
  print (lit "Run mode:") ;;
  print (lit "  1. Dry run (preview only, no changes)") ;;
  print (lit "  2. Real run (actually update titles)") ;;
  loop_on_terminal prompt_run_mode_round.

(** [OpenAI(base_url=config.endpoint, api_key=config.api_key)] *)
Definition OpenAI_new (fe : frontend) (config : AIConfig) : M unit :=
  match OpenAI_error fe (endpoint config) (api_key config) with
  | Some e => raise e
  | None => ret tt
  end.

(** Lines 414-420 of [main]: the server, directly or through the account. *)
Definition connect_to_server (fe : frontend) (sv : services) (a : arguments)
  : M PlexServer :=
  if opt_truthy (arg_url a) && opt_truthy (arg_token a) then
    print (lit "Connecting to server at " ++ get_or (arg_url a) []
           ++ lit "...") ;;
    connect_direct fe (get_or (arg_url a) []) (get_or (arg_token a) [])
  else
    account <- authenticate_myplex sv (arg_username a) (arg_password a) ;;
    select_server fe account (lit "Select server:").

(** Lines 401-434 of [main]: the statements inside the [try].  The catalog
    of the world is the content of the library that is processed. *)
Definition main_body (fe : frontend) (sv : services) (a : arguments)
  : M unit :=
  config <- load_config fe (arg_config a) ;;
  (if negb (truthy (system_prompt config)) then
     print (lit "Error: system_prompt is required in config file") ;;
     sys_exit 1
   else ret tt) ;;
  OpenAI_new fe config ;;
  server <- connect_to_server fe sv a ;;
  print (lit "Connected to: " ++ friendlyName server) ;;
  library <-
    select_library fe server
      (lit "Select library from " ++ friendlyName server ++ lit ":") ;;
  real_run <- prompt_run_mode ;;
  let dry_run := negb real_run in
  process_library_items sv (section_library library) config dry_run.

(** [main()] after the command line is parsed. *)
Definition main (fe : frontend) (sv : services) (a : arguments) : M unit :=
  main_try (main_body fe sv a).

(** A parser of plain decimal numerals, for the examples. *)
Fixpoint digits_value (s : str) (acc : Z) : option Z :=
  match s with
  | [] => Some acc
  | c :: rest =>
      if ((48 <=? c) && (c <=? 57))%N
      then digits_value rest (10 * acc + Z.of_N (c - 48))
      else None
  end.
Definition decimal_int (s : str) : option Z :=
  match s with
  | [] => None
  | _ :: _ => digits_value s 0
  end.

(** A server with two libraries, an account with that server, and a
    configuration file, for the examples. *)
Definition shows : LibrarySection := {|
  library_title := lit "Shows";
  library_locations := [lit "/media/Shows/"]
|}.

Definition home_server : PlexServer := {|
  friendlyName := lit "Home";
  library_sections :=
    Return [Section_ movies (lit "movie"); Section_ shows (lit "show")]
|}.

Definition home_resource : resource := {|
  resource_name := lit "Home";
  provides := lit "server";
  connect := Return home_server
|}.

Definition sample_mapping : ai_mapping := {|
  ai_endpoint := None;
  ai_model := None;
  ai_system_prompt := Some (lit "Return a clean title");
  ai_temperature := None;
  ai_api_key := None
|}.

Definition sample_frontend : frontend := {|
  py_int := decimal_int;
  config_file := fun _ => ConfigHolds (AiMapping sample_mapping);
  OPENAI_API_KEY := Some (lit "key");
  OpenAI_error := fun _ _ => None;
  PlexServer_new := fun _ _ => Return home_server;
  account_resources := fun _ => Return [home_resource]
|}.

Definition direct_arguments : arguments := {|
  arg_config := lit "config.yaml";
  arg_url := Some (lit "http://plex:32400");
  arg_token := Some (lit "token");
  arg_username := None;
  arg_password := None
|}.

Definition myplex_arguments : arguments := {|
  arg_config := lit "config.yaml";
  arg_url := None;
  arg_token := None;
  arg_username := Some (lit "alice");
  arg_password := Some (lit "secret")
|}.

(** [w'] follows [w]: the events added all satisfy [P], the terminal has
    only been read forward, and, when [fixed], the credential file is the
    same. *)
Definition follows (P : event -> bool) (fixed : bool) (w w' : world) : Prop :=
  (exists evs, trace w' = trace w ++ evs /\ forallb P evs = true) /\
  (exists used, tty w = used ++ tty w') /\
  (fixed = true -> creds_file w' = creds_file w).

Definition keeps (P : event -> bool) (fixed : bool) {A} (m : M A) : Prop :=
  forall w r w', m w = (r, w') -> follows P fixed w w'.

(** The user asked for a real run and confirmed it: somewhere in the input
    a line that reads [2] is followed by a line that reads [yes]. *)
Definition confirmed (typed : list tty_input) : Prop :=
  exists before l1 l2 rest,
    typed = before ++ Line l1 :: Line l2 :: rest /\
    strip l1 = lit "2" /\ lower (strip l2) = lit "yes".

(** [sys.exit(0)] as an exception. *)
Definition exit_0 : exc := Exc (SystemExit 0) [].
Definition exit_1 : exc := Exc (SystemExit 1) [].

(** What [prompt_run_mode] prints before it asks. *)
Definition run_mode_header : list event :=
  [EvPrint (nl ++ times (lit "-") 60);
   EvPrint (lit "Run mode:");
   EvPrint (lit "  1. Dry run (preview only, no changes)");
   EvPrint (lit "  2. Real run (actually update titles)")].

(** A user who types a wrong choice, then asks for a real run and confirms. *)
Definition hesitant_world : world :=
  fresh_world Missing [Line (lit "3"); Line (lit " 2 "); Line (lit "Yes")] [].

(** A computation that edits no title unless the input confirms a real
    run. *)
Definition guarded {A} (m : M A) : Prop :=
  forall w r w',
    m w = (r, w') -> follows not_edit_event false w w' \/ confirmed (tty w).

(** A direct connection, the first library, a confirmed real run. *)
Definition confirming_world : world :=
  fresh_world Missing [Line (lit "1"); Line (lit "2"); Line (lit "yes")]
    two_movies.

(** The one line [main] prints for an error. *)
Definition error_line_of (msg : str) : list event :=
  [EvPrint (lit "Error: " ++ msg)].

Definition system_prompt_required : list event :=
  [EvPrint (lit "Error: system_prompt is required in config file")].

(** A front end whose configuration file has no [ai] section. *)
Definition unconfigured_frontend : frontend := {|
  py_int := decimal_int;
  config_file := fun _ => ConfigHolds NoAiKey;
  OPENAI_API_KEY := None;
  OpenAI_error := fun _ _ => None;
  PlexServer_new := fun _ _ => Return home_server;
  account_resources := fun _ => Return [home_resource]
|}.

(** A front end whose configuration has an empty [system_prompt]. *)
Definition blank_mapping : ai_mapping := {|
  ai_endpoint := None;
  ai_model := Some (lit "gpt-4");
  ai_system_prompt := Some [];
  ai_temperature := None;
  ai_api_key := Some (lit "key")
|}.

Definition blank_prompt_frontend : frontend := {|
  py_int := decimal_int;
  config_file := fun _ => ConfigHolds (AiMapping blank_mapping);
  OPENAI_API_KEY := None;
  OpenAI_error := fun _ _ => None;
  PlexServer_new := fun _ _ => Return home_server;
  account_resources := fun _ => Return [home_resource]
|}.

(* ===================================================================== *)
(** * The pieces of the sign-in, for the statements about it *)
(* ===================================================================== *)

Definition username_key : str := lit "auth.myplex_username".
Definition password_key : str := lit "auth.myplex_password".

(** Line 131 and line 133: the two prompts. *)
Definition ask_username : M str :=
  s <- input (lit "Plex.tv username: ") ;; ret (strip s).
Definition ask_password : M str := getpass (lit "Plex.tv password: ").

(** Lines 130-133: a value that is there and not empty is taken, otherwise
    the user is asked. *)
Definition configured_or_ask (configured : option str) (ask : M str) : M str :=
  match configured with
  | Some v => if truthy v then ret v else ask
  | None => ask
  end.

(** Lines 125-128: the argument if it is not empty, else the configured
    default. *)
Definition argument_or_default (sv : services) (argument : option str)
  (key : str) : option str :=
  if opt_truthy argument then argument else CONFIG_get sv key.

(** Lines 124-133: the name and the password the sign-in will use. *)
Definition collect_credentials (sv : services) (username password : option str)
  : M (str * str) :=
  u <- configured_or_ask (argument_or_default sv username username_key)
         ask_username ;;
  p <- configured_or_ask (argument_or_default sv password password_key)
         ask_password ;;
  ret (u, p).

(** Lines 135-144: the sign-in once the name and the password are known. *)
Definition sign_in_as (sv : services) (username password : str)
  : M MyPlexAccount :=
  print (lit "Authenticating with Plex.tv as " ++ username ++ lit "...") ;;
  try_except
    (MyPlexAccount_password sv username password None)
    is_Unauthorized
    (fun e =>
       if asks_for_code e then
         code <- input (lit "2FA verification code: ") ;;
         MyPlexAccount_password sv username password (Some (strip code))
       else raise e).

(** Lines 113-122 and 146-150 around a sign-in: the cached token first, and
    the token of a fresh session saved. *)
Definition with_cached_token (sv : services) (sign_in : M MyPlexAccount)
  : M MyPlexAccount :=
  cached <- try_cached_token sv ;;
  match cached with
  | Some account => ret account
  | None =>
      account <- sign_in ;;
      save_cached_token sv (authToken account) ;;
      print (lit "Credentials cached for future use.") ;;
      ret account
  end.

(** plex.tv accepts the name [carol] only; the name is configured. *)
Definition configured_services : services := {|
  CONFIG_get := fun key =>
    if str_eqb key username_key then Some (lit "carol") else None;
  signin_token := fun _ => Return (Account (lit "cached-token"));
  signin := fun u _ _ =>
    if str_eqb u (lit "carol") then Return (Account (lit "carol-token"))
    else Raise (Exc Unauthorized (lit "(401) unauthorized"));
  creds_write_error := fun _ => None;
  creds_chmod_error := fun _ => None;
  creds_unlink_error := None;
  chat_create := fun _ _ =>
    Return (ChatResponse [Choice (Some (lit " Inception (2010) "))]);
  edit_title_error := fun _ _ => None
|}.

(** The menu [select_server] prints for the resources it offers. *)
Definition server_menu (prompt : str) (resources : list resource)
  : list event :=
  EvPrint (nl ++ prompt) :: EvPrint (lit "Available servers:")
  :: map EvPrint (map server_line (enumerate 1 resources)).

(** What a round of the server prompt may add to the trace: the prompt, a
    complaint, the notice of a cancellation, or the notice that one of the
    offered resources is being connected to. *)
Definition server_round_event (resources : list resource) (ev : event)
  : Prop :=
  ev = EvInput (nl ++ lit "Select a server (number): ") \/
  ev = EvPrint (lit "Please enter a valid number") \/
  ev = EvPrint (between_1_and resources) \/
  ev = EvPrint (nl ++ lit "Cancelled.") \/
  exists r, In r resources /\ ev = EvPrint (connecting_to r).

(** An account with a server, a player and a second server. *)
Definition den_server : PlexServer := {|
  friendlyName := lit "Den";
  library_sections := Return [Section_ shows (lit "show")]
|}.

Definition player_resource : resource := {|
  resource_name := lit "TV";
  provides := lit "client,player";
  connect := Return den_server
|}.

Definition den_resource : resource := {|
  resource_name := lit "Den";
  provides := lit "server";
  connect := Return den_server
|}.

Definition family_frontend : frontend := {|
  py_int := decimal_int;
  config_file := fun _ => ConfigHolds (AiMapping sample_mapping);
  OPENAI_API_KEY := Some (lit "key");
  OpenAI_error := fun _ _ => None;
  PlexServer_new := fun _ _ => Return home_server;
  account_resources := fun _ =>
    Return [home_resource; player_resource; den_resource]
|}.

(** A full disk: the credential file is opened, and so emptied, and the
    record cannot be written. *)
Definition full_disk_services : services := {|
  CONFIG_get := fun _ => None;
  signin_token := fun _ => Return (Account (lit "cached-token"));
  signin := fun _ _ _ => Return (Account (lit "fresh-token"));
  creds_write_error := fun _ =>
    Some (WriteFails (lit "No space left on device")
            (NotJSON (lit "Expecting value: line 1 column 1 (char 0)")));
  creds_chmod_error := fun _ => None;
  creds_unlink_error := None;
  chat_create := fun _ _ =>
    Return (ChatResponse [Choice (Some (lit " Inception (2010) "))]);
  edit_title_error := fun _ _ => None
|}.

(* ===================================================================== *)
(** * Facts about strings *)
(* ===================================================================== *)

Section StringFacts.

Lemma startswith_app (p r : str) : startswith (p ++ r) p = true.
Proof.
  induction p as [|c p IH]; simpl; [reflexivity|].
  now rewrite N.eqb_refl, IH.
Qed.

Lemma startswith_split (s p : str) :
  startswith s p = true -> s = p ++ skipn (length p) s.
Proof.
  revert s; induction p as [|c p IH]; intros s H; simpl in *.
  - reflexivity.
  - destruct s as [|d s]; [discriminate|].
    apply andb_prop in H as [Hd Hs].
    apply N.eqb_eq in Hd; subst d.
    simpl. f_equal. now apply IH.
Qed.

Lemma startswith_iff (s p : str) :
  startswith s p = true <-> exists r, s = p ++ r.
Proof.
  split.
  - intros H. eexists. now apply startswith_split.
  - intros [r ->]. apply startswith_app.
Qed.

Lemma skipn_length_app (p r : str) : skipn (length p) (p ++ r) = r.
Proof. induction p; simpl; auto. Qed.

Lemma slice_from_length_app (p r : str) :
  slice_from (p ++ r) (Z.of_nat (length p)) = r.
Proof. unfold slice_from. rewrite Nat2Z.id. apply skipn_length_app. Qed.

(** [dropwhile] removes a run of characters that satisfy the predicate and
    stops at the first one that does not. *)
Lemma dropwhile_split (p : N -> bool) (s : str) :
  exists pre,
    s = pre ++ dropwhile p s /\ Forall (fun c => p c = true) pre /\
    (forall c rest, dropwhile p s = c :: rest -> p c = false).
Proof.
  induction s as [|c s (pre & E & Hpre & Hhd)]; simpl.
  - exists []. repeat split; auto; discriminate.
  - destruct (p c) eqn:Hc.
    + exists (c :: pre). repeat split.
      * simpl. now f_equal.
      * now constructor.
      * exact Hhd.
    + exists []. repeat split; auto.
      intros c' rest [= <- _]. exact Hc.
Qed.

Lemma rstrip_with_split (p : N -> bool) (s : str) :
  exists suf,
    s = rstrip_with p s ++ suf /\ Forall (fun c => p c = true) suf /\
    (forall body c, rstrip_with p s = body ++ [c] -> p c = false).
Proof.
  unfold rstrip_with.
  destruct (dropwhile_split p (rev s)) as (pre & E & Hpre & Hhd).
  exists (rev pre). repeat split.
  - rewrite <- rev_app_distr, <- E. now rewrite rev_involutive.
  - apply Forall_rev. exact Hpre.
  - intros body c Hb.
    apply (f_equal (@rev N)) in Hb.
    rewrite rev_involutive, rev_app_distr in Hb. simpl in Hb.
    eapply Hhd. exact Hb.
Qed.

(** [location.rstrip(os.sep)] takes the trailing separators off, and only
    those. *)
Lemma rstrip_sep_split (location : str) :
  exists k,
    location = rstrip location [sep] ++ repeat sep k /\
    (forall body c, rstrip location [sep] = body ++ [c] -> c <> sep).
Proof.
  unfold rstrip.
  destruct (rstrip_with_split (fun c => existsb (N.eqb c) [sep]) location)
    as (suf & E & Hsuf & Hlast).
  exists (length suf). split.
  - rewrite E at 1. f_equal.
    clear E. induction Hsuf as [|c suf Hc _ IH]; simpl; [reflexivity|].
    simpl in Hc. rewrite orb_false_r in Hc. apply N.eqb_eq in Hc.
    subst c. now rewrite <- IH.
  - intros body c Hb Hc. apply Hlast in Hb. subst c.
    cbv in Hb. discriminate.
Qed.

Lemma rfind_from_spec (c : N) (s : str) : forall i found,
  (~ In c s /\ rfind_from i s c found = found) \/
  (exists a b, s = a ++ c :: b /\ ~ In c b /\
               rfind_from i s c found = i + Z.of_nat (length a)).
Proof.
  induction s as [|d s IH]; intros i found; simpl.
  - left. split; auto.
  - destruct (IH (i + 1) (if N.eqb d c then i else found))
      as [[Hn E] | (a & b & E & Hb & R)].
    + destruct (N.eqb_spec d c) as [->|Hne].
      * right. exists [], s. simpl. repeat split; auto. rewrite E. lia.
      * left. split; [|exact E]. intros [H|H]; [now apply Hne | now apply Hn].
    + right. exists (d :: a), b. repeat split.
      * simpl. now f_equal.
      * exact Hb.
      * rewrite R. simpl length. lia.
Qed.

(** [basename] is the part of the path after its last separator: the whole
    path when it has none. *)
Lemma basename_split (p : str) :
  exists dir,
    p = dir ++ basename p /\ ~ In sep (basename p) /\
    (dir = [] \/ exists d, dir = d ++ [sep]).
Proof.
  unfold basename, rfind.
  destruct (rfind_from_spec sep p 0 (-1)) as [[Hn E] | (a & b & E & Hb & R)].
  - rewrite E. exists []. simpl. repeat split; auto.
  - rewrite R. exists (a ++ [sep]).
    replace (0 + Z.of_nat (length a) + 1)
      with (Z.of_nat (length (a ++ [sep])))
      by (rewrite length_app; simpl; lia).
    assert (Ep : p = (a ++ [sep]) ++ b) by (rewrite <- app_assoc; exact E).
    rewrite Ep at 2 3. rewrite slice_from_length_app.
    repeat split; auto. right. now exists a.
Qed.

End StringFacts.

(* ===================================================================== *)
(** * PathResolver *)
(* ===================================================================== *)

Section PathResolver.

Lemma leading_sep_startswith (p r : str) :
  leading_sep r = startswith (p ++ r) (p ++ [sep]).
Proof.
  induction p as [|c p IH]; simpl.
  - destruct r as [|d r]; simpl; [reflexivity|]. now rewrite andb_true_r.
  - now rewrite N.eqb_refl.
Qed.

Lemma trailing_sep_false (s : str) :
  (forall body c, s = body ++ [c] -> c <> sep) -> trailing_sep s = false.
Proof.
  intros H. unfold trailing_sep.
  destruct (rev s) as [|c r] eqn:E; [reflexivity|].
  simpl. apply N.eqb_neq. apply (H (rev r)).
  rewrite <- (rev_involutive s), E. reflexivity.
Qed.

Lemma has_sep_false (s : str) : ~ In sep s -> has_sep s = false.
Proof.
  intros H. unfold has_sep.
  destruct (existsb (N.eqb sep) s) eqn:E; [|reflexivity].
  apply existsb_exists in E as (c & Hin & Hc).
  apply N.eqb_eq in Hc. subst c. contradiction.
Qed.

Lemma trailing_sep_snoc (d : str) : trailing_sep (d ++ [sep]) = true.
Proof. unfold trailing_sep. now rewrite rev_app_distr. Qed.

Example get_relative_path_scenario_C :
  get_relative_path (lit "/media/Movies/Inception (2010)/Inception.mkv")
                    [lit "/media/Movies/"]
  = lit "Inception (2010)/Inception.mkv".
Proof. reflexivity. Qed.

Example get_relative_path_fallback :
  get_relative_path (lit "/srv/other/a.mkv") [lit "/media/Movies/"]
  = lit "a.mkv".
Proof. reflexivity. Qed.

(** Order decides, not length: the first location wins although the second
    is the longer prefix. *)
Example get_relative_path_positional :
  get_relative_path (lit "/media/Movies/a.mkv")
                    [lit "/media"; lit "/media/Movies"]
  = lit "Movies/a.mkv".
Proof. reflexivity. Qed.

(** C6, as stated, fails: a matching location does not keep the remainder
    from beginning with a separator.  With the path [/media//x.mkv] under
    the location [/media] the result is [/x.mkv]. *)
Lemma get_relative_path_leading_sep_counterexample :
  ~ (forall filepath locations location,
       In location locations ->
       startswith filepath (location_prefix location) = true ->
       leading_sep (get_relative_path filepath locations) = false).
Proof.
  intros H.
  specialize (H (lit "/media//x.mkv") [lit "/media"] (lit "/media")
                (or_introl eq_refl) eq_refl).
  vm_compute in H. discriminate.
Qed.

(** C6 (amended).  For every path and every ordered list of locations,
    [get_relative_path] either finds a first location (none before it in the
    list matches) whose normalisation, the location with its trailing
    separators stripped and one separator appended, is a literal prefix of
    the path, and returns exactly what follows that prefix, which begins
    with a separator precisely when the path has a further separator right
    after the prefix; or no location matches and it returns the basename:
    the separator-free part after the last separator of the path. *)
Theorem get_relative_path_first_match (filepath : str) (locations : list str) :
  (exists pre location post k,
      locations = pre ++ location :: post /\
      Forall (not_under filepath) pre /\
      location = rstrip location [sep] ++ repeat sep k /\
      trailing_sep (rstrip location [sep]) = false /\
      location_prefix location = rstrip location [sep] ++ [sep] /\
      filepath
      = location_prefix location ++ get_relative_path filepath locations /\
      leading_sep (get_relative_path filepath locations)
      = startswith filepath (location_prefix location ++ [sep]))
  \/
  (Forall (not_under filepath) locations /\
   get_relative_path filepath locations = basename filepath /\
   has_sep (basename filepath) = false /\
   exists dir,
     filepath = dir ++ basename filepath /\
     (dir = [] \/ trailing_sep dir = true)).
Proof.
  induction locations as [|location rest IH].
  - right. simpl. split; [constructor|]. split; [reflexivity|].
    destruct (basename_split filepath) as (dir & E & Hn & Hd).
    split; [now apply has_sep_false|].
    exists dir. split; [exact E|].
    destruct Hd as [->|[d ->]]; [now left | right; apply trailing_sep_snoc].
  - simpl. destruct (startswith filepath (location_prefix location)) eqn:Hm.
    + left.
      destruct (rstrip_sep_split location) as (k & Hk & Hlast).
      exists [], location, rest, k. simpl.
      apply startswith_split in Hm.
      repeat split; auto.
      * now apply trailing_sep_false.
      * unfold slice_from. rewrite Nat2Z.id. exact Hm.
      * unfold slice_from. rewrite Nat2Z.id.
        rewrite Hm at 2. apply leading_sep_startswith.
    + destruct IH as [(pre & loc & post & k & E & Hpre & H) | (Hall & H)].
      * left. exists (location :: pre), loc, post, k.
        split; [simpl; now f_equal|].
        split; [constructor; assumption|]. exact H.
      * right. split; [constructor; assumption|]. exact H.
Qed.

End PathResolver.

(* ===================================================================== *)
(** * The monad *)
(* ===================================================================== *)

Section MonadFacts.

Lemma after_nil (w : world) : after w [] = w.
Proof. destruct w. unfold after. simpl. now rewrite app_nil_r. Qed.

Lemma after_after (w : world) (a b : list event) :
  after (after w a) b = after w (a ++ b).
Proof. unfold after. simpl. now rewrite app_assoc. Qed.

Lemma log_run (ev : event) (w : world) : log ev w = (Return tt, after w [ev]).
Proof. reflexivity. Qed.

Lemma print_run (line : str) (w : world) :
  print line w = (Return tt, after w [EvPrint line]).
Proof. reflexivity. Qed.

Lemma extends_ret {A} (a : A) : extends_trace (ret a).
Proof. intros w r w' [= <- <-]. exists []. now rewrite app_nil_r. Qed.

Lemma extends_raise {A} (e : exc) : extends_trace (@raise A e).
Proof. intros w r w' [= <- <-]. exists []. now rewrite app_nil_r. Qed.

Lemma extends_pure {A} (f : world -> outcome A) :
  extends_trace (fun w => (f w, w)).
Proof. intros w r w' [= <- <-]. exists []. now rewrite app_nil_r. Qed.

Lemma extends_log (ev : event) : extends_trace (log ev).
Proof. intros w r w' [= <- <-]. now exists [ev]. Qed.

Lemma extends_bind {A B} (m : M A) (k : A -> M B) :
  extends_trace m -> (forall a, extends_trace (k a)) ->
  extends_trace (bind m k).
Proof.
  intros Hm Hk w r w' H. unfold bind in H.
  destruct (m w) as [[a|e] w1] eqn:E.
  - destruct (Hm _ _ _ E) as [e1 H1], (Hk a _ _ _ H) as [e2 H2].
    exists (e1 ++ e2). now rewrite H2, H1, app_assoc.
  - injection H as <- <-. eapply Hm. exact E.
Qed.

Lemma extends_try_except {A} (body : M A) catches (handler : exc -> M A) :
  extends_trace body -> (forall e, extends_trace (handler e)) ->
  extends_trace (try_except body catches handler).
Proof.
  intros Hb Hh w r w' H. unfold try_except in H.
  destruct (body w) as [[a|e] w1] eqn:E.
  - injection H as <- <-. eapply Hb. exact E.
  - destruct (catches e).
    + destruct (Hb _ _ _ E) as [e1 H1], (Hh e _ _ _ H) as [e2 H2].
      exists (e1 ++ e2). now rewrite H2, H1, app_assoc.
    + injection H as <- <-. eapply Hb. exact E.
Qed.

Lemma extends_read_tty : extends_trace read_tty.
Proof.
  intros w r w' H. unfold read_tty in H. exists [].
  rewrite app_nil_r.
  destruct (tty w) as [|[s| | |msg] rest]; injection H as <- <-; reflexivity.
Qed.

Lemma extends_set_creds_file (c : creds_state) :
  extends_trace (set_creds_file c).
Proof. intros w r w' [= <- <-]. exists []. simpl. now rewrite app_nil_r. Qed.

Lemma extends_set_catalog (c : list item) : extends_trace (set_catalog c).
Proof. intros w r w' [= <- <-]. exists []. simpl. now rewrite app_nil_r. Qed.

Lemma extends_input (prompt : str) : extends_trace (input prompt).
Proof.
  apply extends_bind; [apply extends_log | intros; apply extends_read_tty].
Qed.

Lemma extends_getpass (prompt : str) : extends_trace (getpass prompt).
Proof.
  apply extends_bind; [apply extends_log | intros; apply extends_read_tty].
Qed.

End MonadFacts.

Create HintDb extends discriminated.
#[export] Hint Resolve extends_ret extends_raise extends_log extends_read_tty
  extends_set_creds_file extends_set_catalog extends_input extends_getpass
  : extends.

Ltac extends_step :=
  first
    [ apply extends_bind; [|intros ?]
    | apply extends_try_except; [|intros ?]
    | apply extends_pure
    | solve [auto with extends] ].

(* ===================================================================== *)
(** * CredentialStore *)
(* ===================================================================== *)

Section CredentialStore.

(** What [load_cached_token] does for every state of the file. *)
Lemma load_cached_token_run (w : world) :
  load_cached_token w =
  (match creds_file w with
   | Missing | Unreadable _ | Holds (NotJSON _) => Return JNull
   | Holds (NotText msg) => Raise (Exc UnicodeDecodeError msg)
   | Holds (Doc (JObj d)) => Return (dict_get d auth_token_key)
   | Holds (Doc _) =>
       Raise (Exc AttributeError (lit "object has no attribute 'get'"))
   end,
   after w [EvLoadCachedToken]).
Proof.
  destruct w as [c t cat n tr].
  destruct c as [|msg|[msg|msg|[ |b|z|s|l|d]]]; reflexivity.
Qed.

(** The states of the file the [except] clause covers: a missing file, a
    file that cannot be opened or read, and text that is not JSON. *)
Lemma load_cached_token_handled (w : world) :
  match creds_file w with
  | Missing | Unreadable _ | Holds (NotJSON _) =>
      fst (load_cached_token w) = Return JNull
  | _ => True
  end.
Proof.
  rewrite load_cached_token_run.
  destruct (creds_file w) as [|msg|[msg|msg|v]]; simpl; auto.
Qed.

(** C4 fails on the code: a credential file that holds well-formed JSON
    which is not an object, here the empty array, makes
    [load_cached_token] raise [AttributeError] to its caller. *)
Theorem load_cached_token_non_object_raises
  (typed : list tty_input) (items : list item) (n : nat) (tr : list event) :
  fst (load_cached_token (World (Holds (Doc (JArr []))) typed items n tr))
  = Raise (Exc AttributeError (lit "object has no attribute 'get'")).
Proof. reflexivity. Qed.

(** A record whose ["auth_token"] is not a string is handed to the caller
    as it is. *)
Example load_cached_token_non_string :
  fst (load_cached_token
         (fresh_world (Holds (Doc (JObj [(auth_token_key, JInt 42)]))) [] []))
  = Return (JInt 42).
Proof. reflexivity. Qed.

Lemma save_cached_token_run (sv : services) (token : str) (w : world) :
  exists fx,
    save_cached_token sv token w
    = (Return tt,
       World (match creds_write_error sv token with
              | None => token_record token
              | Some (OpenFails _) => creds_file w
              | Some (WriteFails _ remains) => Holds remains
              end)
             (tty w) (catalog w) (llm_calls w)
             (trace w ++ EvSaveCachedToken token :: fx)).
Proof.
  destruct w as [c t cat n tr].
  unfold save_cached_token, bind, try_except, log; simpl.
  destruct (creds_write_error sv token) as [[msg|msg remains]|]; simpl.
  - eexists. unfold print, log. simpl. rewrite <- app_assoc. reflexivity.
  - eexists. unfold print, log. simpl. rewrite <- app_assoc. reflexivity.
  - destruct (creds_chmod_error sv token) as [msg|]; simpl.
    + eexists. unfold print, log. simpl. rewrite <- app_assoc. reflexivity.
    + eexists. rewrite <- app_assoc. reflexivity.
Qed.

Lemma extends_load_cached_token : extends_trace load_cached_token.
Proof.
  intros w r w' H. rewrite load_cached_token_run in H.
  injection H as _ <-. now exists [EvLoadCachedToken].
Qed.

Lemma extends_clear_cached_token (sv : services) :
  extends_trace (clear_cached_token sv).
Proof.
  unfold clear_cached_token. repeat extends_step.
  destruct (creds_unlink_error sv); auto with extends.
Qed.

End CredentialStore.

(* ===================================================================== *)
(** * AuthenticationFlow *)
(* ===================================================================== *)

Section AuthenticationFlow.

Variable sv : services.

(** The cached token led to a session: nothing but the load and the notice
    happened, and the credential file is as it was. *)
Lemma try_cached_token_some (w w' : world) (account : MyPlexAccount) :
  try_cached_token sv w = (Return (Some account), w') ->
  w' = after w using_cached /\
  exists token,
    fst (load_cached_token w) = Return token /\
    json_truthy token = true /\
    signin_token sv token = Return account.
Proof.
  unfold try_cached_token, bind. rewrite load_cached_token_run.
  set (r := match creds_file w with Missing => _ | _ => _ end).
  destruct r as [token|e]; [|discriminate].
  destruct (json_truthy token) eqn:Ht.
  - unfold try_except, bind, MyPlexAccount_token. rewrite print_run.
    destruct (signin_token sv token) as [a|e] eqn:Hs.
    + unfold ret. intros [= <- <-]. rewrite after_after. split; [reflexivity|].
      exists token. simpl. auto.
    + destruct (is_Unauthorized e); [|discriminate].
      rewrite print_run. unfold bind.
      destruct (clear_cached_token sv _) as [[[]|e'] w1]; discriminate.
  - discriminate.
Qed.

Lemma extends_try_cached_token : extends_trace (try_cached_token sv).
Proof.
  unfold try_cached_token.
  apply extends_bind; [apply extends_load_cached_token|intros token].
  destruct (json_truthy token); [|auto with extends].
  apply extends_try_except.
  - unfold print, MyPlexAccount_token. repeat extends_step.
  - intros e. unfold print.
    apply extends_bind; [auto with extends|intros _].
    apply extends_bind; [apply extends_clear_cached_token|intros _].
    auto with extends.
Qed.

Lemma extends_password_sign_in (username password : option str) :
  extends_trace (password_sign_in sv username password).
Proof.
  unfold password_sign_in, print, MyPlexAccount_password.
  apply extends_bind.
  { destruct (if negb (opt_truthy username) then _ else _) as [u|];
      [destruct (negb (truthy u))|]; repeat extends_step. }
  intros u. apply extends_bind.
  { destruct (if negb (opt_truthy password) then _ else _) as [p|];
      [destruct (negb (truthy p))|]; repeat extends_step. }
  intros p. apply extends_bind; [auto with extends|intros _].
  apply extends_try_except; [apply extends_pure|intros e].
  destruct (asks_for_code e); repeat extends_step.
Qed.

(** C1, as stated, fails: when the cached token is accepted the session is
    returned and [save_cached_token] is not called. *)
Lemma authenticate_myplex_cached_no_save_counterexample :
  ~ (forall (sv : services) username password w account w',
       authenticate_myplex sv username password w = (Return account, w') ->
       exists evs,
         trace w' = trace w ++ evs /\
         In (EvSaveCachedToken (authToken account)) evs).
Proof.
  intros H.
  destruct (H helpful_services None None
              (fresh_world (token_record (lit "cached-token")) [] [])
              _ _ eq_refl) as (evs & E & Hin).
  simpl in E. subst evs.
  destruct Hin as [Hin|[Hin|[]]]; discriminate.
Qed.

(** C1 (amended).  Every execution of [authenticate_myplex] that returns a
    session does so in one of two ways.  Either the cached token was
    accepted: then only the load and the notice happened, no save was
    called.  Or the session comes from the username and password (with or
    without the verification code): then [save_cached_token] was called
    with the token of the returned session before the return, the last
    thing printed is the notice that the credentials are cached, and the
    file holds that token unless the write failed. *)
Theorem authenticate_myplex_saves_fresh_token
  (username password : option str) (w w' : world) (account : MyPlexAccount) :
  authenticate_myplex sv username password w = (Return account, w') ->
  via_cached_token sv w w' account \/ via_password sv w w' account.
Proof.
  unfold authenticate_myplex, bind, via_cached_token, via_password.
  destruct (try_cached_token sv w) as [[[a|]|e] w1] eqn:Hc; [| |discriminate].
  - unfold ret. intros [= <- <-]. left.
    apply try_cached_token_some in Hc as [-> _]. auto.
  - destruct (password_sign_in sv username password w1) as [[a|e] w2] eqn:Hp;
      [|discriminate].
    destruct (save_cached_token_run sv (authToken a) w2) as [fx Hs].
    rewrite Hs, print_run. unfold ret. intros [= <- <-]. right.
    split; [reflexivity|].
    destruct (extends_try_cached_token _ _ _ Hc) as [e1 H1].
    destruct (extends_password_sign_in _ _ _ _ _ Hp) as [e2 H2].
    split.
    + exists (e1 ++ e2), fx. simpl. rewrite H2, H1.
      repeat rewrite <- app_assoc. reflexivity.
    + simpl. destruct (creds_write_error sv (authToken a)); auto.
Qed.

End AuthenticationFlow.

(** A first run with a typed name and password returns the fresh session
    and has saved its token. *)
Lemma authenticate_myplex_saves_fresh_token_witness :
  authenticate_myplex helpful_services None None first_run_world
  = (Return (Account (lit "fresh-token")),
     snd (authenticate_myplex helpful_services None None first_run_world)) /\
  (via_cached_token helpful_services first_run_world
     (snd (authenticate_myplex helpful_services None None first_run_world))
     (Account (lit "fresh-token"))
   \/
   via_password helpful_services first_run_world
     (snd (authenticate_myplex helpful_services None None first_run_world))
     (Account (lit "fresh-token"))).
Proof.
  split; [reflexivity|].
  apply (authenticate_myplex_saves_fresh_token helpful_services None None).
  reflexivity.
Defined.

Section Cancellation.

(** The statements of [main] that follow the authentication. *)
Variable rest_of_main : MyPlexAccount -> M unit.

(** C2 fails on the code.  End of input at the username prompt is an
    [EOFError], which the [except Exception] of [main] turns into the line
    [Error: ...] and exit status 1; an interrupt at the same prompt is a
    [KeyboardInterrupt], which no handler catches, so it leaves [main] and
    the interpreter prints its traceback; end of input at the prompt for
    the verification code takes the error path as well.  None is the clean
    cancellation of the other prompts of the program. *)
Theorem prompt_cancellation_not_clean :
  run_process (main_from_authentication rest_of_main helpful_services
                 None None)
              (fresh_world Missing [EndOfInput] [])
  = (ExitStatus 1,
     after (fresh_world Missing [] [])
       [EvLoadCachedToken;
        EvInput (lit "Plex.tv username: ");
        EvPrint (lit "Error: EOF when reading a line")])
  /\
  run_process (main_from_authentication rest_of_main helpful_services
                 None None)
              (fresh_world Missing [Interrupt] [])
  = (UncaughtTraceback (Exc KeyboardInterrupt []),
     after (fresh_world Missing [] [])
       [EvLoadCachedToken; EvInput (lit "Plex.tv username: ")])
  /\
  run_process (main_from_authentication rest_of_main two_factor_services
                 (Some (lit "alice")) (Some (lit "secret")))
              (fresh_world Missing [EndOfInput] [])
  = (ExitStatus 1,
     after (fresh_world Missing [] [])
       [EvLoadCachedToken;
        EvPrint (lit "Authenticating with Plex.tv as alice...");
        EvInput (lit "2FA verification code: ");
        EvPrint (lit "Error: EOF when reading a line")]).
Proof. repeat split; reflexivity. Qed.

(** With the code typed in, the same account signs in. *)
Example two_factor_sign_in :
  fst (authenticate_myplex two_factor_services
         (Some (lit "alice")) (Some (lit "secret"))
         (fresh_world Missing [Line (lit "123456")] []))
  = Return (Account (lit "fresh-token")).
Proof. reflexivity. Qed.

End Cancellation.

Section EmptyCredentials.

Variable sv : services.

(** [password_sign_in] in its pieces: the name and the password are each
    the argument if not empty, else the configured default if not empty,
    else what the user types; then the sign-in with them. *)
Lemma password_sign_in_resolved (username password : option str) :
  password_sign_in sv username password
  = (u <- configured_or_ask (argument_or_default sv username username_key)
            ask_username ;;
     p <- configured_or_ask (argument_or_default sv password password_key)
            ask_password ;;
     sign_in_as sv u p).
Proof.
  unfold password_sign_in, argument_or_default, configured_or_ask,
    ask_username, ask_password, sign_in_as, username_key, password_key.
  destruct (opt_truthy username), (opt_truthy password); simpl negb;
    cbv iota.
  - destruct username as [u|], password as [p|];
      try destruct (truthy u); try destruct (truthy p); reflexivity.
  - destruct username as [u|],
      (CONFIG_get sv (lit "auth.myplex_password")) as [p|];
      try destruct (truthy u); try destruct (truthy p); reflexivity.
  - destruct (CONFIG_get sv (lit "auth.myplex_username")) as [u|],
      password as [p|];
      try destruct (truthy u); try destruct (truthy p); reflexivity.
  - destruct (CONFIG_get sv (lit "auth.myplex_username")) as [u|],
      (CONFIG_get sv (lit "auth.myplex_password")) as [p|];
      try destruct (truthy u); try destruct (truthy p); reflexivity.
Qed.

(** C10.  An empty string given as the username, or as the password, is
    treated exactly as an absent one, and neither is used to sign in.  With
    an empty username the flow is: the cached token first; failing that,
    the name is the configured default if there is a non-empty one, and
    otherwise what the user types at the username prompt; the password is
    found the same way from its argument, its default and its prompt; and
    the sign-in is made with that name and that password.  Likewise with an
    empty password. *)
Theorem authenticate_myplex_empty_is_absent
  (username password : option str) :
  authenticate_myplex sv (Some []) password
  = authenticate_myplex sv None password
  /\
  authenticate_myplex sv username (Some [])
  = authenticate_myplex sv username None
  /\
  authenticate_myplex sv (Some []) password
  = with_cached_token sv
      (u <- configured_or_ask (CONFIG_get sv username_key) ask_username ;;
       p <- configured_or_ask (argument_or_default sv password password_key)
              ask_password ;;
       sign_in_as sv u p)
  /\
  authenticate_myplex sv username (Some [])
  = with_cached_token sv
      (u <- configured_or_ask (argument_or_default sv username username_key)
              ask_username ;;
       p <- configured_or_ask (CONFIG_get sv password_key) ask_password ;;
       sign_in_as sv u p).
Proof.
  split; [reflexivity|]. split; [reflexivity|].
  unfold authenticate_myplex, with_cached_token.
  rewrite !password_sign_in_resolved. split; reflexivity.
Qed.

(** With no configured default either, the empty username leads to the
    prompt, and the sign-in uses what the user typed. *)
Example empty_username_is_prompted :
  authenticate_myplex helpful_services (Some []) (Some (lit "secret"))
    (fresh_world Missing [Line (lit " alice ")] [])
  = (Return (Account (lit "fresh-token")),
     World (token_record (lit "fresh-token")) [] [] 0
       [EvLoadCachedToken;
        EvInput (lit "Plex.tv username: ");
        EvPrint (lit "Authenticating with Plex.tv as alice...");
        EvSaveCachedToken (lit "fresh-token");
        EvChmod 384;
        EvPrint (lit "Credentials cached for future use.")]).
Proof. reflexivity. Qed.

(** With a configured default the empty username is replaced by it: the
    sign-in is made as [carol], which plex.tv accepts, and nothing is
    asked. *)
Example empty_username_takes_the_default :
  authenticate_myplex configured_services (Some []) (Some (lit "secret"))
    (fresh_world Missing [] [])
  = (Return (Account (lit "carol-token")),
     World (token_record (lit "carol-token")) [] [] 0
       [EvLoadCachedToken;
        EvPrint (lit "Authenticating with Plex.tv as carol...");
        EvSaveCachedToken (lit "carol-token");
        EvChmod 384;
        EvPrint (lit "Credentials cached for future use.")]).
Proof. reflexivity. Qed.

End EmptyCredentials.

(* ===================================================================== *)
(** * TitleGenerator *)
(* ===================================================================== *)

Section TitleGenerator.

Lemma forallb_of_Forall (p : N -> bool) (s : str) :
  Forall (fun c => p c = true) s -> forallb p s = true.
Proof. intros H. apply forallb_forall. now apply Forall_forall. Qed.

(** [strip] takes whitespace off both ends and nothing else, and what is
    left neither begins nor ends with whitespace. *)
Lemma strip_split (s : str) :
  exists pre suf,
    s = pre ++ strip s ++ suf /\
    forallb isspace pre = true /\ forallb isspace suf = true /\
    leading_space (strip s) = false /\ trailing_space (strip s) = false.
Proof.
  unfold strip, strip_with, lstrip_with.
  destruct (dropwhile_split isspace s) as (pre & E & Hpre & Hhd).
  destruct (rstrip_with_split isspace (dropwhile isspace s))
    as (suf & E' & Hsuf & Hlast).
  set (t := rstrip_with isspace (dropwhile isspace s)) in *.
  exists pre, suf. repeat split.
  - now rewrite <- E', <- E.
  - now apply forallb_of_Forall.
  - now apply forallb_of_Forall.
  - destruct t as [|c r] eqn:Et; [reflexivity|].
    simpl. apply (Hhd c (r ++ suf)). rewrite E'. reflexivity.
  - unfold trailing_space. destruct (rev t) as [|c r] eqn:Er; [reflexivity|].
    simpl. apply (Hlast (rev r)).
    rewrite <- (rev_involutive t), Er. reflexivity.
Qed.

Example strip_example : strip (lit "  The Matrix ") = lit "The Matrix".
Proof. reflexivity. Qed.

(** [generate_title] sends one request and leaves everything else alone. *)
Lemma generate_title_world sv config filename (w : world) :
  snd (generate_title sv config filename w)
  = bump w 1 [EvChatCreate (title_request config filename)].
Proof.
  unfold generate_title, bind, chat_completions_create, bump, title_request.
  rewrite Nat.add_1_r.
  destruct (chat_create sv (llm_calls w) _) as [resp|e]; [|reflexivity].
  destruct (choices resp) as [|c l]; [reflexivity|].
  destruct (message_content c); reflexivity.
Qed.

Lemma generate_title_result sv config filename (w : world) :
  fst (generate_title sv config filename w)
  = match chat_create sv (llm_calls w) (title_request config filename) with
    | Raise e => Raise e
    | Return resp =>
        match choices resp with
        | [] => Raise (Exc IndexError (lit "list index out of range"))
        | c :: _ =>
            match message_content c with
            | None =>
                Raise (Exc AttributeError
                         (lit "'NoneType' object has no attribute 'strip'"))
            | Some content => Return (strip content)
            end
        end
    end.
Proof.
  unfold generate_title, bind, chat_completions_create, title_request.
  destruct (chat_create sv (llm_calls w) _) as [resp|e]; [|reflexivity].
  destruct (choices resp) as [|c l]; [reflexivity|].
  destruct (message_content c); reflexivity.
Qed.

(** C8, as stated, fails: an empty completion is not a failure.  The
    completion [""] is returned as the title [""]. *)
Lemma generate_title_empty_completion_counterexample :
  ~ (forall sv config filename w resp c more,
       chat_create sv (llm_calls w) (title_request config filename)
       = Return resp ->
       choices resp = c :: more ->
       message_content c = Some [] ->
       exists e, fst (generate_title sv config filename w) = Raise e).
Proof.
  intros H.
  destruct (H silent_services sample_config (lit "a.mkv")
              (fresh_world Missing [] []) _ _ _ eq_refl eq_refl eq_refl)
    as [e He].
  discriminate He.
Qed.

(** C8 (amended).  [generate_title] sends exactly one request.  If the
    service raises (a transport error, a response that is not 2xx), the
    same exception reaches the caller; a response without choices or whose
    first choice has no text raises as well.  Otherwise the text of the
    first choice is returned with the whitespace at both ends removed and
    nothing else changed; the result may be empty, an empty or blank
    completion is returned as the empty string. *)
Theorem generate_title_strips_or_raises sv config filename (w : world) :
  snd (generate_title sv config filename w)
  = bump w 1 [EvChatCreate (title_request config filename)]
  /\
  match chat_create sv (llm_calls w) (title_request config filename) with
  | Raise e => fst (generate_title sv config filename w) = Raise e
  | Return resp =>
      match choices resp with
      | [] =>
          exists e, fst (generate_title sv config filename w) = Raise e /\
                    exc_cls e = IndexError
      | c :: _ =>
          match message_content c with
          | None =>
              exists e, fst (generate_title sv config filename w) = Raise e /\
                        exc_cls e = AttributeError
          | Some content =>
              exists title pre suf,
                fst (generate_title sv config filename w) = Return title /\
                content = pre ++ title ++ suf /\
                forallb isspace pre = true /\ forallb isspace suf = true /\
                leading_space title = false /\ trailing_space title = false
          end
      end
  end.
Proof.
  split; [apply generate_title_world|].
  rewrite generate_title_result.
  destruct (chat_create sv (llm_calls w) _) as [resp|e]; [|reflexivity].
  destruct (choices resp) as [|c l].
  - eexists. split; reflexivity.
  - destruct (message_content c) as [content|].
    + destruct (strip_split content) as (pre & suf & H).
      exists (strip content), pre, suf. split; [reflexivity|exact H].
    + eexists. split; reflexivity.
Qed.

End TitleGenerator.

(* ===================================================================== *)
(** * BatchProcessor *)
(* ===================================================================== *)

Section BatchStep.

Variables (sv : services) (config : AIConfig) (dry_run : bool)
          (locations : list str).

Lemma process_item_no_file index it c (w : world) :
  get_item_filepaths it = [] ->
  process_item sv config dry_run locations index it c w
  = (Return (incr_skipped_no_file c), w).
Proof. intros H. unfold process_item. now rewrite H. Qed.

Lemma process_item_locked index it c (w : world) filepath more :
  get_item_filepaths it = filepath :: more ->
  is_title_locked it = true ->
  process_item sv config dry_run locations index it c w
  = (Return (incr_skipped_locked c),
     after w [EvPrint (lit "SKIP (locked): " ++ item_title it)]).
Proof. intros H L. unfold process_item. now rewrite H, L. Qed.

Lemma process_item_eligible index it c (w : world) filepath more :
  get_item_filepaths it = filepath :: more ->
  is_title_locked it = false ->
  process_item sv config dry_run locations index it c w
  = try_except
      (generate_and_apply sv config dry_run index
         (get_relative_path filepath locations) (item_title it) c)
      is_Exception
      (fun e => print (lit "ERROR: " ++ item_title it ++ lit ": " ++ exc_msg e)
                ;; ret (incr_errors c)) w.
Proof. intros H L. unfold process_item. now rewrite H, L. Qed.

(** The statements inside the [try] either count the item as processed or
    raise; what they raise is an [Exception] of the program's own
    ([IndexError], [AttributeError]) or comes from a collaborator. *)
Lemma generate_and_apply_cases index rel cur c (w : world) :
  (exists w',
      generate_and_apply sv config dry_run index rel cur c w
      = (Return (incr_processed c), w'))
  \/
  (exists e w',
      generate_and_apply sv config dry_run index rel cur c w = (Raise e, w') /\
      (is_Exception e = true \/
       (exists n req, chat_create sv n req = Raise e) \/
       (exists i t, edit_title_error sv i t = Some e))).
Proof.
  unfold generate_and_apply, bind.
  pose proof (generate_title_result sv config rel w) as Hr.
  destruct (generate_title sv config rel w) as [[t|e] w1]; simpl in Hr.
  - destruct dry_run.
    + left. eexists. reflexivity.
    + unfold editTitle, bind, print, log. simpl.
      destruct (edit_title_error sv index t) as [e|] eqn:He.
      * right. exists e. eexists. split; [reflexivity|].
        right. right. now exists index, t.
      * left. eexists. reflexivity.
  - right. exists e, w1. split; [reflexivity|].
    destruct (chat_create sv (llm_calls w) _) as [resp|e'] eqn:Hc.
    + destruct (choices resp) as [|ch l].
      * injection Hr as ->. now left.
      * destruct (message_content ch); [discriminate|].
        injection Hr as ->. now left.
    + injection Hr as ->. right. left. eauto.
Qed.





End BatchStep.

Section BatchCounters.

Lemma events_since_bump (w : world) (k : nat) (evs : list event) :
  events_since w (bump w k evs) = evs.
Proof.
  unfold events_since, bump. simpl.
  induction (trace w); simpl; auto.
Qed.

Lemma events_since_after (w : world) (evs : list event) :
  events_since w (after w evs) = evs.
Proof.
  unfold events_since, after. simpl.
  induction (trace w); simpl; auto.
Qed.

Lemma events_since_refl (w : world) : events_since w w = [].
Proof. unfold events_since. apply skipn_all. Qed.

Lemma scan_library_run sv library config dry_run (w : world) :
  scan_library sv library config dry_run w
  = process_items sv config dry_run (library_locations library) 0
      (catalog w) counters_zero (header_world library w).
Proof. reflexivity. Qed.

(** C3, as stated, fails: a locked item without a file is counted as
    [skipped_no_file], not as [skipped_locked]. *)
Lemma locked_item_without_file_counterexample :
  ~ (forall sv config dry_run locations index it c w c' w',
       is_title_locked it = true ->
       process_item sv config dry_run locations index it c w
       = (Return c', w') ->
       skipped_locked c' = skipped_locked c + 1).
Proof.
  intros H.
  specialize (H helpful_services sample_config true [] 0%nat
                locked_without_file counters_zero
                (fresh_world Missing [] []) _ _ eq_refl eq_refl).
  discriminate H.
Qed.

(** C3 (amended).  Processing an item whose title is locked never sends a
    request to the language model.  If the item has a file, it increments
    [skipped_locked] and prints the skip notice; if it has none, the check
    for files comes first and it increments [skipped_no_file]. *)
Theorem locked_item_is_skipped sv config dry_run locations index it c
  (w : world) :
  is_title_locked it = true ->
  process_item sv config dry_run locations index it c w
  = match get_item_filepaths it with
    | [] => (Return (incr_skipped_no_file c), w)
    | _ :: _ =>
        (Return (incr_skipped_locked c),
         after w [EvPrint (lit "SKIP (locked): " ++ item_title it)])
    end
  /\
  llm_calls (snd (process_item sv config dry_run locations index it c w))
  = llm_calls w
  /\
  existsb is_chat_event
    (events_since w
       (snd (process_item sv config dry_run locations index it c w)))
  = false.
Proof.
  intros L.
  destruct (get_item_filepaths it) as [|filepath more] eqn:Hf.
  - rewrite process_item_no_file by assumption. simpl.
    rewrite events_since_refl. auto.
  - erewrite process_item_locked by eassumption. simpl.
    rewrite events_since_after. auto.
Qed.

(** A locked movie with a file is skipped as locked. *)
Lemma locked_item_is_skipped_witness :
  is_title_locked (movie (lit "Inception") true (lit "/media/Movies/a.mkv"))
  = true /\
  process_item helpful_services sample_config false
    (library_locations movies) 0
    (movie (lit "Inception") true (lit "/media/Movies/a.mkv"))
    counters_zero (fresh_world Missing [] [])
  = (Return (Counters 0 1 0 0),
     after (fresh_world Missing [] [])
       [EvPrint (lit "SKIP (locked): Inception")]).
Proof.
  split; [reflexivity|].
  apply (locked_item_is_skipped helpful_services sample_config false
           (library_locations movies) 0
           (movie (lit "Inception") true (lit "/media/Movies/a.mkv"))
           counters_zero (fresh_world Missing [] [])).
  reflexivity.
Defined.


End BatchCounters.

Section BatchIsolation.

Variables (sv : services) (config : AIConfig) (dry_run : bool).






Lemma print_summary_run c (w : world) :
  print_summary dry_run c w = (Return tt, after w (summary_events dry_run c)).
Proof.
  unfold print_summary, summary_events, bind, print, log, after, ret.
  destruct dry_run; simpl; repeat rewrite <- app_assoc; reflexivity.
Qed.



End BatchIsolation.



Section Preview.

Variables (config : AIConfig) (locations : list str).

Lemma bump_bump (w : world) k1 e1 k2 e2 :
  bump (bump w k1 e1) k2 e2 = bump w (k1 + k2) (e1 ++ e2).
Proof. unfold bump. simpl. now rewrite Nat.add_assoc, app_assoc. Qed.

Lemma after_is_bump (w : world) evs : after w evs = bump w 0 evs.
Proof. unfold after, bump. now rewrite Nat.add_0_r. Qed.

Lemma generate_and_apply_dry sv index rel cur c (w : world) :
  generate_and_apply sv config true index rel cur c w
  = match fst (generate_title sv config rel w) with
    | Return new_title =>
        (Return (incr_processed c),
         bump w 1 [EvChatCreate (title_request config rel);
                   EvPrint (lit "DRY RUN: " ++ quoted_pair cur new_title);
                   EvPrint (lit "  Path: " ++ rel)])
    | Raise e => (Raise e, bump w 1 [EvChatCreate (title_request config rel)])
    end.
Proof.
  unfold generate_and_apply, bind.
  pose proof (generate_title_world sv config rel w) as Hw.
  destruct (generate_title sv config rel w) as [[t|e] w1]; simpl in Hw;
    subst w1; simpl fst; cbv iota.
  - unfold print, log, ret, bump. simpl.
    repeat rewrite <- app_assoc. reflexivity.
  - reflexivity.
Qed.

(** In preview mode a pass through the loop body depends on the world only
    through the answer of the language model, adds events and possibly one
    request, and never edits. *)
Lemma process_item_dry_sim sv sv2 index it c (w w2 : world) :
  (forall req,
     chat_create sv2 (llm_calls w2) req = chat_create sv (llm_calls w) req) ->
  exists r k evs,
    process_item sv config true locations index it c w = (r, bump w k evs) /\
    process_item sv2 config true locations index it c w2
    = (r, bump w2 k evs) /\
    existsb is_edit_event evs = false.
Proof.
  intros Hans.
  destruct (get_item_filepaths it) as [|filepath more] eqn:Hf.
  - rewrite !process_item_no_file by assumption.
    exists (Return (incr_skipped_no_file c)), 0%nat, [].
    rewrite <- !after_is_bump, !after_nil. auto.
  - destruct (is_title_locked it) eqn:Hl.
    + rewrite !(process_item_locked _ _ _ _ _ _ _ _ _ _ Hf Hl).
      do 3 eexists. rewrite !after_is_bump. auto.
    + rewrite !(process_item_eligible _ _ _ _ _ _ _ _ _ _ Hf Hl).
      unfold try_except. rewrite !generate_and_apply_dry.
      rewrite !generate_title_result, Hans.
      destruct (chat_create sv (llm_calls w) _) as [resp|e].
      * destruct (choices resp) as [|ch l].
        -- simpl. unfold bind, print, log, ret. simpl.
           do 3 eexists. unfold bump. simpl.
           rewrite <- !app_assoc. simpl. auto.
        -- destruct (message_content ch) as [content|].
           ++ do 3 eexists. auto.
           ++ simpl. unfold bind, print, log, ret. simpl.
              do 3 eexists. unfold bump. simpl.
              rewrite <- !app_assoc. simpl. auto.
      * destruct (is_Exception e).
        -- unfold bind, print, log, ret. simpl.
           do 3 eexists. unfold bump. simpl.
           rewrite <- !app_assoc. simpl. auto.
        -- do 3 eexists. auto.
Qed.

Lemma same_answers_bump sv2 w2 sv w k evs :
  same_answers sv2 w2 sv w ->
  same_answers sv2 (bump w2 k evs) sv (bump w k evs).
Proof.
  intros H j req. simpl. rewrite <- !Nat.add_assoc. apply H.
Qed.

Lemma process_items_dry_sim sv sv2 items : forall index c (w w2 : world),
  same_answers sv2 w2 sv w ->
  exists r k evs,
    process_items sv config true locations index items c w
    = (r, bump w k evs) /\
    process_items sv2 config true locations index items c w2
    = (r, bump w2 k evs) /\
    existsb is_edit_event evs = false.
Proof.
  induction items as [|it rest IH]; intros index c w w2 Hans.
  - exists (Return c), 0%nat, []. simpl. unfold ret.
    rewrite <- !after_is_bump, !after_nil. auto.
  - cbn [process_items]. unfold bind.
    destruct (process_item_dry_sim sv sv2 index it c w w2)
      as (r & k & evs & E1 & E2 & Hno).
    { intros req. specialize (Hans 0%nat req).
      now rewrite !Nat.add_0_r in Hans. }
    rewrite E1, E2. destruct r as [c1|e].
    + destruct (IH (S index) c1 (bump w k evs) (bump w2 k evs))
        as (r' & k' & evs' & E1' & E2' & Hno').
      { now apply same_answers_bump. }
      rewrite E1', E2', !bump_bump.
      exists r', (k + k')%nat, (evs ++ evs').
      rewrite existsb_app, Hno, Hno'. auto.
    + exists (Raise e), k, evs. auto.
Qed.

End Preview.

Section PreviewRuns.

Variables (library : LibrarySection) (config : AIConfig).

Lemma header_world_bump (items : list item) :
  exists evs,
    existsb is_edit_event evs = false /\
    forall w, catalog w = items -> header_world library w = bump w 0 evs.
Proof.
  exists
    [EvPrint (nl ++ lit "Scanning library: " ++ library_title library
              ++ lit "...");
     EvPrint (lit "Found " ++ of_Z (Z.of_nat (length items))
              ++ lit " items in '" ++ library_title library ++ lit "'");
     EvPrint rule].
  split; [reflexivity|]. intros w Hw.
  unfold header_world, print_header, bind, print, log. simpl.
  unfold bump. rewrite Nat.add_0_r, <- !app_assoc, Hw. reflexivity.
Qed.

Lemma summary_events_no_edit c :
  existsb is_edit_event (summary_events true c) = false.
Proof. reflexivity. Qed.

(** Two preview runs over the same catalog with the same answers of the
    language model proceed in step: same result of the scan, same result
    of the run, same events, none of them an edit. *)
Lemma process_library_items_dry_sim sv sv2 (w w2 : world) :
  catalog w2 = catalog w ->
  same_answers sv2 w2 sv w ->
  exists r k evs,
    process_library_items sv library config true w = (r, bump w k evs) /\
    process_library_items sv2 library config true w2 = (r, bump w2 k evs) /\
    existsb is_edit_event evs = false /\
    fst (scan_library sv2 library config true w2)
    = fst (scan_library sv library config true w).
Proof.
  intros Hcat Hans.
  destruct (header_world_bump (catalog w)) as (hdr & Hhdr & Hw).
  unfold process_library_items, bind.
  rewrite !scan_library_run, Hcat, (Hw w eq_refl), (Hw w2 Hcat).
  destruct (process_items_dry_sim config (library_locations library)
              sv sv2 (catalog w) 0 counters_zero
              (bump w 0 hdr) (bump w2 0 hdr))
    as (r & k & evs & E1 & E2 & Hno).
  { now apply same_answers_bump. }
  rewrite E1, E2, !bump_bump. simpl Nat.add.
  destruct r as [c|e].
  - rewrite !print_summary_run, !after_is_bump, !bump_bump.
    do 3 eexists. repeat split.
    rewrite !existsb_app, Hhdr, Hno. reflexivity.
  - do 3 eexists. repeat split.
    rewrite existsb_app, Hhdr, Hno. reflexivity.
Qed.

Lemma same_answers_refl sv (w : world) : same_answers sv w sv w.
Proof. intros k req. reflexivity. Qed.

(** Preview mode never calls [editTitle] and leaves the catalog as it is. *)
Lemma preview_never_edits sv (w : world) :
  catalog (snd (process_library_items sv library config true w)) = catalog w
  /\
  existsb is_edit_event
    (events_since w (snd (process_library_items sv library config true w)))
  = false.
Proof.
  destruct (process_library_items_dry_sim sv sv w w eq_refl
              (same_answers_refl sv w)) as (r & k & evs & E & _ & Hno & _).
  rewrite E. simpl snd. rewrite events_since_bump. split; [reflexivity|].
  exact Hno.
Qed.

(** C7.  A preview run never calls [editTitle] and leaves the catalog
    unchanged.  Hence a second preview run over the same catalog, to which
    the language model gives the same answers, ends with the same counters
    and produces the same events, among them the same [DRY RUN] lines with
    the old and the proposed titles. *)
Theorem preview_is_repeatable sv sv2 (w w2 : world) :
  catalog w2 = catalog w ->
  same_answers sv2 w2 sv w ->
  catalog (snd (process_library_items sv library config true w)) = catalog w
  /\
  existsb is_edit_event
    (events_since w (snd (process_library_items sv library config true w)))
  = false
  /\
  fst (scan_library sv2 library config true w2)
  = fst (scan_library sv library config true w)
  /\
  fst (process_library_items sv2 library config true w2)
  = fst (process_library_items sv library config true w)
  /\
  events_since w2 (snd (process_library_items sv2 library config true w2))
  = events_since w (snd (process_library_items sv library config true w)).
Proof.
  intros Hcat Hans.
  destruct (preview_never_edits sv w) as [H1 H2].
  destruct (process_library_items_dry_sim sv sv2 w w2 Hcat Hans)
    as (r & k & evs & E1 & E2 & _ & Hscan).
  repeat split; try assumption.
  - now rewrite E1, E2.
  - rewrite E1, E2. simpl snd. now rewrite !events_since_bump.
Qed.

End PreviewRuns.

(** A second preview run, started in the world the first one left, repeats
    it. *)
Lemma preview_is_repeatable_witness :
  catalog
    (snd (process_library_items helpful_services movies sample_config true
            (fresh_world Missing [] two_movies)))
  = two_movies /\
  fst (scan_library helpful_services movies sample_config true
         (snd (process_library_items helpful_services movies sample_config
                 true (fresh_world Missing [] two_movies))))
  = Return (Counters 1 1 0 0) /\
  events_since
    (snd (process_library_items helpful_services movies sample_config true
            (fresh_world Missing [] two_movies)))
    (snd (process_library_items helpful_services movies sample_config true
            (snd (process_library_items helpful_services movies sample_config
                    true (fresh_world Missing [] two_movies)))))
  = events_since (fresh_world Missing [] two_movies)
      (snd (process_library_items helpful_services movies sample_config true
              (fresh_world Missing [] two_movies))).
Proof.
  destruct (preview_is_repeatable movies sample_config
              helpful_services helpful_services
              (fresh_world Missing [] two_movies)
              (snd (process_library_items helpful_services movies
                      sample_config true (fresh_world Missing [] two_movies)))
              eq_refl (fun k req => eq_refl))
    as (Hcat & _ & Hscan & _ & Hev).
  split; [exact Hcat|]. split; [|exact Hev].
  rewrite Hscan. reflexivity.
Defined.

(* ===================================================================== *)
(** * End-to-end scenarios *)
(* ===================================================================== *)

Section Scenarios.

(** Scenario A: one unlocked and one locked item, in preview mode. *)
Example scenario_preview :
  process_library_items helpful_services movies sample_config true
    (fresh_world Missing [] two_movies)
  = (Return tt,
     World Missing [] two_movies 1
       [EvPrint (nl ++ lit "Scanning library: Movies...");
        EvPrint (lit "Found 2 items in 'Movies'");
        EvPrint rule;
        EvChatCreate (title_request sample_config
                        (lit "Inception (2010)/Inception.mkv"));
        EvPrint (lit "DRY RUN: 'a' -> 'Inception (2010)'");
        EvPrint (lit "  Path: Inception (2010)/Inception.mkv");
        EvPrint (lit "SKIP (locked): Heat");
        EvPrint rule;
        EvPrint (nl ++ lit "Summary:");
        EvPrint (lit "  Processed: 1");
        EvPrint (lit "  Skipped (locked): 1");
        EvPrint (lit "  Skipped (no file): 0");
        EvPrint (lit "  Errors: 0");
        EvPrint (nl ++ lit "This was a DRY RUN. No changes were made.")]).
Proof. reflexivity. Qed.

(** In apply mode the title reaches the server. *)
Example scenario_apply :
  map item_title
    (catalog (snd (process_library_items helpful_services movies
                     sample_config false
                     (fresh_world Missing [] two_movies))))
  = [lit "Inception (2010)"; lit "Heat"].
Proof. reflexivity. Qed.

(** A write-back that raises is an error of that item only. *)
Example scenario_write_back_fails :
  fst (scan_library readonly_services movies sample_config false
         (fresh_world Missing [] two_movies))
  = Return (Counters 0 1 0 1)
  /\
  In (EvPrint (lit "ERROR: a: (403) forbidden"))
     (trace (snd (process_library_items readonly_services movies
                    sample_config false
                    (fresh_world Missing [] two_movies)))).
Proof. split; [reflexivity|]. vm_compute. tauto. Qed.

End Scenarios.

(* ===================================================================== *)
(** * Further properties: the credential store *)
(* ===================================================================== *)

Section TraceDiscipline.

Context {A B : Type} (P : event -> bool).

Lemma adds_only_ret (a : A) : adds_only P (ret a).
Proof. intros w r w' [= <- <-]. exists []. now rewrite app_nil_r. Qed.

Lemma adds_only_raise (e : exc) : adds_only P (@raise A e).
Proof. intros w r w' [= <- <-]. exists []. now rewrite app_nil_r. Qed.

Lemma adds_only_pure (f : world -> outcome A) :
  adds_only P (fun w => (f w, w)).
Proof. intros w r w' [= <- <-]. exists []. now rewrite app_nil_r. Qed.

Lemma adds_only_bind (m : M A) (k : A -> M B) :
  adds_only P m -> (forall a, adds_only P (k a)) -> adds_only P (bind m k).
Proof.
  intros Hm Hk w r w' H. unfold bind in H.
  destruct (m w) as [[a|e] w1] eqn:E.
  - destruct (Hm _ _ _ E) as (e1 & H1 & P1), (Hk a _ _ _ H) as (e2 & H2 & P2).
    exists (e1 ++ e2). rewrite H2, H1, app_assoc, forallb_app, P1, P2. auto.
  - injection H as <- <-. eapply Hm. exact E.
Qed.

Lemma adds_only_try_except (body : M A) catches (handler : exc -> M A) :
  adds_only P body -> (forall e, adds_only P (handler e)) ->
  adds_only P (try_except body catches handler).
Proof.
  intros Hb Hh w r w' H. unfold try_except in H.
  destruct (body w) as [[a|e] w1] eqn:E.
  - injection H as <- <-. eapply Hb. exact E.
  - destruct (catches e).
    + destruct (Hb _ _ _ E) as (e1 & H1 & P1), (Hh e _ _ _ H) as (e2 & H2 & P2).
      exists (e1 ++ e2). rewrite H2, H1, app_assoc, forallb_app, P1, P2. auto.
    + injection H as <- <-. eapply Hb. exact E.
Qed.

End TraceDiscipline.

Section TraceDisciplineBasics.

Variable P : event -> bool.

Lemma adds_only_log (ev : event) : P ev = true -> adds_only P (log ev).
Proof.
  intros H w r w' [= <- <-]. exists [ev]. simpl. now rewrite H.
Qed.

Lemma adds_only_read_tty : adds_only P read_tty.
Proof.
  intros w r w' H. unfold read_tty in H. exists [].
  rewrite app_nil_r. split; [|reflexivity].
  destruct (tty w) as [|[s| | |msg] rest]; injection H as <- <-; reflexivity.
Qed.

Lemma adds_only_set_creds_file (c : creds_state) :
  adds_only P (set_creds_file c).
Proof.
  intros w r w' [= <- <-]. exists []. simpl. now rewrite app_nil_r.
Qed.

Lemma adds_only_set_catalog (c : list item) : adds_only P (set_catalog c).
Proof.
  intros w r w' [= <- <-]. exists []. simpl. now rewrite app_nil_r.
Qed.

Lemma adds_only_get_world : adds_only P get_world.
Proof. intros w r w' [= <- <-]. exists []. now rewrite app_nil_r. Qed.

Lemma adds_only_input (prompt : str) :
  P (EvInput prompt) = true -> adds_only P (input prompt).
Proof.
  intros H. apply adds_only_bind; [now apply adds_only_log|].
  intros _. apply adds_only_read_tty.
Qed.

Lemma adds_only_getpass (prompt : str) :
  P (EvGetpass prompt) = true -> adds_only P (getpass prompt).
Proof.
  intros H. apply adds_only_bind; [now apply adds_only_log|].
  intros _. apply adds_only_read_tty.
Qed.

Lemma adds_only_print (line : str) :
  P (EvPrint line) = true -> adds_only P (print line).
Proof. apply adds_only_log. Qed.

Lemma adds_only_sys_exit {A} (status : Z) : adds_only P (@sys_exit A status).
Proof. apply adds_only_raise. Qed.

End TraceDisciplineBasics.

Lemma events_since_app (w w' : world) (evs : list event) :
  trace w' = trace w ++ evs -> events_since w w' = evs.
Proof.
  intros H. unfold events_since. rewrite H. clear H.
  generalize (trace w) as tr. induction tr; simpl; auto.
Qed.

Lemma forallb_negb_existsb (p : event -> bool) (evs : list event) :
  forallb (fun ev => negb (p ev)) evs = true -> existsb p evs = false.
Proof.
  induction evs as [|ev evs IH]; simpl; [reflexivity|].
  intros H. apply andb_prop in H as [H1 H2].
  apply negb_true_iff in H1. now rewrite H1, IH.
Qed.

(** A step of [adds_only]: split binds and handlers, close the leaves. *)
Ltac adds_only_step :=
  first
    [ apply adds_only_bind; [|intros ?]
    | apply adds_only_try_except; [|intros ?]
    | apply adds_only_pure
    | apply adds_only_ret
    | apply adds_only_raise
    | apply adds_only_sys_exit
    | apply adds_only_read_tty
    | apply adds_only_get_world
    | apply adds_only_set_creds_file
    | apply adds_only_set_catalog
    | apply adds_only_print; reflexivity
    | apply adds_only_input; reflexivity
    | apply adds_only_getpass; reflexivity
    | apply adds_only_log; reflexivity ].

Section CredentialStoreMore.

Variable sv : services.

(** What [save_cached_token] does, in full. *)
Lemma save_cached_token_events (token : str) (w : world) :
  save_cached_token sv token w
  = (Return tt,
     World (match creds_write_error sv token with
            | None => token_record token
            | Some (OpenFails _) => creds_file w
            | Some (WriteFails _ remains) => Holds remains
            end)
           (tty w) (catalog w) (llm_calls w)
           (trace w ++
            EvSaveCachedToken token ::
            match creds_write_error sv token, creds_chmod_error sv token with
            | Some f, _ =>
                [EvPrint (lit "Warning: Could not save credentials: "
                          ++ write_failure_msg f)]
            | None, Some msg =>
                [EvPrint (lit "Warning: Could not save credentials: " ++ msg)]
            | None, None => [EvChmod 384]
            end)).
Proof.
  destruct w as [c t cat n tr].
  unfold save_cached_token, bind, try_except, log, print; simpl.
  destruct (creds_write_error sv token) as [[msg|msg remains]|]; simpl.
  - unfold log. simpl. rewrite <- ?app_assoc. reflexivity.
  - unfold log. simpl. rewrite <- ?app_assoc. reflexivity.
  - destruct (creds_chmod_error sv token) as [msg|]; simpl;
      unfold log; simpl; rewrite <- ?app_assoc; reflexivity.
Qed.

(** X1.  A token that was saved is the token the next load returns. *)
Theorem save_then_load (token : str) (w : world) :
  creds_write_error sv token = None ->
  fst (load_cached_token (snd (save_cached_token sv token w)))
  = Return (JStr token).
Proof.
  intros H. rewrite save_cached_token_events, H, load_cached_token_run.
  reflexivity.
Qed.


Lemma clear_cached_token_run (w : world) :
  clear_cached_token sv w
  = (Return tt,
     World (match creds_unlink_error sv with
            | None => Missing
            | Some _ => creds_file w
            end)
           (tty w) (catalog w) (llm_calls w)
           (trace w ++ [EvClearCachedToken])).
Proof.
  destruct w as [c t cat n tr].
  unfold clear_cached_token, bind, try_except, log; simpl.
  destruct (creds_unlink_error sv); reflexivity.
Qed.

(** X3.  [clear_cached_token] never raises; when the file could be removed
    the next load finds no token, otherwise the file is as it was. *)
Theorem clear_then_load (w : world) :
  fst (clear_cached_token sv w) = Return tt
  /\
  match creds_unlink_error sv with
  | None =>
      fst (load_cached_token (snd (clear_cached_token sv w))) = Return JNull
  | Some _ => creds_file (snd (clear_cached_token sv w)) = creds_file w
  end.
Proof.
  rewrite clear_cached_token_run. split; [reflexivity|].
  destruct (creds_unlink_error sv); reflexivity.
Qed.

End CredentialStoreMore.

(** A saved token is read back. *)
Lemma save_then_load_witness :
  creds_write_error helpful_services (lit "fresh-token") = None /\
  fst (load_cached_token
         (snd (save_cached_token helpful_services (lit "fresh-token")
                 (fresh_world Missing [] []))))
  = Return (JStr (lit "fresh-token")).
Proof.
  split; [reflexivity|].
  apply (save_then_load helpful_services (lit "fresh-token")
           (fresh_world Missing [] [])).
  reflexivity.
Defined.

(** On a read-only disk the cached token survives a failed save; on a full
    disk it does not: the file was emptied before the write failed, and the
    next load finds no token. *)
Example save_cached_token_readonly_disk :
  save_cached_token readonly_disk_services (lit "fresh-token") returning_world
  = (Return tt,
     World (token_record (lit "cached-token")) [] [] 0
       [EvSaveCachedToken (lit "fresh-token");
        EvPrint (lit "Warning: Could not save credentials: "
                 ++ lit "Read-only file system")]).
Proof. reflexivity. Qed.

Example save_cached_token_full_disk :
  save_cached_token full_disk_services (lit "fresh-token") returning_world
  = (Return tt,
     World (Holds (NotJSON (lit "Expecting value: line 1 column 1 (char 0)")))
       [] [] 0
       [EvSaveCachedToken (lit "fresh-token");
        EvPrint (lit "Warning: Could not save credentials: "
                 ++ lit "No space left on device")]) /\
  fst (load_cached_token
         (snd (save_cached_token full_disk_services (lit "fresh-token")
                 returning_world)))
  = Return JNull.
Proof. split; reflexivity. Qed.

(* ===================================================================== *)
(** * Further properties: the authentication flow *)
(* ===================================================================== *)

Section AuthenticationMore.

Variable sv : services.

Lemma authenticate_myplex_unfold (username password : option str) :
  authenticate_myplex sv username password
  = (cached <- try_cached_token sv ;;
     match cached with
     | Some account => ret account
     | None => sign_in_and_save sv username password
     end).
Proof. reflexivity. Qed.

(** What [try_cached_token] does, case by case. *)
Lemma try_cached_token_run (w : world) :
  try_cached_token sv w
  = match fst (load_cached_token w) with
    | Raise e => (Raise e, after w [EvLoadCachedToken])
    | Return token =>
        if json_truthy token then
          match signin_token sv token with
          | Return account => (Return (Some account), after w using_cached)
          | Raise e =>
              if is_Unauthorized e
              then (Return None, after_rejected_token sv w)
              else (Raise e, after w using_cached)
          end
        else (Return None, after w [EvLoadCachedToken])
    end.
Proof.
  unfold try_cached_token, bind. rewrite load_cached_token_run.
  set (r := match creds_file w with Missing => _ | _ => _ end).
  simpl fst. destruct r as [token|e]; [|reflexivity].
  destruct (json_truthy token); [|reflexivity].
  unfold try_except, bind, MyPlexAccount_token. rewrite print_run.
  rewrite after_after.
  destruct (signin_token sv token) as [a|e]; [reflexivity|].
  destruct (is_Unauthorized e); [|reflexivity].
  rewrite print_run, clear_cached_token_run. unfold ret, after_rejected_token.
  simpl. rewrite <- !app_assoc. reflexivity.
Qed.

(** X4.  A cached token that plex.tv rejects does not end the flow: the
    rejection is announced, the cached record is cleared, and the flow goes
    on to the username and password. *)
Theorem rejected_token_is_cleared (username password : option str)
  (w : world) (token : json) (e : exc) :
  fst (load_cached_token w) = Return token ->
  json_truthy token = true ->
  signin_token sv token = Raise e ->
  is_Unauthorized e = true ->
  authenticate_myplex sv username password w
  = sign_in_and_save sv username password (after_rejected_token sv w).
Proof.
  intros Hl Ht Hs Hu.
  rewrite authenticate_myplex_unfold. unfold bind.
  rewrite try_cached_token_run, Hl, Ht, Hs, Hu. reflexivity.
Qed.

(** X5.  Any other failure of the cached token is fatal: it reaches the
    caller as it is, the cached record is kept, nothing is asked at the
    terminal. *)
Theorem cached_token_failure_propagates (username password : option str)
  (w : world) (token : json) (e : exc) :
  fst (load_cached_token w) = Return token ->
  json_truthy token = true ->
  signin_token sv token = Raise e ->
  is_Unauthorized e = false ->
  authenticate_myplex sv username password w
  = (Raise e, after w using_cached).
Proof.
  intros Hl Ht Hs Hu.
  rewrite authenticate_myplex_unfold. unfold bind.
  rewrite try_cached_token_run, Hl, Ht, Hs, Hu. reflexivity.
Qed.

(** The name and the password [password_sign_in] uses when it does not have
    to ask: the argument if it is not empty, else the configured value. *)
Lemma password_sign_in_without_prompt (username password : option str)
  (u p : str) (w : world) :
  (if opt_truthy username then username
   else CONFIG_get sv (lit "auth.myplex_username")) = Some u ->
  (if opt_truthy password then password
   else CONFIG_get sv (lit "auth.myplex_password")) = Some p ->
  truthy u = true -> truthy p = true ->
  password_sign_in sv username password w
  = try_except
      (MyPlexAccount_password sv u p None)
      is_Unauthorized
      (fun e =>
         if asks_for_code e then
           code <- input (lit "2FA verification code: ") ;;
           MyPlexAccount_password sv u p (Some (strip code))
         else raise e)
      (after w [EvPrint (lit "Authenticating with Plex.tv as " ++ u
                         ++ lit "...")]).
Proof.
  intros Hu Hp Tu Tp. unfold password_sign_in.
  destruct (opt_truthy username); simpl negb; cbv iota;
    destruct (opt_truthy password); simpl negb; cbv iota;
    rewrite Hu, Hp, Tu, Tp; reflexivity.
Qed.

(** X6.  Arguments come before configured defaults, and both before the
    terminal: when a non-empty name and password are available from the
    arguments or, failing that, from the configuration, and plex.tv accepts
    them, the sign-in uses exactly those, nothing is read from the terminal
    and the only output is the notice. *)
Theorem credentials_precedence (username password : option str)
  (u p : str) (w : world) (account : MyPlexAccount) :
  (if opt_truthy username then username
   else CONFIG_get sv (lit "auth.myplex_username")) = Some u ->
  (if opt_truthy password then password
   else CONFIG_get sv (lit "auth.myplex_password")) = Some p ->
  truthy u = true -> truthy p = true ->
  signin sv u p None = Return account ->
  password_sign_in sv username password w
  = (Return account,
     after w [EvPrint (lit "Authenticating with Plex.tv as " ++ u
                       ++ lit "...")]).
Proof.
  intros Hu Hp Tu Tp Hs.
  rewrite (password_sign_in_without_prompt _ _ u p) by assumption.
  unfold try_except, MyPlexAccount_password. now rewrite Hs.
Qed.

Lemma password_sign_in_collected (username password : option str)
  (w : world) :
  password_sign_in sv username password w
  = match collect_credentials sv username password w with
    | (Return (u, p), w1) => sign_in_as sv u p w1
    | (Raise e, w1) => (Raise e, w1)
    end.
Proof.
  rewrite password_sign_in_resolved. unfold collect_credentials, bind.
  destruct (configured_or_ask _ ask_username w) as [[u|e] w0];
    [|reflexivity].
  destruct (configured_or_ask _ ask_password w0) as [[p|e] w1]; reflexivity.
Qed.

(** X7.  A rejection that does not ask for a verification code is fatal,
    wherever the name and the password came from (arguments, configured
    defaults or the terminal): once they are collected, no code is asked
    for, nothing more is read, and the rejection reaches the caller. *)
Theorem rejection_without_code_request_is_fatal
  (username password : option str) (u p : str) (w w1 : world) (e : exc) :
  collect_credentials sv username password w = (Return (u, p), w1) ->
  signin sv u p None = Raise e ->
  asks_for_code e = false ->
  password_sign_in sv username password w
  = (Raise e,
     after w1 [EvPrint (lit "Authenticating with Plex.tv as " ++ u
                        ++ lit "...")]).
Proof.
  intros Hc Hs Ha.
  rewrite password_sign_in_collected, Hc.
  unfold sign_in_as, bind. rewrite print_run.
  unfold try_except, MyPlexAccount_password. rewrite Hs.
  destruct (is_Unauthorized e); [|reflexivity].
  now rewrite Ha.
Qed.

Lemma adds_only_load_cached_token P :
  P EvLoadCachedToken = true -> adds_only P load_cached_token.
Proof.
  intros H w r w' E. rewrite load_cached_token_run in E.
  injection E as _ <-. exists [EvLoadCachedToken]. simpl. now rewrite H.
Qed.

Lemma adds_only_clear_cached_token P :
  P EvClearCachedToken = true -> adds_only P (clear_cached_token sv).
Proof.
  intros H w r w' E. rewrite clear_cached_token_run in E.
  injection E as _ <-. exists [EvClearCachedToken]. simpl. now rewrite H.
Qed.

Lemma try_cached_token_no_save : adds_only not_save_event (try_cached_token sv).
Proof.
  unfold try_cached_token.
  apply adds_only_bind; [now apply adds_only_load_cached_token|intros token].
  destruct (json_truthy token); [|adds_only_step].
  apply adds_only_try_except.
  - unfold MyPlexAccount_token. repeat adds_only_step.
  - intros e. adds_only_step; [adds_only_step|].
    adds_only_step; [now apply adds_only_clear_cached_token|adds_only_step].
Qed.

Lemma password_sign_in_no_save (username password : option str) :
  adds_only not_save_event (password_sign_in sv username password).
Proof.
  unfold password_sign_in, MyPlexAccount_password.
  apply adds_only_bind.
  { destruct (if negb (opt_truthy username) then _ else _) as [u|];
      [destruct (negb (truthy u))|]; repeat adds_only_step. }
  intros u. apply adds_only_bind.
  { destruct (if negb (opt_truthy password) then _ else _) as [p|];
      [destruct (negb (truthy p))|]; repeat adds_only_step. }
  intros p. adds_only_step; [adds_only_step|].
  apply adds_only_try_except; [adds_only_step|intros e].
  destruct (asks_for_code e); repeat adds_only_step.
Qed.

(** X8.  An authentication that fails saves nothing: whenever
    [authenticate_myplex] raises, [save_cached_token] has not been
    called. *)
Theorem failed_authentication_saves_nothing
  (username password : option str) (w w' : world) (e : exc) :
  authenticate_myplex sv username password w = (Raise e, w') ->
  existsb is_save_event (events_since w w') = false.
Proof.
  rewrite authenticate_myplex_unfold. unfold bind.
  destruct (try_cached_token sv w) as [[[a|]|e1] w1] eqn:Hc.
  - discriminate.
  - unfold sign_in_and_save, bind.
    destruct (password_sign_in sv username password w1) as [[a|e2] w2] eqn:Hp.
    + rewrite save_cached_token_events, print_run. discriminate.
    + intros [= <- <-].
      destruct (try_cached_token_no_save _ _ _ Hc) as (e1 & H1 & P1).
      destruct (password_sign_in_no_save _ _ _ _ _ Hp) as (e2' & H2 & P2).
      rewrite (events_since_app w w2 (e1 ++ e2'))
        by (now rewrite H2, H1, app_assoc).
      apply forallb_negb_existsb.
      change (forallb not_save_event (e1 ++ e2') = true).
      now rewrite forallb_app, P1, P2.
  - intros [= <- <-].
    destruct (try_cached_token_no_save _ _ _ Hc) as (evs & H1 & P1).
    rewrite (events_since_app _ _ _ H1). now apply forallb_negb_existsb.
Qed.

End AuthenticationMore.

(** The cached token is rejected, the user signs in again. *)
Lemma rejected_token_is_cleared_witness :
  json_truthy (JStr (lit "cached-token")) = true /\
  authenticate_myplex expired_services None None returning_user_world
  = sign_in_and_save expired_services None None
      (after_rejected_token expired_services returning_user_world).
Proof.
  split; [reflexivity|].
  apply (rejected_token_is_cleared expired_services None None
           returning_user_world (JStr (lit "cached-token"))
           (Exc Unauthorized (lit "(401) unauthorized")));
    reflexivity.
Defined.

(** plex.tv is unreachable: the error is fatal and the token is kept. *)
Lemma cached_token_failure_propagates_witness :
  is_Unauthorized (Exc OtherException (lit "Connection error.")) = false /\
  authenticate_myplex unreachable_services None None returning_user_world
  = (Raise (Exc OtherException (lit "Connection error.")),
     after returning_user_world using_cached).
Proof.
  split; [reflexivity|].
  apply (cached_token_failure_propagates unreachable_services None None
           returning_user_world (JStr (lit "cached-token")));
    reflexivity.
Defined.

(** Name and password on the command line: nothing is asked. *)
Lemma credentials_precedence_witness :
  truthy (lit "alice") = true /\
  password_sign_in helpful_services (Some (lit "alice")) (Some (lit "secret"))
    first_run_world
  = (Return (Account (lit "fresh-token")),
     after first_run_world
       [EvPrint (lit "Authenticating with Plex.tv as alice...")]).
Proof.
  split; [reflexivity|].
  apply (credentials_precedence helpful_services
           (Some (lit "alice")) (Some (lit "secret"))
           (lit "alice") (lit "secret") first_run_world);
    reflexivity.
Defined.

(** A wrong password typed at the terminal ends the flow: no code is asked
    for. *)
Lemma rejection_without_code_request_is_fatal_witness :
  collect_credentials wrong_password_services None None first_run_world
  = (Return (lit "alice", lit "secret"),
     World Missing [] [] 0
       [EvInput (lit "Plex.tv username: ");
        EvGetpass (lit "Plex.tv password: ")]) /\
  password_sign_in wrong_password_services None None first_run_world
  = (Raise (Exc Unauthorized (lit "(401) unauthorized; Invalid password")),
     World Missing [] [] 0
       [EvInput (lit "Plex.tv username: ");
        EvGetpass (lit "Plex.tv password: ");
        EvPrint (lit "Authenticating with Plex.tv as alice...")]).
Proof.
  split; [reflexivity|].
  apply (rejection_without_code_request_is_fatal wrong_password_services
           None None (lit "alice") (lit "secret") first_run_world
           (World Missing [] [] 0
              [EvInput (lit "Plex.tv username: ");
               EvGetpass (lit "Plex.tv password: ")]));
    reflexivity.
Defined.

(** A wrong password typed at the terminal: nothing is saved. *)
Lemma failed_authentication_saves_nothing_witness :
  authenticate_myplex wrong_password_services None None first_run_world
  = (Raise (Exc Unauthorized (lit "(401) unauthorized; Invalid password")),
     snd (authenticate_myplex wrong_password_services None None
            first_run_world)) /\
  existsb is_save_event
    (events_since first_run_world
       (snd (authenticate_myplex wrong_password_services None None
               first_run_world)))
  = false.
Proof.
  split; [reflexivity|].
  apply (failed_authentication_saves_nothing wrong_password_services
           None None first_run_world _
           (Exc Unauthorized (lit "(401) unauthorized; Invalid password"))).
  reflexivity.
Defined.

Section NextRun.

Variables sv sv2 : services.

Lemma sign_in_and_save_file (username password : option str)
  (w w' : world) (account : MyPlexAccount) :
  sign_in_and_save sv username password w = (Return account, w') ->
  creds_write_error sv (authToken account) = None ->
  creds_file w' = token_record (authToken account).
Proof.
  unfold sign_in_and_save, bind.
  destruct (password_sign_in sv username password w) as [[a|e] w1];
    [|discriminate].
  rewrite save_cached_token_events, print_run. unfold ret.
  intros [= <- <-] H. simpl. now rewrite H.
Qed.

(** X9.  The token saved by a sign-in with username and password is what
    the next run starts from: if the file could be written and the token is
    not empty, the next call of [authenticate_myplex], whatever its
    arguments, offers that token to plex.tv, and when it is accepted
    returns the session without asking anything. *)
Theorem next_run_uses_saved_token (username password : option str)
  (username2 password2 : option str) (w w' : world)
  (account account2 : MyPlexAccount) :
  fst (try_cached_token sv w) = Return None ->
  authenticate_myplex sv username password w = (Return account, w') ->
  creds_write_error sv (authToken account) = None ->
  truthy (authToken account) = true ->
  signin_token sv2 (JStr (authToken account)) = Return account2 ->
  authenticate_myplex sv2 username2 password2 w'
  = (Return account2, after w' using_cached).
Proof.
  intros Hc Ha Hw Ht Hs.
  assert (Hf : creds_file w' = token_record (authToken account)).
  { rewrite authenticate_myplex_unfold in Ha. unfold bind in Ha.
    destruct (try_cached_token sv w) as [[[a|]|e] w1]; simpl in Hc;
      try discriminate.
    eapply sign_in_and_save_file; eassumption. }
  rewrite authenticate_myplex_unfold. unfold bind.
  rewrite try_cached_token_run, load_cached_token_run, Hf.
  simpl fst. change (dict_get _ _) with (JStr (authToken account)).
  cbv iota.
  change (json_truthy (JStr (authToken account)))
    with (truthy (authToken account)).
  rewrite Ht, Hs. reflexivity.
Qed.

End NextRun.

(** The first run signs in, the second uses what the first saved. *)
Lemma next_run_uses_saved_token_witness :
  truthy (lit "fresh-token") = true /\
  authenticate_myplex helpful_services (Some (lit "bob")) None
    (snd (authenticate_myplex helpful_services None None first_run_world))
  = (Return (Account (lit "cached-token")),
     after (snd (authenticate_myplex helpful_services None None
                   first_run_world))
       using_cached).
Proof.
  split; [reflexivity|].
  apply (next_run_uses_saved_token helpful_services helpful_services
           None None (Some (lit "bob")) None first_run_world _
           (Account (lit "fresh-token")));
    reflexivity.
Defined.

(* ===================================================================== *)
(** * Further properties: paths and eligibility *)
(* ===================================================================== *)

Section PathsMore.

Lemma rstrip_snoc_sep (l : str) : rstrip (l ++ [sep]) [sep] = rstrip l [sep].
Proof.
  unfold rstrip, rstrip_with. rewrite rev_app_distr. reflexivity.
Qed.

Lemma rstrip_trailing_seps (l : str) (k : nat) :
  rstrip (l ++ repeat sep k) [sep] = rstrip l [sep].
Proof.
  revert l. induction k as [|k IH]; intros l; simpl.
  - now rewrite app_nil_r.
  - change (sep :: repeat sep k) with ([sep] ++ repeat sep k).
    now rewrite app_assoc, IH, rstrip_snoc_sep.
Qed.

(** X10.  How many separators a library location ends with makes no
    difference: [/media/Movies], [/media/Movies/] and [/media/Movies//]
    resolve every path alike. *)
Theorem get_relative_path_ignores_trailing_separators
  (filepath : str) (locations : list str) (k : nat) :
  get_relative_path filepath (map (fun l => l ++ repeat sep k) locations)
  = get_relative_path filepath locations.
Proof.
  induction locations as [|l rest IH]; simpl; [reflexivity|].
  unfold location_prefix in *. rewrite rstrip_trailing_seps, IH. reflexivity.
Qed.

(** X11.  The resolved path is always a suffix of the file path: nothing is
    added or changed, whether a location matched or the basename was
    taken. *)
Theorem get_relative_path_is_suffix (filepath : str) (locations : list str) :
  exists before, filepath = before ++ get_relative_path filepath locations.
Proof.
  induction locations as [|l rest IH]; simpl.
  - destruct (basename_split filepath) as (dir & E & _). now exists dir.
  - destruct (startswith filepath (location_prefix l)) eqn:Hm; [|exact IH].
    exists (location_prefix l). unfold slice_from. rewrite Nat2Z.id.
    now apply startswith_split.
Qed.

End PathsMore.

Section EligibilityMore.

Lemma str_eqb_eq (a b : str) : str_eqb a b = true <-> a = b.
Proof.
  unfold str_eqb. destruct (list_eq_dec N.eq_dec a b); split; auto.
  discriminate.
Qed.

Lemma truthy_part_file (part : option media_part) (f : str) :
  part_has_file part = Some f <->
  part = Some (MediaPart (Some f)) /\ truthy f = true.
Proof.
  unfold part_has_file. split.
  - destruct part as [[[g|]]|]; simpl; try discriminate.
    destruct (truthy g) eqn:T; [|discriminate].
    intros [= ->]. auto.
  - intros [-> T]. simpl. now rewrite T.
Qed.

Lemma get_item_filepaths_app (title : str) (fields : option (list field))
  (a b : list (option media_part)) :
  get_item_filepaths (Item title fields (Some (a ++ b)))
  = get_item_filepaths (Item title fields (Some a))
    ++ get_item_filepaths (Item title fields (Some b)).
Proof. unfold get_item_filepaths. simpl. apply flat_map_app. Qed.

(** X12.  The file paths of an item are exactly the non-empty [file]s of
    its parts, in the order of the parts and once for every part that has
    one.  An item without [iterParts] or without parts has no path; a
    single part gives its file if that is not empty, and nothing if it is
    missing, has no file or an empty one; the paths of parts put one after
    the other are the paths of the first followed by those of the second.
    In particular a path is returned exactly when it is the non-empty file
    of a part. *)
Theorem get_item_filepaths_spec (title : str) (fields : option (list field)) :
  get_item_filepaths (Item title fields None) = [] /\
  get_item_filepaths (Item title fields (Some [])) = [] /\
  get_item_filepaths (Item title fields (Some [None])) = [] /\
  get_item_filepaths (Item title fields (Some [Some (MediaPart None)])) = [] /\
  (forall f,
     get_item_filepaths (Item title fields (Some [Some (MediaPart (Some f))]))
     = if truthy f then [f] else []) /\
  (forall a b,
     get_item_filepaths (Item title fields (Some (a ++ b)))
     = get_item_filepaths (Item title fields (Some a))
       ++ get_item_filepaths (Item title fields (Some b))) /\
  (forall parts f,
     In f (get_item_filepaths (Item title fields parts)) <->
     truthy f = true /\
     exists l, parts = Some l /\ In (Some (MediaPart (Some f))) l).
Proof.
  repeat split; try reflexivity.
  - intros f. unfold get_item_filepaths. simpl.
    destruct (truthy f); reflexivity.
  - intros a b. apply get_item_filepaths_app.
  - unfold get_item_filepaths in H. simpl in H.
    destruct parts as [l|]; [|contradiction].
    apply in_flat_map in H as (part & Hin & Hf).
    destruct (part_has_file part) as [g|] eqn:Hp; [|contradiction].
    destruct Hf as [<-|[]]. now apply truthy_part_file in Hp.
  - unfold get_item_filepaths in H. simpl in H.
    destruct parts as [l|]; [|contradiction].
    apply in_flat_map in H as (part & Hin & Hf).
    destruct (part_has_file part) as [g|] eqn:Hp; [|contradiction].
    destruct Hf as [<-|[]].
    apply truthy_part_file in Hp as [-> T]. now exists l.
  - intros (T & l & -> & Hin). unfold get_item_filepaths. simpl.
    apply in_flat_map. exists (Some (MediaPart (Some f))).
    split; [exact Hin|]. simpl. rewrite T. now left.
Qed.

(** Three parts, the second without a file: two paths, in order. *)
Example get_item_filepaths_in_order :
  get_item_filepaths
    (Item (lit "t") None
       (Some [Some (MediaPart (Some (lit "/a/cd1.mkv")));
              Some (MediaPart None);
              Some (MediaPart (Some (lit "/a/cd2.mkv")))]))
  = [lit "/a/cd1.mkv"; lit "/a/cd2.mkv"].
Proof. reflexivity. Qed.

(** The order of the parts is kept: the first path is the file of the
    first part that has one. *)
Lemma get_item_filepaths_order (it : item) (parts : list (option media_part)) :
  item_parts it = Some parts ->
  get_item_filepaths it
  = flat_map (fun part => match part_has_file part with
                          | Some f => [f]
                          | None => []
                          end) parts.
Proof. intros H. unfold get_item_filepaths. now rewrite H. Qed.

(** X13.  The title counts as locked exactly when the item has a field
    whose name is [title], literally, and which is locked; an item without
    [fields], or with other locked fields only, is not locked. *)
Theorem is_title_locked_spec (it : item) :
  is_title_locked it = true <->
  exists fields f,
    item_fields it = Some fields /\ In f fields /\
    field_name f = lit "title" /\ field_locked f = true.
Proof.
  unfold is_title_locked.
  destruct (item_fields it) as [[|f0 fields]|].
  - split; [discriminate|]. intros (fs & f & [= <-] & [] & _).
  - rewrite existsb_exists. split.
    + intros (f & Hin & Hf). apply andb_prop in Hf as [Hn Hl].
      apply str_eqb_eq in Hn. now exists (f0 :: fields), f.
    + intros (fs & f & [= <-] & Hin & Hn & Hl).
      exists f. split; [exact Hin|].
      rewrite Hl, andb_true_r. now apply str_eqb_eq.
  - split; [discriminate|]. intros (fs & f & H & _). discriminate.
Qed.

End EligibilityMore.

(* ===================================================================== *)
(** * Further properties: the batch *)
(* ===================================================================== *)

Section BatchMore.

Variables (sv : services) (config : AIConfig) (dry_run : bool)
          (locations : list str).

(** The statements inside the [try] send one request; they touch nothing
    but the trace and, in apply mode and on success only, the title of the
    item at [index]. *)
Lemma generate_and_apply_frame index rel cur c (w : world) :
  exists evs cat,
    snd (generate_and_apply sv config dry_run index rel cur c w)
    = World (creds_file w) (tty w) cat (S (llm_calls w)) (trace w ++ evs) /\
    (cat = catalog w \/
     dry_run = false /\
     exists t,
       cat = set_title_at index t (catalog w) /\
       fst (generate_and_apply sv config dry_run index rel cur c w)
       = Return (incr_processed c)).
Proof.
  unfold generate_and_apply, bind.
  pose proof (generate_title_world sv config rel w) as Hw.
  destruct (generate_title sv config rel w) as [[t|e] w1]; simpl in Hw;
    subst w1.
  - destruct dry_run.
    + unfold print, log, ret, bump. simpl.
      rewrite Nat.add_1_r, <- !app_assoc. simpl. eauto.
    + unfold editTitle, print, log, ret, bind, bump, set_catalog, get_world.
      simpl. rewrite Nat.add_1_r, <- !app_assoc. simpl.
      destruct (edit_title_error sv index t) as [e|]; simpl.
      * eauto.
      * do 2 eexists. split; [reflexivity|]. right. eauto.
  - unfold bump. simpl. rewrite Nat.add_1_r. eauto.
Qed.

Lemma generate_and_apply_result index rel cur c (w : world) :
  fst (generate_and_apply sv config dry_run index rel cur c w)
  = Return (incr_processed c) \/
  exists e, fst (generate_and_apply sv config dry_run index rel cur c w)
            = Raise e.
Proof.
  destruct (generate_and_apply_cases sv config dry_run index rel cur c w)
    as [[w' E] | (e & w' & E & _)]; rewrite E; simpl; eauto.
Qed.

(** One pass through the loop body, in full: what it returns, how many
    requests it sends and what it may change. *)
Lemma process_item_frame index it c (w : world) :
  exists k evs cat,
    snd (process_item sv config dry_run locations index it c w)
    = World (creds_file w) (tty w) cat (llm_calls w + k) (trace w ++ evs) /\
    (cat = catalog w \/
     dry_run = false /\ is_title_locked it = false /\
     get_item_filepaths it <> [] /\
     exists t, cat = set_title_at index t (catalog w)) /\
    match fst (process_item sv config dry_run locations index it c w) with
    | Return c' =>
        Z.of_nat k = (processed c' - processed c) + (errors c' - errors c)
    | Raise _ => True
    end.
Proof.
  destruct (get_item_filepaths it) as [|filepath more] eqn:Hf.
  - rewrite process_item_no_file by assumption.
    exists 0%nat, [], (catalog w). simpl.
    rewrite Nat.add_0_r, app_nil_r. destruct w. simpl.
    repeat split; auto. lia.
  - destruct (is_title_locked it) eqn:Hl.
    + erewrite process_item_locked by eassumption.
      exists 0%nat. do 2 eexists. simpl. rewrite Nat.add_0_r.
      repeat split; auto. lia.
    + erewrite process_item_eligible by eassumption.
      unfold try_except.
      destruct (generate_and_apply_frame index
                  (get_relative_path filepath locations) (item_title it) c w)
        as (evs & cat & Hw & Hcat).
      pose proof (generate_and_apply_result index
                    (get_relative_path filepath locations) (item_title it)
                    c w) as Hr.
      destruct (generate_and_apply sv config dry_run index
                  (get_relative_path filepath locations) (item_title it) c w)
        as [r w1].
      simpl in Hw, Hr, Hcat. subst w1.
      assert (Hcat' :
        cat = catalog w \/
        dry_run = false /\ false = false /\ filepath :: more <> [] /\
        exists t, cat = set_title_at index t (catalog w)).
      { destruct Hcat as [->|(Hd & t & -> & _)]; [now left|].
        right. repeat split; auto; [discriminate | eauto]. }
      destruct Hr as [-> | [e ->]].
      * exists 1%nat, evs, cat. simpl. rewrite Nat.add_1_r.
        repeat split; auto. lia.
      * destruct (is_Exception e).
        -- unfold bind, print, log, ret. simpl.
           exists 1%nat. do 2 eexists. rewrite Nat.add_1_r, <- app_assoc.
           split; [reflexivity|]. split; [exact Hcat'|]. simpl. lia.
        -- exists 1%nat, evs, cat. simpl. rewrite Nat.add_1_r.
           repeat split; auto.
Qed.

Lemma nth_error_set_title_at_other (items : list item) (t : str) :
  forall i j, i <> j ->
  nth_error (set_title_at i t items) j = nth_error items j.
Proof.
  induction items as [|it items IH]; intros i j Hij.
  - destruct i; reflexivity.
  - destruct i as [|i], j as [|j]; simpl; auto; try congruence.
Qed.

Lemma map_set_title_at {B} (g : item -> B) (items : list item) (t : str) :
  (forall it t', g (edited t' it) = g it) ->
  forall i, map g (set_title_at i t items) = map g items.
Proof.
  intros Hg. induction items as [|it items IH]; intros i.
  - destruct i; reflexivity.
  - destruct i as [|i]; simpl; [now rewrite Hg | now rewrite IH].
Qed.

Lemma lock_title_idem (fields : list field) :
  lock_title (lock_title fields) = lock_title fields.
Proof.
  induction fields as [|f rest IH]; simpl.
  - reflexivity.
  - destruct (str_eqb (field_name f) (lit "title")) eqn:E; simpl; rewrite E.
    + reflexivity.
    + now rewrite IH.
Qed.

Lemma lock_title_locks (fields : list field) :
  existsb (fun f => str_eqb (field_name f) (lit "title") && field_locked f)
          (lock_title fields)
  = true.
Proof.
  induction fields as [|f rest IH]; simpl.
  - reflexivity.
  - destruct (str_eqb (field_name f) (lit "title")) eqn:E; simpl; rewrite E.
    + reflexivity.
    + exact IH.
Qed.

(** An edited title is a locked title. *)
Lemma is_title_locked_edited (t : str) (it : item) :
  is_title_locked (edited t it) = true.
Proof.
  unfold is_title_locked, edited. cbn [item_fields].
  pose proof (lock_title_locks
                match item_fields it with Some fs => fs | None => [] end) as H.
  destruct (lock_title _); [discriminate|exact H].
Qed.

Lemma edited_edited (t1 t2 : str) (it : item) :
  edited t2 (edited t1 it) = edited t2 it.
Proof. unfold edited. cbn [item_fields item_parts]. now rewrite lock_title_idem. Qed.

Lemma retitled_refl (it : item) : retitled it it.
Proof. now left. Qed.

Lemma retitled_edited (t : str) (it : item) : retitled it (edited t it).
Proof. right. split; [eauto|apply is_title_locked_edited]. Qed.

Lemma retitled_trans (a b c : item) :
  retitled a b -> retitled b c -> retitled a c.
Proof.
  intros [->|[[t1 ->] L1]] [->|[[t2 ->] L2]].
  - apply retitled_refl.
  - apply retitled_edited.
  - apply retitled_edited.
  - rewrite edited_edited. apply retitled_edited.
Qed.

Lemma Forall2_retitled_refl (items : list item) : Forall2 retitled items items.
Proof. induction items; constructor; [apply retitled_refl|assumption]. Qed.

Lemma Forall2_retitled_trans (a b c : list item) :
  Forall2 retitled a b -> Forall2 retitled b c -> Forall2 retitled a c.
Proof.
  intros Hab. revert c. induction Hab as [|x y a b Hxy Hab IH]; intros c Hbc.
  - inversion Hbc. constructor.
  - inversion Hbc as [|y' z b' c' Hyz Hbc']; subst.
    constructor; [eapply retitled_trans; eassumption|now apply IH].
Qed.

Lemma Forall2_retitled_set_title_at (items : list item) (t : str) :
  forall i, Forall2 retitled items (set_title_at i t items).
Proof.
  induction items as [|it items IH]; intros i.
  - destruct i; constructor.
  - destruct i as [|i]; simpl; constructor.
    + apply retitled_edited.
    + apply Forall2_retitled_refl.
    + apply retitled_refl.
    + apply IH.
Qed.

(** The loop over any stretch of the library: what it may have changed
    when it ends, normally or not. *)
Lemma process_items_frame items : forall index c (w : world),
  let run := process_items sv config dry_run locations index items c w in
  creds_file (snd run) = creds_file w /\
  tty (snd run) = tty w /\
  Forall2 retitled (catalog w) (catalog (snd run)) /\
  map item_parts (catalog (snd run)) = map item_parts (catalog w) /\
  (forall j,
     (forall it, nth_error items (j - index) = Some it ->
                 (index <= j)%nat ->
                 is_title_locked it = true \/ get_item_filepaths it = [] \/
                 dry_run = true) ->
     nth_error (catalog (snd run)) j = nth_error (catalog w) j) /\
  match fst run with
  | Return c' =>
      Z.of_nat (llm_calls (snd run))
      = Z.of_nat (llm_calls w)
        + (processed c' - processed c) + (errors c' - errors c)
  | Raise _ => True
  end.
Proof.
  induction items as [|it rest IH]; intros index c w run; subst run.
  - simpl. split; [reflexivity|]. split; [reflexivity|].
    split; [apply Forall2_retitled_refl|]. split; [reflexivity|].
    split; [reflexivity|lia].
  - cbn [process_items]. unfold bind.
    destruct (process_item_frame index it c w)
      as (k & evs & cat & Hw & Hcat & Hk).
    destruct (process_item sv config dry_run locations index it c w)
      as [[c1|e] w1]; simpl in Hw, Hk; subst w1.
    + specialize (IH (S index) c1
                     (World (creds_file w) (tty w) cat (llm_calls w + k)
                            (trace w ++ evs))).
      cbv zeta in IH. simpl in IH.
      destruct IH as (H1 & H2 & H3 & H4 & H5 & H6).
      split; [exact H1|]. split; [exact H2|].
      assert (Hmaps : Forall2 retitled (catalog w) cat /\
                      map item_parts cat = map item_parts (catalog w)).
      { destruct Hcat as [->|(_ & _ & _ & t & ->)].
        - split; [apply Forall2_retitled_refl|reflexivity].
        - split; [apply Forall2_retitled_set_title_at|].
          apply map_set_title_at; reflexivity. }
      destruct Hmaps as [Hm1 Hm2].
      split; [eapply Forall2_retitled_trans; eassumption|].
      split; [now rewrite H4|]. split.
      * intros j Hj. rewrite H5.
        -- destruct Hcat as [->|(Hd & Hl & Hf & t & ->)]; [reflexivity|].
           destruct (Nat.eq_dec index j) as [<-|Hne].
           ++ specialize (Hj it). rewrite Nat.sub_diag in Hj.
              destruct (Hj eq_refl (le_n _)) as [H|[H|H]]; congruence.
           ++ now apply nth_error_set_title_at_other.
        -- intros it' Hn Hle. apply Hj; [|lia].
           replace (j - index)%nat with (S (j - S index)) by lia.
           exact Hn.
      * destruct (fst (process_items sv config dry_run locations (S index)
                         rest c1 _)); [|exact I].
        rewrite H6, Nat2Z.inj_add. lia.
    + simpl. split; [reflexivity|]. split; [reflexivity|].
      assert (Hmaps : Forall2 retitled (catalog w) cat /\
                      map item_parts cat = map item_parts (catalog w)).
      { destruct Hcat as [->|(_ & _ & _ & t & ->)].
        - split; [apply Forall2_retitled_refl|reflexivity].
        - split; [apply Forall2_retitled_set_title_at|].
          apply map_set_title_at; reflexivity. }
      destruct Hmaps as [Hm1 Hm2].
      split; [exact Hm1|]. split; [exact Hm2|]. split; [|exact I].
      intros j Hj.
      destruct Hcat as [->|(Hd & Hl & Hf & t & ->)]; [reflexivity|].
      destruct (Nat.eq_dec index j) as [<-|Hne].
      * specialize (Hj it). rewrite Nat.sub_diag in Hj.
        destruct (Hj eq_refl (le_n _)) as [H|[H|H]]; congruence.
      * now apply nth_error_set_title_at_other.
Qed.

End BatchMore.

Section BatchRuns.

Variables (sv : services) (library : LibrarySection) (config : AIConfig)
          (dry_run : bool).

Lemma header_world_frame (w : world) :
  creds_file (header_world library w) = creds_file w /\
  tty (header_world library w) = tty w /\
  catalog (header_world library w) = catalog w /\
  llm_calls (header_world library w) = llm_calls w.
Proof. repeat split; reflexivity. Qed.

(** The summary changes nothing but the trace. *)
Lemma process_library_items_world (w : world) :
  let scan := snd (scan_library sv library config dry_run w) in
  let run := snd (process_library_items sv library config dry_run w) in
  creds_file run = creds_file scan /\ tty run = tty scan /\
  catalog run = catalog scan /\ llm_calls run = llm_calls scan.
Proof.
  unfold process_library_items, bind.
  destruct (scan_library sv library config dry_run w) as [[c|e] w1]; simpl.
  - rewrite print_summary_run. simpl. auto.
  - auto.
Qed.

(** X14.  One request per attempted item, and none for the others: when the
    loop ends, the number of requests sent to the language model is the
    number of items processed plus the number of errors. *)
Theorem one_request_per_attempted_item (w w' : world) (c : counters) :
  scan_library sv library config dry_run w = (Return c, w') ->
  Z.of_nat (llm_calls w') = Z.of_nat (llm_calls w) + processed c + errors c.
Proof.
  rewrite scan_library_run. intros H.
  pose proof (process_items_frame sv config dry_run
                (library_locations library) (catalog w) 0 counters_zero
                (header_world library w)) as Hf.
  cbv zeta in Hf. rewrite H in Hf. simpl in Hf.
  destruct Hf as (_ & _ & _ & _ & _ & Hn). lia.
Qed.

(** X15.  A locked title is never overwritten, and neither is the title of
    an item without a file: whatever the mode and however the run ends,
    such an item is on the server afterwards exactly as it was before. *)
Theorem skipped_items_are_untouched (w : world) (j : nat) (it : item) :
  nth_error (catalog w) j = Some it ->
  is_title_locked it = true \/ get_item_filepaths it = [] ->
  nth_error (catalog (snd (process_library_items sv library config dry_run w)))
            j
  = Some it.
Proof.
  intros Hj Hskip.
  destruct (process_library_items_world w) as (_ & _ & -> & _).
  rewrite scan_library_run.
  pose proof (process_items_frame sv config dry_run
                (library_locations library) (catalog w) 0 counters_zero
                (header_world library w)) as Hf.
  cbv zeta in Hf. destruct Hf as (_ & _ & _ & _ & Hn & _).
  rewrite Hn; [exact Hj|].
  intros it' Hit' _. rewrite Nat.sub_0_r in Hit'.
  change (catalog (header_world library w)) with (catalog w) in *.
  rewrite Hj in Hit'. injection Hit' as <-.
  destruct Hskip; auto.
Qed.

(** X16.  A batch run changes titles, locks the titles it sets, and does
    nothing else to the world: the credential file and the terminal are not
    touched, the library keeps its items in their order, every item keeps
    its file parts, and every item is afterwards either exactly as it was or
    the item it was with a new title and with its title locked, the way
    [editTitle] leaves it. *)
Theorem batch_changes_titles_only (w : world) :
  let w' := snd (process_library_items sv library config dry_run w) in
  creds_file w' = creds_file w /\
  tty w' = tty w /\
  length (catalog w') = length (catalog w) /\
  map item_parts (catalog w') = map item_parts (catalog w) /\
  Forall2 retitled (catalog w) (catalog w').
Proof.
  cbv zeta.
  destruct (process_library_items_world w) as (-> & -> & -> & _).
  rewrite scan_library_run.
  pose proof (process_items_frame sv config dry_run
                (library_locations library) (catalog w) 0 counters_zero
                (header_world library w)) as Hf.
  cbv zeta in Hf. destruct Hf as (H1 & H2 & H3 & H4 & _).
  change (catalog (header_world library w)) with (catalog w) in *.
  split; [exact H1|]. split; [exact H2|]. split; [|split; [exact H4|exact H3]].
  rewrite <- (length_map item_parts), H4. apply length_map.
Qed.

End BatchRuns.

(** Two movies, one eligible: one request. *)
Lemma one_request_per_attempted_item_witness :
  scan_library helpful_services movies sample_config false
    (fresh_world Missing [] two_movies)
  = (Return (Counters 1 1 0 0),
     snd (scan_library helpful_services movies sample_config false
            (fresh_world Missing [] two_movies))) /\
  Z.of_nat
    (llm_calls (snd (scan_library helpful_services movies sample_config false
                       (fresh_world Missing [] two_movies))))
  = 0 + 1 + 0.
Proof.
  split; [reflexivity|].
  apply (one_request_per_attempted_item helpful_services movies sample_config
           false (fresh_world Missing [] two_movies) _ (Counters 1 1 0 0)).
  reflexivity.
Defined.

(** The locked movie keeps its title in a real run. *)
Lemma skipped_items_are_untouched_witness :
  is_title_locked (movie (lit "Heat") true (lit "/media/Movies/Heat.mkv"))
  = true /\
  nth_error
    (catalog (snd (process_library_items helpful_services movies
                     sample_config false
                     (fresh_world Missing [] two_movies))))
    1
  = Some (movie (lit "Heat") true (lit "/media/Movies/Heat.mkv")).
Proof.
  split; [reflexivity|].
  apply (skipped_items_are_untouched helpful_services movies sample_config
           false (fresh_world Missing [] two_movies) 1
           (movie (lit "Heat") true (lit "/media/Movies/Heat.mkv")));
    [reflexivity | left; reflexivity].
Defined.

(** A real run locks what it retitles: afterwards both movies are locked,
    and a second real run skips both. *)
Example real_run_locks_the_titles :
  map is_title_locked
    (catalog (snd (process_library_items helpful_services movies
                     sample_config false
                     (fresh_world Missing [] two_movies))))
  = [true; true] /\
  fst (scan_library helpful_services movies sample_config false
         (snd (process_library_items helpful_services movies sample_config
                 false (fresh_world Missing [] two_movies))))
  = Return (Counters 0 2 0 0).
Proof. split; vm_compute; reflexivity. Qed.

Section PreviewPredictsApply.

Variables (sv : services) (config : AIConfig) (locations : list str).

Hypothesis edits_accepted : forall i t, edit_title_error sv i t = None.

Lemma generate_and_apply_modes index rel cur c (w w2 : world) :
  llm_calls w2 = llm_calls w ->
  fst (generate_and_apply sv config false index rel cur c w2)
  = fst (generate_and_apply sv config true index rel cur c w) /\
  llm_calls (snd (generate_and_apply sv config false index rel cur c w2))
  = llm_calls (snd (generate_and_apply sv config true index rel cur c w)).
Proof.
  intros Hn. rewrite generate_and_apply_dry.
  unfold generate_and_apply, bind.
  pose proof (generate_title_world sv config rel w2) as Hw.
  pose proof (generate_title_result sv config rel w2) as Hr.
  rewrite generate_title_result. rewrite Hn in Hr.
  destruct (generate_title sv config rel w2) as [r w1]; simpl in Hw, Hr.
  subst w1 r.
  destruct (match chat_create sv (llm_calls w) _ with
            | Return _ => _ | Raise e => Raise e end) as [t|e].
  - unfold editTitle, print, log, ret, bind, set_catalog, get_world. simpl.
    rewrite edits_accepted. simpl. now rewrite Hn.
  - simpl. now rewrite Hn.
Qed.

Lemma process_item_modes index it c (w w2 : world) :
  llm_calls w2 = llm_calls w ->
  fst (process_item sv config false locations index it c w2)
  = fst (process_item sv config true locations index it c w) /\
  llm_calls (snd (process_item sv config false locations index it c w2))
  = llm_calls (snd (process_item sv config true locations index it c w)).
Proof.
  intros Hn.
  destruct (get_item_filepaths it) as [|filepath more] eqn:Hf.
  - rewrite !process_item_no_file by assumption. auto.
  - destruct (is_title_locked it) eqn:Hl.
    + rewrite !(process_item_locked _ _ _ _ _ _ _ _ _ _ Hf Hl). auto.
    + rewrite !(process_item_eligible _ _ _ _ _ _ _ _ _ _ Hf Hl).
      unfold try_except.
      destruct (generate_and_apply_modes index
                  (get_relative_path filepath locations) (item_title it)
                  c w w2 Hn) as [Hr Hw].
      destruct (generate_and_apply sv config false index _ _ c w2)
        as [r2 w2'].
      destruct (generate_and_apply sv config true index _ _ c w)
        as [r1 w1'].
      simpl in Hr, Hw. subst r2.
      destruct r1 as [c1|e]; [auto|].
      destruct (is_Exception e); [|auto].
      unfold bind, print, log, ret. simpl. auto.
Qed.

Lemma process_items_modes items : forall index c (w w2 : world),
  llm_calls w2 = llm_calls w ->
  fst (process_items sv config false locations index items c w2)
  = fst (process_items sv config true locations index items c w) /\
  llm_calls (snd (process_items sv config false locations index items c w2))
  = llm_calls (snd (process_items sv config true locations index items c w)).
Proof.
  induction items as [|it rest IH]; intros index c w w2 Hn.
  - simpl. auto.
  - cbn [process_items]. unfold bind.
    destruct (process_item_modes index it c w w2 Hn) as [Hr Hw].
    destruct (process_item sv config false locations index it c w2)
      as [r2 w2'].
    destruct (process_item sv config true locations index it c w)
      as [r1 w1'].
    simpl in Hr, Hw. subst r2.
    destruct r1 as [c1|e]; [|auto].
    apply IH. exact Hw.
Qed.

End PreviewPredictsApply.

(** X17.  The preview predicts the real run: if the server accepts every
    edit, a real run over the same library with the same answers of the
    language model ends with the counters the preview showed and has sent
    as many requests. *)
Theorem preview_predicts_apply (sv : services) (library : LibrarySection)
  (config : AIConfig) (w : world) :
  (forall i t, edit_title_error sv i t = None) ->
  fst (scan_library sv library config false w)
  = fst (scan_library sv library config true w) /\
  llm_calls (snd (scan_library sv library config false w))
  = llm_calls (snd (scan_library sv library config true w)).
Proof.
  intros H. rewrite !scan_library_run.
  now apply process_items_modes.
Qed.

(** The two modes on the two movies. *)
Lemma preview_predicts_apply_witness :
  (forall i t, edit_title_error helpful_services i t = None) /\
  fst (scan_library helpful_services movies sample_config false
         (fresh_world Missing [] two_movies))
  = fst (scan_library helpful_services movies sample_config true
           (fresh_world Missing [] two_movies)).
Proof.
  split; [reflexivity|].
  apply (preview_predicts_apply helpful_services movies sample_config
           (fresh_world Missing [] two_movies)).
  reflexivity.
Defined.

(* ===================================================================== *)
(** * Further properties: what a computation may do to the world *)
(* ===================================================================== *)

Section Follows.

Variables (P : event -> bool) (fixed : bool).

Lemma follows_refl (w : world) : follows P fixed w w.
Proof.
  repeat split.
  - exists []. now rewrite app_nil_r.
  - now exists [].
Qed.

Lemma follows_trans (a b c : world) :
  follows P fixed a b -> follows P fixed b c -> follows P fixed a c.
Proof.
  intros ((e1 & H1 & P1) & (u1 & U1) & F1) ((e2 & H2 & P2) & (u2 & U2) & F2).
  repeat split.
  - exists (e1 ++ e2). rewrite H2, H1, app_assoc, forallb_app, P1, P2. auto.
  - exists (u1 ++ u2). now rewrite U1, U2, app_assoc.
  - intros H. now rewrite F2, F1.
Qed.

Lemma follows_after (w : world) (evs : list event) :
  forallb P evs = true -> follows P fixed w (after w evs).
Proof.
  intros H. repeat split.
  - now exists evs.
  - now exists [].
Qed.

Lemma follows_bump (w : world) (k : nat) (evs : list event) :
  forallb P evs = true -> follows P fixed w (bump w k evs).
Proof.
  intros H. repeat split.
  - now exists evs.
  - now exists [].
Qed.

Context {A B : Type}.

Lemma keeps_ret (a : A) : keeps P fixed (ret a).
Proof. intros w r w' [= <- <-]. apply follows_refl. Qed.

Lemma keeps_raise (e : exc) : keeps P fixed (@raise A e).
Proof. intros w r w' [= <- <-]. apply follows_refl. Qed.

Lemma keeps_pure (f : world -> outcome A) : keeps P fixed (fun w => (f w, w)).
Proof. intros w r w' [= <- <-]. apply follows_refl. Qed.

Lemma keeps_bind (m : M A) (k : A -> M B) :
  keeps P fixed m -> (forall a, keeps P fixed (k a)) ->
  keeps P fixed (bind m k).
Proof.
  intros Hm Hk w r w' H. unfold bind in H.
  destruct (m w) as [[a|e] w1] eqn:E.
  - eapply follows_trans; [eapply Hm; exact E | eapply Hk; exact H].
  - injection H as <- <-. eapply Hm. exact E.
Qed.

Lemma keeps_try_except (body : M A) catches (handler : exc -> M A) :
  keeps P fixed body -> (forall e, keeps P fixed (handler e)) ->
  keeps P fixed (try_except body catches handler).
Proof.
  intros Hb Hh w r w' H. unfold try_except in H.
  destruct (body w) as [[a|e] w1] eqn:E.
  - injection H as <- <-. eapply Hb. exact E.
  - destruct (catches e).
    + eapply follows_trans; [eapply Hb; exact E | eapply Hh; exact H].
    + injection H as <- <-. eapply Hb. exact E.
Qed.

End Follows.

Section FollowsBasics.

Variables (P : event -> bool) (fixed : bool).

Lemma keeps_log (ev : event) : P ev = true -> keeps P fixed (log ev).
Proof.
  intros H w r w' [= <- <-]. apply follows_after. simpl. now rewrite H.
Qed.

Lemma keeps_read_tty : keeps P fixed read_tty.
Proof.
  intros w r w' H. unfold read_tty in H.
  destruct (tty w) as [|i rest] eqn:T.
  - injection H as <- <-. apply follows_refl.
  - assert (F : follows P fixed w
                  (World (creds_file w) rest (catalog w) (llm_calls w)
                         (trace w))).
    { repeat split.
      - exists []. simpl. now rewrite app_nil_r.
      - exists [i]. simpl. exact T. }
    destruct i; injection H as <- <-; exact F.
Qed.

Lemma keeps_get_world : keeps P fixed get_world.
Proof. intros w r w' [= <- <-]. apply follows_refl. Qed.

Lemma keeps_set_catalog (c : list item) : keeps P fixed (set_catalog c).
Proof.
  intros w r w' [= <- <-]. repeat split.
  - exists []. simpl. now rewrite app_nil_r.
  - now exists [].
Qed.

Lemma keeps_sys_exit {A} (status : Z) : keeps P fixed (@sys_exit A status).
Proof. apply keeps_raise. Qed.

Hypothesis P_print : forall line, P (EvPrint line) = true.
Hypothesis P_input : forall prompt, P (EvInput prompt) = true.
Hypothesis P_getpass : forall prompt, P (EvGetpass prompt) = true.

Lemma keeps_print (line : str) : keeps P fixed (print line).
Proof. apply keeps_log, P_print. Qed.

Lemma keeps_input (prompt : str) : keeps P fixed (input prompt).
Proof.
  apply keeps_bind; [apply keeps_log, P_input|].
  intros _. apply keeps_read_tty.
Qed.

Lemma keeps_getpass (prompt : str) : keeps P fixed (getpass prompt).
Proof.
  apply keeps_bind; [apply keeps_log, P_getpass|].
  intros _. apply keeps_read_tty.
Qed.

Lemma keeps_cancelled {A} : keeps P fixed (@cancelled A).
Proof.
  apply keeps_bind; [apply keeps_print|]. intros _. apply keeps_sys_exit.
Qed.

Lemma keeps_print_lines (lines : list str) : keeps P fixed (print_lines lines).
Proof.
  induction lines as [|l rest IH]; simpl.
  - apply keeps_ret.
  - apply keeps_bind; [apply keeps_print | intros _; exact IH].
Qed.

Lemma keeps_while_true {A} (body : M (option A)) (rounds : nat) :
  keeps P fixed body -> keeps P fixed (while_true rounds body).
Proof.
  intros Hb. induction rounds as [|n IH]; simpl.
  - apply keeps_raise.
  - apply keeps_bind; [exact Hb|]. intros [a|]; [apply keeps_ret | exact IH].
Qed.

Lemma keeps_loop_on_terminal {A} (body : M (option A)) :
  keeps P fixed body -> keeps P fixed (loop_on_terminal body).
Proof.
  intros Hb w r w' H. unfold loop_on_terminal in H.
  eapply keeps_while_true; eassumption.
Qed.

Lemma keeps_index_list {A} (l : list A) (idx : Z) :
  keeps P fixed (index_list l idx).
Proof.
  unfold index_list. destruct (nth_error l (Z.to_nat idx));
    [apply keeps_ret | apply keeps_raise].
Qed.

End FollowsBasics.

(** A step of [keeps]: split binds and handlers, close the leaves. *)
Ltac keeps_step :=
  first
    [ apply keeps_print; assumption
    | apply keeps_input; assumption
    | apply keeps_getpass; assumption
    | apply keeps_cancelled; assumption
    | apply keeps_print_lines; assumption
    | apply keeps_sys_exit
    | apply keeps_index_list
    | apply keeps_read_tty
    | apply keeps_get_world
    | apply keeps_set_catalog
    | apply keeps_ret
    | apply keeps_raise
    | apply keeps_pure
    | apply keeps_log; solve [auto]
    | apply keeps_bind; [|intros ?]
    | apply keeps_try_except; [|intros ?] ].

Section FrontEndKeeps.

Variables (P : event -> bool) (fixed : bool) (fe : frontend).

Hypothesis P_print : forall line, P (EvPrint line) = true.
Hypothesis P_input : forall prompt, P (EvInput prompt) = true.
Hypothesis P_getpass : forall prompt, P (EvGetpass prompt) = true.

Lemma keeps_prompt_run_mode_round : keeps P fixed prompt_run_mode_round.
Proof.
  unfold prompt_run_mode_round.
  apply keeps_try_except; [|intros e; keeps_step].
  apply keeps_bind; [keeps_step|intros line].
  cbv zeta. destruct (str_eqb (strip line) (lit "1")); [keeps_step|].
  destruct (str_eqb (strip line) (lit "2")); [|repeat keeps_step].
  apply keeps_bind; [keeps_step|intros confirm].
  destruct (str_eqb (lower (strip confirm)) (lit "yes")); repeat keeps_step.
Qed.

Lemma keeps_prompt_run_mode : keeps P fixed prompt_run_mode.
Proof.
  unfold prompt_run_mode. do 4 (keeps_step; [keeps_step|]).
  apply keeps_loop_on_terminal; try assumption.
  apply keeps_prompt_run_mode_round.
Qed.

Lemma keeps_select_library_round (sections : list section) :
  keeps P fixed (select_library_round fe sections).
Proof.
  unfold select_library_round.
  apply keeps_try_except; [|intros e; keeps_step].
  apply keeps_try_except; [|intros e; repeat keeps_step].
  apply keeps_bind; [keeps_step|intros line].
  destruct (py_int fe (strip line)) as [n|]; [|repeat keeps_step].
  cbv zeta. destruct (in_range (n - 1) sections); repeat keeps_step.
Qed.

Lemma keeps_select_library (plex : PlexServer) (prompt : str) :
  keeps P fixed (select_library fe plex prompt).
Proof.
  unfold select_library. apply keeps_bind; [keeps_step|intros sections].
  destruct sections as [|s rest]; [repeat keeps_step|].
  do 3 (keeps_step; [keeps_step|]).
  apply keeps_loop_on_terminal; try assumption.
  apply keeps_select_library_round.
Qed.

Lemma keeps_resource_connect (r : resource) :
  keeps P fixed (resource_connect r).
Proof. unfold resource_connect. keeps_step. Qed.

Lemma keeps_select_server_round (resources : list resource) :
  keeps P fixed (select_server_round fe resources).
Proof.
  unfold select_server_round.
  apply keeps_try_except; [|intros e; keeps_step].
  apply keeps_try_except; [|intros e; repeat keeps_step].
  apply keeps_bind; [keeps_step|intros line].
  destruct (py_int fe (strip line)) as [n|]; [|repeat keeps_step].
  cbv zeta. destruct (in_range (n - 1) resources); [|repeat keeps_step].
  apply keeps_bind; [keeps_step|intros r].
  keeps_step; [keeps_step|].
  keeps_step; [apply keeps_resource_connect|keeps_step].
Qed.

Lemma keeps_select_server (account : MyPlexAccount) (prompt : str) :
  keeps P fixed (select_server fe account prompt).
Proof.
  unfold select_server. apply keeps_bind; [keeps_step|intros all].
  cbv zeta. destruct (filter provides_server all) as [|r [|r2 rest]].
  - repeat keeps_step.
  - keeps_step; [keeps_step|apply keeps_resource_connect].
  - do 3 (keeps_step; [keeps_step|]).
    apply keeps_loop_on_terminal; try assumption.
    apply keeps_select_server_round.
Qed.

Lemma keeps_load_config (path : str) : keeps P fixed (load_config fe path).
Proof.
  unfold load_config.
  destruct (config_file fe path) as [|msg|msg|d]; try solve [repeat keeps_step].
  keeps_step; [|keeps_step].
  destruct d; keeps_step.
Qed.

Lemma keeps_OpenAI_new (config : AIConfig) : keeps P fixed (OpenAI_new fe config).
Proof.
  unfold OpenAI_new.
  destruct (OpenAI_error fe (endpoint config) (api_key config)); keeps_step.
Qed.

Lemma keeps_connect_direct (url token : str) :
  keeps P fixed (connect_direct fe url token).
Proof. unfold connect_direct. keeps_step. Qed.

End FrontEndKeeps.

Section CredentialKeeps.

Variables (P : event -> bool) (sv : services).

Hypothesis P_print : forall line, P (EvPrint line) = true.
Hypothesis P_input : forall prompt, P (EvInput prompt) = true.
Hypothesis P_getpass : forall prompt, P (EvGetpass prompt) = true.
Hypothesis P_credential : forall ev, is_credential_event ev = true -> P ev = true.

Lemma keeps_load_cached_token : keeps P false load_cached_token.
Proof.
  intros w r w' E. rewrite load_cached_token_run in E.
  injection E as _ <-. apply follows_after. simpl.
  now rewrite P_credential.
Qed.

Lemma keeps_clear_cached_token : keeps P false (clear_cached_token sv).
Proof.
  intros w r w' E. rewrite clear_cached_token_run in E.
  injection E as _ <-. repeat split.
  - exists [EvClearCachedToken]. simpl. now rewrite P_credential.
  - now exists [].
  - discriminate.
Qed.

Lemma keeps_save_cached_token (token : str) :
  keeps P false (save_cached_token sv token).
Proof.
  intros w r w' E. rewrite save_cached_token_events in E.
  injection E as _ <-. repeat split.
  - eexists. split; [reflexivity|]. simpl.
    rewrite P_credential by reflexivity.
    destruct (creds_write_error sv token) as [[msg|msg remains]|],
      (creds_chmod_error sv token);
      simpl; rewrite ?P_print, ?P_credential; reflexivity.
  - now exists [].
  - discriminate.
Qed.

Lemma keeps_try_cached_token : keeps P false (try_cached_token sv).
Proof.
  unfold try_cached_token.
  apply keeps_bind; [apply keeps_load_cached_token|intros token].
  destruct (json_truthy token); [|keeps_step].
  apply keeps_try_except.
  - unfold MyPlexAccount_token. repeat keeps_step.
  - intros e. keeps_step; [keeps_step|].
    keeps_step; [apply keeps_clear_cached_token|keeps_step].
Qed.

Lemma keeps_password_sign_in (username password : option str) :
  keeps P false (password_sign_in sv username password).
Proof.
  unfold password_sign_in, MyPlexAccount_password.
  apply keeps_bind.
  { destruct (if negb (opt_truthy username) then _ else _) as [u|];
      [destruct (negb (truthy u))|]; repeat keeps_step. }
  intros u. apply keeps_bind.
  { destruct (if negb (opt_truthy password) then _ else _) as [p|];
      [destruct (negb (truthy p))|]; repeat keeps_step. }
  intros p. keeps_step; [keeps_step|].
  apply keeps_try_except; [keeps_step|intros e].
  destruct (asks_for_code e); repeat keeps_step.
Qed.

Lemma keeps_authenticate_myplex (username password : option str) :
  keeps P false (authenticate_myplex sv username password).
Proof.
  unfold authenticate_myplex.
  apply keeps_bind; [apply keeps_try_cached_token|intros [account|]].
  - keeps_step.
  - keeps_step; [apply keeps_password_sign_in|].
    keeps_step; [apply keeps_save_cached_token|].
    repeat keeps_step.
Qed.

End CredentialKeeps.

Section BatchKeeps.

Variables (P : event -> bool) (fixed : bool) (sv : services)
          (config : AIConfig).

Hypothesis P_print : forall line, P (EvPrint line) = true.
Hypothesis P_input : forall prompt, P (EvInput prompt) = true.
Hypothesis P_getpass : forall prompt, P (EvGetpass prompt) = true.
Hypothesis P_chat : forall req, P (EvChatCreate req) = true.
Hypothesis P_edit : forall i t, P (EvEditTitle i t) = true.

Lemma keeps_generate_title (filename : str) :
  keeps P fixed (generate_title sv config filename).
Proof.
  intros w r w' H.
  pose proof (generate_title_world sv config filename w) as Hw.
  rewrite H in Hw. simpl in Hw. subst w'.
  apply follows_bump. simpl. now rewrite P_chat.
Qed.

Lemma keeps_editTitle (index : nat) (title : str) :
  keeps P fixed (editTitle sv index title).
Proof.
  unfold editTitle. apply keeps_bind; [keeps_step|intros _].
  destruct (edit_title_error sv index title); repeat keeps_step.
Qed.

Lemma keeps_process_item dry_run locations index it c :
  keeps P fixed (process_item sv config dry_run locations index it c).
Proof.
  unfold process_item.
  destruct (get_item_filepaths it) as [|filepath more]; [keeps_step|].
  destruct (is_title_locked it); [repeat keeps_step|].
  cbv zeta. apply keeps_try_except; [|intros e; repeat keeps_step].
  unfold generate_and_apply.
  apply keeps_bind; [apply keeps_generate_title|intros new_title].
  apply keeps_bind; [|intros _; keeps_step].
  destruct dry_run.
  - repeat keeps_step.
  - apply keeps_bind; [keeps_step|intros _].
    apply keeps_bind; [keeps_step|intros _]. apply keeps_editTitle.
Qed.

Lemma keeps_process_items dry_run locations items : forall index c,
  keeps P fixed (process_items sv config dry_run locations index items c).
Proof.
  induction items as [|it rest IH]; intros index c; simpl.
  - keeps_step.
  - apply keeps_bind; [apply keeps_process_item|intros c']. apply IH.
Qed.

Lemma keeps_process_library_items library dry_run :
  keeps P fixed (process_library_items sv library config dry_run).
Proof.
  unfold process_library_items, scan_library, print_header, print_summary.
  apply keeps_bind.
  - apply keeps_bind; [keeps_step|intros w0]. cbv zeta.
    apply keeps_bind; [repeat keeps_step|intros _].
    apply keeps_process_items.
  - intros c. do 6 (apply keeps_bind; [keeps_step|intros _]).
    destruct dry_run; keeps_step.
Qed.

End BatchKeeps.

(* ===================================================================== *)
(** * Further properties: the prompts *)
(* ===================================================================== *)

Section RunMode.

(** One round of the run-mode prompt, by what the terminal delivers. *)
Lemma prompt_run_mode_round_cases (w : world) :
  match prompt_run_mode_round w with
  | (Return (Some true), w') =>
      exists l1 l2,
        tty w = Line l1 :: Line l2 :: tty w' /\
        strip l1 = lit "2" /\ lower (strip l2) = lit "yes"
  | (Return (Some false), w') => True
  | (Return None, w') => exists l1, tty w = Line l1 :: tty w'
  | (Raise e, w') =>
      e = exit_0 \/
      exists msg, In (Undecodable msg) (tty w) /\
                  e = Exc UnicodeDecodeError msg
  end.
Proof.
  unfold prompt_run_mode_round, try_except, bind, input, read_tty, log,
    cancelled, print, sys_exit, raise, ret.
  destruct w as [c t cat n tr]. simpl.
  destruct t as [|[l1| | |msg] t]; simpl; try (left; reflexivity);
    [|right; exists msg; split; [now left|reflexivity]].
  destruct (str_eqb (strip l1) (lit "1")) eqn:E1; simpl; [exact I|].
  destruct (str_eqb (strip l1) (lit "2")) eqn:E2; simpl; [|eauto].
  apply str_eqb_eq in E2.
  destruct t as [|[l2| | |msg] t]; simpl; try (left; reflexivity);
    [|right; exists msg; split; [right; now left|reflexivity]].
  destruct (str_eqb (lower (strip l2)) (lit "yes")) eqn:E3; simpl; [|exact I].
  apply str_eqb_eq in E3. eauto.
Qed.

Lemma prompt_run_mode_loop (rounds : nat) : forall w,
  (length (tty w) < rounds)%nat ->
  match while_true rounds prompt_run_mode_round w with
  | (Return true, w') =>
      exists before l1 l2,
        tty w = before ++ Line l1 :: Line l2 :: tty w' /\
        strip l1 = lit "2" /\ lower (strip l2) = lit "yes"
  | (Return false, _) => True
  | (Raise e, _) =>
      e = exit_0 \/
      exists msg, In (Undecodable msg) (tty w) /\
                  e = Exc UnicodeDecodeError msg
  end.
Proof.
  induction rounds as [|n IH]; intros w Hlen; [lia|].
  cbn [while_true]. unfold bind.
  pose proof (prompt_run_mode_round_cases w) as Hr.
  destruct (prompt_run_mode_round w) as [[[[|]|]|e] w1].
  - unfold ret. destruct Hr as (l1 & l2 & H). exists [], l1, l2. exact H.
  - exact I.
  - destruct Hr as (l1 & Ht).
    assert (Hlen1 : (length (tty w1) < n)%nat).
    { rewrite Ht in Hlen. simpl in Hlen. lia. }
    specialize (IH w1 Hlen1).
    destruct (while_true n prompt_run_mode_round w1) as [[[|]|e] w2].
    + destruct IH as (before & l2 & l3 & H & H2 & H3).
      exists (Line l1 :: before), l2, l3. rewrite Ht, H. auto.
    + exact I.
    + destruct IH as [->|(msg & Hin & ->)]; [now left|].
      right. exists msg. rewrite Ht. split; [now right|reflexivity].
  - exact Hr.
Qed.

Lemma prompt_run_mode_run (w : world) :
  prompt_run_mode w
  = while_true (S (length (tty w))) prompt_run_mode_round
      (after w run_mode_header).
Proof.
  unfold prompt_run_mode, bind, print, log, loop_on_terminal, after.
  simpl. rewrite <- !app_assoc. reflexivity.
Qed.

Lemma prompt_run_mode_true (w w' : world) :
  prompt_run_mode w = (Return true, w') ->
  exists before l1 l2,
    tty w = before ++ Line l1 :: Line l2 :: tty w' /\
    strip l1 = lit "2" /\ lower (strip l2) = lit "yes".
Proof.
  rewrite prompt_run_mode_run. intros H.
  pose proof (prompt_run_mode_loop (S (length (tty w)))
                (after w run_mode_header) (Nat.lt_succ_diag_r _)) as Hl.
  rewrite H in Hl. exact Hl.
Qed.

(** X18.  The prompt answers "real run" only to an explicit confirmation:
    the line read as the choice is [2] and the line read next is [yes],
    both up to surrounding whitespace and the second in any letter case. *)
Theorem real_run_needs_confirmation (w w' : world) :
  prompt_run_mode w = (Return true, w') ->
  exists before l1 l2,
    tty w = before ++ Line l1 :: Line l2 :: tty w' /\
    strip l1 = lit "2" /\ lower (strip l2) = lit "yes".
Proof. apply prompt_run_mode_true. Qed.

(** X19.  How the run-mode prompt ends, on a terminal that can be written
    to and whose every read delivers a line, the end of the input, an
    interrupt or bytes that are no text.  It returns a mode; or it leaves
    the program with exit status 0, after an interrupt or at the end of the
    input; or a line of the input was no text, and the [UnicodeDecodeError]
    of reading it comes out of the prompt, which has no handler for it.
    Nothing else comes out of it. *)
Theorem prompt_run_mode_returns_or_exits (w : world) :
  (exists real_run, fst (prompt_run_mode w) = Return real_run) \/
  fst (prompt_run_mode w) = Raise exit_0 \/
  exists msg,
    In (Undecodable msg) (tty w) /\
    fst (prompt_run_mode w) = Raise (Exc UnicodeDecodeError msg).
Proof.
  rewrite prompt_run_mode_run.
  pose proof (prompt_run_mode_loop (S (length (tty w)))
                (after w run_mode_header) (Nat.lt_succ_diag_r _)) as Hl.
  destruct (while_true _ _ _) as [[b|e] w']; simpl.
  - left. eauto.
  - right. destruct Hl as [->|(msg & Hin & ->)]; [now left|].
    right. exists msg. split; [exact Hin|reflexivity].
Qed.

End RunMode.

(** A wrong choice, then 2, then Yes. *)
Lemma real_run_needs_confirmation_witness :
  prompt_run_mode hesitant_world
  = (Return true, snd (prompt_run_mode hesitant_world)) /\
  exists before l1 l2,
    tty hesitant_world
    = before ++ Line l1 :: Line l2 :: tty (snd (prompt_run_mode hesitant_world))
    /\ strip l1 = lit "2" /\ lower (strip l2) = lit "yes".
Proof.
  split; [reflexivity|].
  apply (real_run_needs_confirmation hesitant_world). reflexivity.
Defined.

(** A line that is no text at the run-mode prompt: the error of reading it
    comes out of the prompt. *)
Example prompt_run_mode_undecodable :
  fst (prompt_run_mode
         (fresh_world Missing
            [Line (lit "3"); Undecodable (lit "invalid start byte")] []))
  = Raise (Exc UnicodeDecodeError (lit "invalid start byte")).
Proof. vm_compute. reflexivity. Qed.

Section SelectLibrary.

Variable fe : frontend.

Lemma in_range_nth_error {A} (idx : Z) (l : list A) :
  in_range idx l = true ->
  0 <= idx < Z.of_nat (length l) /\
  exists a, nth_error l (Z.to_nat idx) = Some a.
Proof.
  unfold in_range. intros H. apply andb_prop in H as [H1 H2].
  apply Z.leb_le in H1. apply Z.ltb_lt in H2. split; [lia|].
  destruct (nth_error l (Z.to_nat idx)) as [a|] eqn:E; [eauto|].
  apply nth_error_None in E. lia.
Qed.

(** One round of the library prompt, by what the terminal delivers. *)
Lemma select_library_round_cases (sections : list section) (w : world) :
  match select_library_round fe sections w with
  | (Return (Some s), w') =>
      exists l n,
        tty w = Line l :: tty w' /\ py_int fe (strip l) = Some n /\
        1 <= n <= Z.of_nat (length sections) /\
        nth_error sections (Z.to_nat (n - 1)) = Some s
  | (Return None, w') => exists i, tty w = i :: tty w'
  | (Raise e, w') => e = exit_0
  end.
Proof.
  unfold select_library_round, try_except, bind, input, read_tty, log,
    cancelled, print, sys_exit, raise, ret.
  destruct w as [c t cat k tr]. simpl.
  destruct t as [|[l| | |msg] t]; simpl; try reflexivity; [|eauto].
  destruct (py_int fe (strip l)) as [n|] eqn:En; simpl; [|eauto].
  destruct (in_range (n - 1) sections) eqn:Er; simpl; [|eauto].
  apply in_range_nth_error in Er as [Hn [s Hs]].
  unfold index_list. rewrite Hs. simpl.
  exists l, n. repeat split; auto; lia.
Qed.

Lemma select_library_loop (sections : list section) (rounds : nat) :
  forall w,
  (length (tty w) < rounds)%nat ->
  match while_true rounds (select_library_round fe sections) w with
  | (Return s, w') =>
      exists before l n,
        tty w = before ++ Line l :: tty w' /\ py_int fe (strip l) = Some n /\
        1 <= n <= Z.of_nat (length sections) /\
        nth_error sections (Z.to_nat (n - 1)) = Some s
  | (Raise e, _) => e = exit_0
  end.
Proof.
  induction rounds as [|m IH]; intros w Hlen; [lia|].
  cbn [while_true]. unfold bind.
  pose proof (select_library_round_cases sections w) as Hr.
  destruct (select_library_round fe sections w) as [[[s|]|e] w1].
  - unfold ret. destruct Hr as (l & n & H). exists [], l, n. exact H.
  - destruct Hr as (i & Ht).
    assert (Hlen1 : (length (tty w1) < m)%nat).
    { rewrite Ht in Hlen. simpl in Hlen. lia. }
    specialize (IH w1 Hlen1).
    destruct (while_true m (select_library_round fe sections) w1)
      as [[s|e] w2]; auto.
    destruct IH as (before & l2 & n & H & H2).
    exists (i :: before), l2, n. rewrite Ht, H. auto.
  - exact Hr.
Qed.

(** X20.  The library [select_library] returns is one of the sections of
    the server, namely the one whose number, counted from 1, was typed: a
    number out of range or a line that is no number is never taken. *)
Theorem select_library_returns_the_chosen (plex : PlexServer) (prompt : str)
  (w w' : world) (s : section) :
  select_library fe plex prompt w = (Return s, w') ->
  exists sections before l n,
    library_sections plex = Return sections /\
    tty w = before ++ Line l :: tty w' /\
    py_int fe (strip l) = Some n /\
    1 <= n <= Z.of_nat (length sections) /\
    nth_error sections (Z.to_nat (n - 1)) = Some s.
Proof.
  unfold select_library, bind.
  destruct (library_sections plex) as [sections|e] eqn:Es; [|discriminate].
  destruct sections as [|s0 rest] eqn:El; [discriminate|]. rewrite <- El.
  rewrite !print_run.
  set (lines := map library_line (enumerate 1 sections)).
  intros H.
  assert (Hk : keeps (fun _ => true) false (print_lines lines))
    by (apply keeps_print_lines; reflexivity).
  destruct (print_lines lines _) as [[[]|e] w1] eqn:Ep.
  - destruct (Hk _ _ _ Ep) as (_ & (used & Hu) & _).
    unfold loop_on_terminal in H.
    pose proof (select_library_loop sections (S (length (tty w1))) w1
                  (Nat.lt_succ_diag_r _)) as Hl.
    rewrite H in Hl. destruct Hl as (before & l & n & Ht & Hrest).
    exists sections, (used ++ before), l, n.
    split; [reflexivity|]. split; [|exact Hrest].
    simpl in Hu. rewrite Hu, Ht. now rewrite app_assoc.
  - discriminate.
Qed.

End SelectLibrary.

Lemma print_lines_run (lines : list str) : forall w,
  print_lines lines w = (Return tt, after w (map EvPrint lines)).
Proof.
  induction lines as [|l rest IH]; intros w; simpl.
  - unfold ret. now rewrite after_nil.
  - unfold bind. rewrite print_run, IH, after_after. reflexivity.
Qed.

Section SelectLibraryFailures.

Variable fe : frontend.

(** X21.  [select_library] fails in three ways only: the listing of the
    sections raised, and that exception is passed on untouched; the server
    has no sections, which is reported and ends the program with status 1
    before anything is read from the terminal; or the user cancelled, which
    ends the program with status 0. *)
Theorem select_library_failures (plex : PlexServer) (prompt : str)
  (w w' : world) (e : exc) :
  select_library fe plex prompt w = (Raise e, w') ->
  (library_sections plex = Raise e /\ w' = w) \/
  (library_sections plex = Return [] /\ e = exit_1 /\
   w' = after w [EvPrint (lit "No library sections found on server.")]) \/
  e = exit_0.
Proof.
  unfold select_library, bind.
  destruct (library_sections plex) as [sections|e0] eqn:Es.
  - destruct sections as [|s0 rest] eqn:El.
    + rewrite print_run. intros [= <- <-]. right. left. auto.
    + rewrite <- El. rewrite !print_run, print_lines_run.
      unfold loop_on_terminal. intros H.
      match type of H with
      | while_true ?n _ ?w1 = _ =>
          pose proof (select_library_loop fe sections n w1
                        (Nat.lt_succ_diag_r _)) as Hl
      end.
      rewrite H in Hl. right. right. exact Hl.
  - intros [= <- <-]. left. auto.
Qed.

End SelectLibraryFailures.

(** The second of two libraries is chosen. *)
Lemma select_library_returns_the_chosen_witness :
  select_library sample_frontend home_server (lit "Select library:")
    (fresh_world Missing [Line (lit "x"); Line (lit "2")] [])
  = (Return (Section_ shows (lit "show")),
     snd (select_library sample_frontend home_server (lit "Select library:")
            (fresh_world Missing [Line (lit "x"); Line (lit "2")] []))) /\
  exists sections before l n,
    library_sections home_server = Return sections /\
    [Line (lit "x"); Line (lit "2")]
    = before ++ Line l ::
      tty (snd (select_library sample_frontend home_server
                  (lit "Select library:")
                  (fresh_world Missing [Line (lit "x"); Line (lit "2")] [])))
    /\
    decimal_int (strip l) = Some n /\
    1 <= n <= Z.of_nat (length sections) /\
    nth_error sections (Z.to_nat (n - 1)) = Some (Section_ shows (lit "show")).
Proof.
  split; [reflexivity|].
  apply (select_library_returns_the_chosen sample_frontend home_server
           (lit "Select library:")
           (fresh_world Missing [Line (lit "x"); Line (lit "2")] [])).
  reflexivity.
Defined.

(** End of input at the library prompt. *)
Lemma select_library_failures_witness :
  select_library sample_frontend home_server (lit "Select library:")
    (fresh_world Missing [] [])
  = (Raise exit_0,
     snd (select_library sample_frontend home_server (lit "Select library:")
            (fresh_world Missing [] []))) /\
  ((library_sections home_server = Raise exit_0 /\
    snd (select_library sample_frontend home_server (lit "Select library:")
           (fresh_world Missing [] []))
    = fresh_world Missing [] []) \/
   (library_sections home_server = Return [] /\ exit_0 = exit_1 /\
    snd (select_library sample_frontend home_server (lit "Select library:")
           (fresh_world Missing [] []))
    = after (fresh_world Missing [] [])
        [EvPrint (lit "No library sections found on server.")]) \/
   exit_0 = exit_0).
Proof.
  split; [reflexivity|].
  apply (select_library_failures sample_frontend home_server
           (lit "Select library:") (fresh_world Missing [] [])).
  reflexivity.
Defined.

(** A line that is no text at the library prompt is answered like a line
    that is no number, and the prompt asks again. *)
Example select_library_undecodable :
  select_library sample_frontend home_server (lit "Select library:")
    (fresh_world Missing
       [Undecodable (lit "invalid start byte"); Line (lit "2")] [])
  = (Return (Section_ shows (lit "show")),
     World Missing [] [] 0
       (map EvPrint
          [nl ++ lit "Select library:"; lit "Available libraries:";
           lit "  1. Movies (movie)"; lit "  2. Shows (show)"]
        ++ [EvInput (nl ++ lit "Select a library (number): ");
            EvPrint (lit "Please enter a valid number");
            EvInput (nl ++ lit "Select a library (number): ")])).
Proof. vm_compute. reflexivity. Qed.

Section SelectServer.

Variable fe : frontend.

(** One round of the server prompt: a server comes from the [connect] of
    the resource whose number was typed; a round that asks again has read a
    line; what is raised is the exit after a cancellation or comes from a
    [connect]. *)
Lemma select_server_round_cases (resources : list resource) (w : world) :
  match select_server_round fe resources w with
  | (Return (Some server), w') =>
      exists r, In r resources /\ connect r = Return server
  | (Return None, w') => exists i, tty w = i :: tty w'
  | (Raise e, w') =>
      e = exit_0 \/ exists r, In r resources /\ connect r = Raise e
  end.
Proof.
  unfold select_server_round, try_except, bind, input, read_tty, log,
    cancelled, print, sys_exit, raise, ret.
  destruct w as [c t cat k tr]. simpl.
  destruct t as [|[l| | |msg] t]; simpl; try (left; reflexivity); [|eauto].
  destruct (py_int fe (strip l)) as [n|] eqn:En; simpl; [|eauto].
  destruct (in_range (n - 1) resources) eqn:Er; simpl; [|eauto].
  apply in_range_nth_error in Er as [Hn [r Hr]].
  unfold index_list. rewrite Hr. simpl.
  apply nth_error_In in Hr.
  unfold resource_connect.
  destruct (connect r) as [server|e] eqn:Ec; simpl; [eauto|].
  destruct (is_ValueError e); simpl; [eauto|].
  destruct (is_KeyboardInterrupt_or_EOFError e); simpl; [now left|].
  right. eauto.
Qed.

Lemma select_server_loop (resources : list resource) (rounds : nat) :
  forall w,
  (length (tty w) < rounds)%nat ->
  match while_true rounds (select_server_round fe resources) w with
  | (Return server, w') =>
      exists r, In r resources /\ connect r = Return server
  | (Raise e, _) =>
      e = exit_0 \/ exists r, In r resources /\ connect r = Raise e
  end.
Proof.
  induction rounds as [|m IH]; intros w Hlen; [lia|].
  cbn [while_true]. unfold bind.
  pose proof (select_server_round_cases resources w) as Hr.
  destruct (select_server_round fe resources w) as [[[s|]|e] w1].
  - exact Hr.
  - destruct Hr as (l & Ht). apply IH.
    rewrite Ht in Hlen. simpl in Hlen. lia.
  - exact Hr.
Qed.

Lemma Forall_server_round_event_app resources (a b : list event) :
  Forall (server_round_event resources) a ->
  Forall (server_round_event resources) b ->
  Forall (server_round_event resources) (a ++ b).
Proof. intros Ha Hb. apply Forall_app. auto. Qed.

(** What one round of the server prompt adds to the trace. *)
Lemma select_server_round_events (resources : list resource) (w : world) :
  exists evs,
    trace (snd (select_server_round fe resources w)) = trace w ++ evs /\
    Forall (server_round_event resources) evs.
Proof.
  assert (Hprompt : server_round_event resources
                      (EvInput (nl ++ lit "Select a server (number): ")))
    by (left; reflexivity).
  assert (Hvalid : server_round_event resources
                     (EvPrint (lit "Please enter a valid number")))
    by (right; left; reflexivity).
  assert (Hrange : server_round_event resources
                     (EvPrint (between_1_and resources)))
    by (right; right; left; reflexivity).
  assert (Hcancel : server_round_event resources
                      (EvPrint (nl ++ lit "Cancelled.")))
    by (right; right; right; left; reflexivity).
  assert (Hconn : forall r, In r resources ->
                    server_round_event resources (EvPrint (connecting_to r)))
    by (intros r Hr; right; right; right; right; eauto).
  assert (H1 : forall tr a,
             Forall (server_round_event resources) [a] ->
             exists evs, tr ++ [a] = tr ++ evs /\
                         Forall (server_round_event resources) evs)
    by (intros tr a H; now exists [a]).
  assert (H2 : forall tr a b,
             Forall (server_round_event resources) [a; b] ->
             exists evs, (tr ++ [a]) ++ [b] = tr ++ evs /\
                         Forall (server_round_event resources) evs)
    by (intros tr a b H; exists [a; b]; now rewrite <- app_assoc).
  assert (H3 : forall tr a b c,
             Forall (server_round_event resources) [a; b; c] ->
             exists evs, ((tr ++ [a]) ++ [b]) ++ [c] = tr ++ evs /\
                         Forall (server_round_event resources) evs)
    by (intros tr a b c H; exists [a; b; c]; now rewrite <- !app_assoc).
  unfold select_server_round, try_except, bind, input, read_tty, log,
    cancelled, print, sys_exit, raise, ret.
  destruct w as [c t cat k tr]. simpl.
  destruct t as [|[l| | |msg] t]; simpl;
    try (apply H2; repeat (apply Forall_cons; [assumption|]);
         apply Forall_nil).
  destruct (py_int fe (strip l)) as [n|] eqn:En; simpl;
    try (apply H2; repeat (apply Forall_cons; [assumption|]);
         apply Forall_nil).
  destruct (in_range (n - 1) resources) eqn:Er; simpl;
    try (apply H2; repeat (apply Forall_cons; [assumption|]);
         apply Forall_nil).
  apply in_range_nth_error in Er as [Hn [r Hr]].
  unfold index_list. rewrite Hr. simpl.
  apply nth_error_In in Hr. specialize (Hconn r Hr).
  unfold resource_connect.
  destruct (connect r) as [server|e]; simpl.
  - apply H2; repeat (apply Forall_cons; [assumption|]); apply Forall_nil.
  - destruct (is_ValueError e); simpl.
    + apply H3; repeat (apply Forall_cons; [assumption|]); apply Forall_nil.
    + destruct (is_KeyboardInterrupt_or_EOFError e); simpl.
      * apply H3; repeat (apply Forall_cons; [assumption|]); apply Forall_nil.
      * apply H2; repeat (apply Forall_cons; [assumption|]); apply Forall_nil.
Qed.

Lemma select_server_loop_events (resources : list resource) (rounds : nat) :
  forall w,
  exists evs,
    trace (snd (while_true rounds (select_server_round fe resources) w))
    = trace w ++ evs /\
    Forall (server_round_event resources) evs.
Proof.
  induction rounds as [|m IH]; intros w.
  - exists []. simpl. split; [now rewrite app_nil_r|constructor].
  - cbn [while_true]. unfold bind.
    destruct (select_server_round_events resources w) as (e1 & H1 & F1).
    destruct (select_server_round fe resources w) as [[[s|]|e] w1];
      simpl in H1.
    + exists e1. auto.
    + destruct (IH w1) as (e2 & H2 & F2).
      exists (e1 ++ e2). rewrite H2, H1, app_assoc.
      split; [reflexivity|]. now apply Forall_server_round_event_app.
    + exists e1. auto.
Qed.

(** X22.  [select_server] offers and connects to servers only.  The server
    it returns is the result of connecting to a resource of the account
    that provides [server].  When the account has one such resource, the
    only output is the notice that it is being connected to; when it has
    several, the menu lists exactly those resources, numbered from 1 in
    their order, and every notice of a connection names one of them: a
    resource that is no server appears in no menu line and in no
    connection. *)
Theorem select_server_connects_a_server (account : MyPlexAccount)
  (prompt : str) (w w' : world) (server : PlexServer) :
  select_server fe account prompt w = (Return server, w') ->
  exists all r,
    account_resources fe account = Return all /\
    In r all /\ provides_server r = true /\ connect r = Return server /\
    In r (filter provides_server all) /\
    match filter provides_server all with
    | [only] => w' = after w [EvPrint (connecting_to only)]
    | resources =>
        exists rounds,
          trace w' = trace w ++ server_menu prompt resources ++ rounds /\
          Forall (server_round_event resources) rounds
    end.
Proof.
  unfold select_server, bind.
  destruct (account_resources fe account) as [all|e] eqn:Ea; [|discriminate].
  cbv zeta.
  assert (Hfilter : forall r, In r (filter provides_server all) ->
                              In r all /\ provides_server r = true)
    by (intros r Hr; now apply filter_In in Hr).
  destruct (filter provides_server all) as [|r [|r2 rest]] eqn:Ef.
  - rewrite print_run. discriminate.
  - rewrite print_run. unfold resource_connect. intros [= Hc <-].
    exists all, r. destruct (Hfilter r (or_introl eq_refl)) as [Hin Hp].
    split; [reflexivity|]. split; [exact Hin|]. split; [exact Hp|].
    split; [exact Hc|]. rewrite Ef. split; [now left|reflexivity].
  - rewrite !print_run, print_lines_run, !after_after.
    unfold loop_on_terminal. intros H.
    match type of H with
    | while_true ?n _ ?w1 = _ =>
        pose proof (select_server_loop (r :: r2 :: rest) n w1
                      (Nat.lt_succ_diag_r _)) as Hl;
        destruct (select_server_loop_events (r :: r2 :: rest) n w1)
          as (rounds & Ht & Hr)
    end.
    rewrite H in Hl, Ht. destruct Hl as (r0 & Hin & Hc).
    exists all, r0. destruct (Hfilter r0 Hin) as [Hin0 Hp].
    split; [reflexivity|]. split; [exact Hin0|]. split; [exact Hp|].
    split; [exact Hc|]. rewrite Ef. split; [exact Hin|].
    exists rounds. split; [|exact Hr].
    simpl in Ht. rewrite Ht. unfold server_menu.
    rewrite <- !app_assoc. reflexivity.
Qed.

End SelectServer.

(** The only server of the account is connected to. *)
Lemma select_server_connects_a_server_witness :
  select_server sample_frontend (Account (lit "fresh-token"))
    (lit "Select server:") (fresh_world Missing [] [])
  = (Return home_server,
     after (fresh_world Missing [] [])
       [EvPrint (lit "Connecting to server: Home...")]) /\
  exists all r,
    account_resources sample_frontend (Account (lit "fresh-token"))
    = Return all /\
    In r all /\ provides_server r = true /\ connect r = Return home_server /\
    In r (filter provides_server all) /\
    match filter provides_server all with
    | [only] =>
        after (fresh_world Missing [] [])
          [EvPrint (lit "Connecting to server: Home...")]
        = after (fresh_world Missing [] []) [EvPrint (connecting_to only)]
    | resources =>
        exists rounds,
          trace (after (fresh_world Missing [] [])
                   [EvPrint (lit "Connecting to server: Home...")])
          = trace (fresh_world Missing [] [])
            ++ server_menu (lit "Select server:") resources ++ rounds /\
          Forall (server_round_event resources) rounds
    end.
Proof.
  split; [reflexivity|].
  apply (select_server_connects_a_server sample_frontend
           (Account (lit "fresh-token")) (lit "Select server:")
           (fresh_world Missing [] [])
           (after (fresh_world Missing [] [])
              [EvPrint (lit "Connecting to server: Home...")])
           home_server).
  reflexivity.
Defined.

(** Two servers and a player: the menu has the two servers, and the second
    menu entry is the second server. *)
Example select_server_menu_has_servers_only :
  select_server family_frontend (Account (lit "fresh-token"))
    (lit "Select server:") (fresh_world Missing [Line (lit "2")] [])
  = (Return den_server,
     World Missing [] [] 0
       [EvPrint (nl ++ lit "Select server:");
        EvPrint (lit "Available servers:");
        EvPrint (lit "  1. Home");
        EvPrint (lit "  2. Den");
        EvInput (nl ++ lit "Select a server (number): ");
        EvPrint (lit "Connecting to server: Den...")]).
Proof. reflexivity. Qed.

(* ===================================================================== *)
(** * Further properties: the whole program *)
(* ===================================================================== *)

Section MainKeeps.

Variables (P : event -> bool) (fe : frontend) (sv : services)
          (a : arguments).

Hypothesis P_print : forall line, P (EvPrint line) = true.
Hypothesis P_input : forall prompt, P (EvInput prompt) = true.
Hypothesis P_getpass : forall prompt, P (EvGetpass prompt) = true.
Hypothesis P_credential : forall ev, is_credential_event ev = true -> P ev = true.

Lemma keeps_connect_to_server : keeps P false (connect_to_server fe sv a).
Proof.
  unfold connect_to_server.
  destruct (opt_truthy (arg_url a) && opt_truthy (arg_token a)).
  - apply keeps_bind; [keeps_step|intros _]. apply keeps_connect_direct.
  - apply keeps_bind; [now apply keeps_authenticate_myplex|intros account].
    now apply keeps_select_server.
Qed.

End MainKeeps.

Section Guarded.

Lemma confirmed_later (used typed : list tty_input) :
  confirmed typed -> confirmed (used ++ typed).
Proof.
  intros (before & l1 & l2 & rest & E & H). subst typed.
  exists (used ++ before), l1, l2, rest. now rewrite app_assoc.
Qed.

Lemma guarded_of_keeps {A} (m : M A) : keeps not_edit_event false m -> guarded m.
Proof. intros H w r w' E. left. eapply H. exact E. Qed.

Lemma guarded_bind {A B} (m : M A) (k : A -> M B) :
  keeps not_edit_event false m -> (forall x, guarded (k x)) ->
  guarded (bind m k).
Proof.
  intros Hm Hk w r w' H. unfold bind in H.
  destruct (m w) as [[x|e] w1] eqn:E.
  - pose proof (Hm _ _ _ E) as F1.
    destruct (Hk x _ _ _ H) as [F2|C].
    + left. eapply follows_trans; eassumption.
    + right. destruct F1 as (_ & (used & Hu) & _). rewrite Hu.
      now apply confirmed_later.
  - injection H as <- <-. left. eapply Hm. exact E.
Qed.

Lemma not_edit_of_no_edit (evs : list event) :
  existsb is_edit_event evs = false -> forallb not_edit_event evs = true.
Proof.
  induction evs as [|ev evs IH]; simpl; [reflexivity|].
  intros H. apply orb_false_iff in H as [H1 H2].
  unfold not_edit_event at 1. now rewrite H1, IH.
Qed.

Lemma not_edit_on_credentials (ev : event) :
  is_credential_event ev = true -> not_edit_event ev = true.
Proof. destruct ev; simpl; auto; discriminate. Qed.

(** The last two steps of [main]: the run mode, then the batch. *)
Lemma guarded_run (sv : services) (library : LibrarySection)
  (config : AIConfig) :
  guarded (real_run <- prompt_run_mode ;;
           process_library_items sv library config (negb real_run)).
Proof.
  intros w r w' H. unfold bind in H.
  destruct (prompt_run_mode w) as [[[|]|e] w1] eqn:E.
  - right. destruct (prompt_run_mode_true _ _ E)
      as (before & l1 & l2 & Ht & H1 & H2).
    now exists before, l1, l2, (tty w1).
  - left. simpl in H.
    assert (F1 : follows not_edit_event false w w1)
      by (eapply keeps_prompt_run_mode; [reflexivity..|exact E]).
    eapply follows_trans; [exact F1|].
    destruct (process_library_items_dry_sim library config sv sv w1 w1
                eq_refl (same_answers_refl sv w1))
      as (r0 & k & evs & E1 & _ & Hno & _).
    rewrite E1 in H. injection H as _ <-.
    apply follows_bump. now apply not_edit_of_no_edit.
  - injection H as <- <-. left.
    eapply keeps_prompt_run_mode; [reflexivity..|exact E].
Qed.

Lemma guarded_main_body (fe : frontend) (sv : services) (a : arguments) :
  guarded (main_body fe sv a).
Proof.
  unfold main_body.
  apply guarded_bind; [now apply keeps_load_config|intros config].
  apply guarded_bind.
  { destruct (negb (truthy (system_prompt config))).
    - apply keeps_bind; [now apply keeps_print|intros _]. apply keeps_sys_exit.
    - apply keeps_ret. }
  intros _. apply guarded_bind; [now apply keeps_OpenAI_new|intros _].
  apply guarded_bind.
  { apply keeps_connect_to_server; try reflexivity.
    apply not_edit_on_credentials. }
  intros server.
  apply guarded_bind; [now apply keeps_print|intros _].
  apply guarded_bind; [now apply keeps_select_library|intros library].
  apply guarded_run.
Qed.

End Guarded.

(** X23.  No title is edited unless the user confirmed a real run: if a
    run of [main] calls [editTitle] at all, then the terminal input holds a
    line that reads [2] directly followed by a line that reads [yes]. *)
Theorem main_edits_only_when_confirmed (fe : frontend) (sv : services)
  (a : arguments) (w : world) :
  existsb is_edit_event (events_since w (snd (main fe sv a w))) = true ->
  confirmed (tty w).
Proof.
  intros Hedit.
  assert (H : follows not_edit_event false w (snd (main fe sv a w)) \/
              confirmed (tty w)).
  { unfold main, main_try, try_except.
    pose proof (guarded_main_body fe sv a w) as Hg.
    destruct (main_body fe sv a w) as [[[]|e] w1].
    - apply (Hg _ _ eq_refl).
    - destruct (Hg _ _ eq_refl) as [F|C]; [|now right].
      destruct (is_Exception e); [|now left].
      left. eapply follows_trans; [exact F|].
      unfold bind, print, log, sys_exit, raise. simpl.
      apply (follows_after not_edit_event false w1
               [EvPrint (lit "Error: " ++ exc_msg e)]).
      reflexivity. }
  destruct H as [((evs & Ht & Hp) & _)|C]; [|exact C].
  rewrite (events_since_app _ _ _ Ht) in Hedit.
  apply forallb_negb_existsb in Hp. congruence.
Qed.

(** A direct connection, the first library, a confirmed real run: the
    title is edited. *)
Lemma main_edits_only_when_confirmed_witness :
  existsb is_edit_event
    (events_since confirming_world
       (snd (main sample_frontend helpful_services direct_arguments
               confirming_world)))
  = true /\
  confirmed (tty confirming_world).
Proof.
  split; [reflexivity|].
  apply (main_edits_only_when_confirmed sample_frontend helpful_services
           direct_arguments confirming_world).
  reflexivity.
Defined.

Section MainConfiguration.

Variables (fe : frontend) (sv : services) (a : arguments).

(** X24.  Every problem with the configuration ends the program with exit
    status 1 and exactly one line of output, before any connection, prompt
    or request: a missing file, a file that cannot be read or is no YAML, a
    document or an [ai] entry that is no mapping, and a missing or empty
    [system_prompt] (in particular a document without [ai] section). *)
Theorem configuration_errors_stop_main (w : world) :
  match config_file fe (arg_config a) with
  | ConfigMissing =>
      run_process (main fe sv a) w
      = (ExitStatus 1,
         after w [EvPrint (lit "Error: Config file not found: "
                           ++ arg_config a)])
  | ConfigUnreadable msg | ConfigNotYAML msg
  | ConfigHolds (RootNotMapping msg) | ConfigHolds (AiNotMapping msg) =>
      run_process (main fe sv a) w
      = (ExitStatus 1, after w (error_line_of msg))
  | ConfigHolds NoAiKey =>
      run_process (main fe sv a) w
      = (ExitStatus 1, after w system_prompt_required)
  | ConfigHolds (AiMapping m) =>
      truthy (get_or (ai_system_prompt m) []) = false ->
      run_process (main fe sv a) w
      = (ExitStatus 1, after w system_prompt_required)
  end.
Proof.
  unfold run_process, main, main_try, try_except, main_body, bind,
    load_config.
  destruct (config_file fe (arg_config a)) as [|msg|msg|[msg| |msg|m]];
    try reflexivity.
  intros H. simpl. rewrite H. reflexivity.
Qed.

End MainConfiguration.

(** A configuration with an empty [system_prompt]. *)
Lemma configuration_errors_stop_main_witness :
  truthy (get_or (ai_system_prompt blank_mapping) []) = false /\
  run_process (main blank_prompt_frontend helpful_services direct_arguments)
    confirming_world
  = (ExitStatus 1, after confirming_world system_prompt_required).
Proof.
  split; [reflexivity|].
  apply (configuration_errors_stop_main blank_prompt_frontend
           helpful_services direct_arguments confirming_world).
  reflexivity.
Defined.

(** A configuration without [ai] section ends the same way. *)
Example configuration_without_ai_section :
  run_process (main unconfigured_frontend helpful_services direct_arguments)
    confirming_world
  = (ExitStatus 1, after confirming_world system_prompt_required).
Proof. reflexivity. Qed.

Section DirectConnection.

Variables (fe : frontend) (sv : services) (a : arguments).

Hypothesis direct : opt_truthy (arg_url a) && opt_truthy (arg_token a) = true.

Lemma keeps_main_direct : keeps not_credential_event true (main fe sv a).
Proof.
  unfold main, main_try.
  apply keeps_try_except.
  2:{ intros e. apply keeps_bind; [now apply keeps_print|intros _].
      apply keeps_sys_exit. }
  unfold main_body.
  apply keeps_bind; [now apply keeps_load_config|intros config].
  apply keeps_bind.
  { destruct (negb (truthy (system_prompt config))).
    - apply keeps_bind; [now apply keeps_print|intros _]. apply keeps_sys_exit.
    - apply keeps_ret. }
  intros _. apply keeps_bind; [now apply keeps_OpenAI_new|intros _].
  apply keeps_bind.
  { unfold connect_to_server. rewrite direct.
    apply keeps_bind; [now apply keeps_print|intros _].
    apply keeps_connect_direct. }
  intros server.
  apply keeps_bind; [now apply keeps_print|intros _].
  apply keeps_bind; [now apply keeps_select_library|intros library].
  apply keeps_bind; [now apply keeps_prompt_run_mode|intros real_run].
  now apply keeps_process_library_items.
Qed.

(** X25.  With a URL and a token on the command line the program never
    touches the cached credentials: the credential file is neither read,
    written nor removed, and is the same after the run, however the run
    ends. *)
Theorem direct_connection_leaves_credentials (w : world) :
  creds_file (snd (main fe sv a w)) = creds_file w /\
  existsb is_credential_event (events_since w (snd (main fe sv a w))) = false.
Proof.
  destruct (main fe sv a w) as [r w'] eqn:E.
  destruct (keeps_main_direct _ _ _ E) as ((evs & Ht & Hp) & _ & Hc).
  simpl. split; [now apply Hc|].
  rewrite (events_since_app _ _ _ Ht).
  now apply forallb_negb_existsb.
Qed.

End DirectConnection.

(** A complete run over a direct connection. *)
Lemma direct_connection_leaves_credentials_witness :
  opt_truthy (arg_url direct_arguments)
  && opt_truthy (arg_token direct_arguments) = true /\
  creds_file
    (snd (main sample_frontend helpful_services direct_arguments
            confirming_world))
  = creds_file confirming_world.
Proof.
  split; [reflexivity|].
  apply (direct_connection_leaves_credentials sample_frontend
           helpful_services direct_arguments eq_refl confirming_world).
Defined.

Section MainOutcome.

Variables (fe : frontend) (sv : services) (a : arguments).

(** X26.  How the program ends.  If the statements of [main] run through,
    the exit status is 0.  Every [Exception] they raise, wherever it comes
    from, ends the program with the single line [Error: <message>] and exit
    status 1.  An exit requested with [sys.exit], such as the status 0 of a
    cancelled menu, is not turned into an error: it keeps its status and
    prints nothing more.  Only an interrupt leaves [main] uncaught. *)
Theorem main_exit_status (w : world) :
  match main_body fe sv a w with
  | (Return _, w1) => run_process (main fe sv a) w = (ExitStatus 0, w1)
  | (Raise e, w1) =>
      if is_Exception e then
        run_process (main fe sv a) w
        = (ExitStatus 1, after w1 (error_line_of (exc_msg e)))
      else
        match exc_cls e with
        | SystemExit status =>
            run_process (main fe sv a) w = (ExitStatus status, w1)
        | _ =>
            run_process (main fe sv a) w = (UncaughtTraceback e, w1) /\
            exc_cls e = KeyboardInterrupt
        end
  end.
Proof.
  unfold run_process, main, main_try, try_except.
  destruct (main_body fe sv a w) as [[[]|e] w1]; [reflexivity|].
  destruct e as [cls msg]. unfold is_Exception. simpl.
  destruct cls; try reflexivity. split; reflexivity.
Qed.

End MainOutcome.

(** A complete real run ends with status 0; a cancelled one too. *)
Example main_runs_through :
  fst (run_process (main sample_frontend helpful_services direct_arguments)
         confirming_world)
  = ExitStatus 0
  /\
  fst (run_process (main sample_frontend helpful_services direct_arguments)
         (fresh_world Missing [Line (lit "1")] two_movies))
  = ExitStatus 0.
Proof. split; reflexivity. Qed.
